(** * Nexora WebAR: the 3D model conversion pipeline

    A shallow embedding of class [ModelConversionService] (found in
    [server/services/stripe-service.ts], which holds the text of the
    services one after the other), of the parts of class
    [FileUploadService] (same file), of [server/storage.ts] and of
    [server/routes.ts] it talks to, and the properties of the job state
    machine, of the stage order, of the fallbacks and of the job registry.

    Asynchronous TypeScript functions are embedded as terms of a small
    free monad [Async]: primitive operations on an explicit [World],
    suspension points (each awaited I/O operation), exceptions with
    try/catch, and fire-and-forget calls.  Everything the code cannot
    decide by itself (external tools, the file system, S3, the database,
    random identifiers, configuration) is read from an [Env]. *)

From stdpp Require Import gmap strings list fin_maps.
From Stdlib Require Import ZArith Ascii String Lia.

Open Scope string_scope.
Open Scope Z_scope.

(** ** Strings and the pieces of the Node runtime the code relies on *)

Module Node.

(** The double quote character, for shell commands and scripts. *)
Definition dq : string := String (ascii_of_nat 34) EmptyString.

(** A line feed, as written [\n] in the template literals. *)
Definition nl : string := String (ascii_of_nat 10) EmptyString.

Definition quoted (s : string) : string := dq ++ s ++ dq.

Definition lower_ascii (c : ascii) : ascii :=
  let n := nat_of_ascii c in
  if ((65 <=? n)%nat && (n <=? 90)%nat)%bool then ascii_of_nat (n + 32) else c.

(** A string of ASCII characters. *)
Definition ascii_only (s : string) : Prop :=
  Forall (fun c => (nat_of_ascii c < 128)%nat) (list_ascii_of_string s).

(** [String.prototype.toLowerCase], on byte strings: the ASCII letters
    are mapped, every other byte is kept.  On a string of ASCII
    characters this is what JavaScript returns; JavaScript also maps the
    capital letters outside ASCII, which are kept here. *)
Fixpoint toLowerCase (s : string) : string :=
  match s with
  | EmptyString => EmptyString
  | String c r => String (lower_ascii c) (toLowerCase r)
  end.

Fixpoint toUpperCase (s : string) : string :=
  match s with
  | EmptyString => EmptyString
  | String c r =>
      let n := nat_of_ascii c in
      String (if ((97 <=? n)%nat && (n <=? 122)%nat)%bool
              then ascii_of_nat (n - 32) else c) (toUpperCase r)
  end.

(** The state of the backwards scan of [path.extname] (POSIX). *)
Record ExtScan := {
  startDot : Z;
  startPart : Z;
  endIdx : Z;
  matchedSlash : bool;
  preDotState : Z
}.

Definition is_slash (c : ascii) : bool := (nat_of_ascii c =? 47)%nat.
Definition is_dot (c : ascii) : bool := (nat_of_ascii c =? 46)%nat.

(** One run of the loop [for (i = path.length - 1; i >= 0; --i)]: [cs]
    holds the characters at positions [i], [i-1], ..., [0]. *)
Fixpoint extname_scan (cs : list ascii) (i : Z) (st : ExtScan) : ExtScan :=
  match cs with
  | [] => st
  | c :: rest =>
      if is_slash c then
        if negb (matchedSlash st) then
          {| startDot := startDot st; startPart := i + 1; endIdx := endIdx st;
             matchedSlash := matchedSlash st; preDotState := preDotState st |}
        else extname_scan rest (i - 1) st
      else
        let st1 :=
          if endIdx st =? -1 then
            {| startDot := startDot st; startPart := startPart st; endIdx := i + 1;
               matchedSlash := false; preDotState := preDotState st |}
          else st in
        let st2 :=
          if is_dot c then
            if startDot st1 =? -1 then
              {| startDot := i; startPart := startPart st1; endIdx := endIdx st1;
                 matchedSlash := matchedSlash st1; preDotState := preDotState st1 |}
            else if negb (preDotState st1 =? 1) then
              {| startDot := startDot st1; startPart := startPart st1;
                 endIdx := endIdx st1; matchedSlash := matchedSlash st1;
                 preDotState := 1 |}
            else st1
          else if negb (startDot st1 =? -1) then
            {| startDot := startDot st1; startPart := startPart st1;
               endIdx := endIdx st1; matchedSlash := matchedSlash st1;
               preDotState := -1 |}
          else st1 in
        extname_scan rest (i - 1) st2
  end.

Definition slice (s : string) (from to : Z) : string :=
  substring (Z.to_nat from) (Z.to_nat (to - from)) s.

(** [path.extname]: the extension of the last portion of the path, from
    its last dot to its end; empty when there is no dot, or when the
    portion starts with its only dot. *)
Definition extname (path : string) : string :=
  let cs := rev (list_ascii_of_string path) in
  let st := extname_scan cs (Z.of_nat (String.length path) - 1)
              {| startDot := -1; startPart := 0; endIdx := -1;
                 matchedSlash := true; preDotState := 0 |} in
  if ((startDot st =? -1) || (endIdx st =? -1) || (preDotState st =? 0)
      || ((preDotState st =? 1) && (startDot st =? endIdx st - 1)
          && (startDot st =? startPart st + 1)))%bool
  then EmptyString
  else slice path (startDot st) (endIdx st).

(** The portions of a path between its slashes. *)
Fixpoint segments (path : string) : list string :=
  match path with
  | EmptyString => [EmptyString]
  | String c rest =>
      if is_slash c then EmptyString :: segments rest
      else match segments rest with
           | seg :: more => String c seg :: more
           | [] => [String c EmptyString]
           end
  end.

(** [normalizeString] of [path.normalize] (POSIX), portion by portion:
    an empty portion and [.] are dropped, [..] removes the portion kept
    last, or is kept itself when there is none to remove and the path is
    relative.  [kept] holds the portions kept so far, the last one
    first. *)
Fixpoint resolve (allowAboveRoot : bool) (segs kept : list string) : list string :=
  match segs with
  | [] => rev kept
  | seg :: rest =>
      if (String.eqb seg EmptyString || String.eqb seg ".")%bool then
        resolve allowAboveRoot rest kept
      else if String.eqb seg ".." then
        match kept with
        | top :: below =>
            if String.eqb top ".." then resolve allowAboveRoot rest (".." :: kept)
            else resolve allowAboveRoot rest below
        | [] => resolve allowAboveRoot rest (if allowAboveRoot then [".."] else [])
        end
      else resolve allowAboveRoot rest (seg :: kept)
  end.

Fixpoint joined (segs : list string) : string :=
  match segs with
  | [] => EmptyString
  | [seg] => seg
  | seg :: rest => seg ++ "/" ++ joined rest
  end.

Definition starts_with_slash (s : string) : bool :=
  match s with String c _ => is_slash c | EmptyString => false end.

Fixpoint ends_with_slash (s : string) : bool :=
  match s with
  | EmptyString => false
  | String c EmptyString => is_slash c
  | String _ rest => ends_with_slash rest
  end.

(** [path.normalize] (POSIX). *)
Definition normalize (path : string) : string :=
  if String.eqb path EmptyString then "."
  else
    let isAbsolute := starts_with_slash path in
    let trailingSeparator := ends_with_slash path in
    let p := joined (resolve (negb isAbsolute) (segments path) []) in
    if String.eqb p EmptyString then
      if isAbsolute then "/" else if trailingSeparator then "./" else "."
    else
      (if isAbsolute then "/" else EmptyString) ++ p
      ++ (if trailingSeparator then "/" else EmptyString).

(** [path.join] of two arguments (POSIX): the arguments that are not
    empty are put together with a slash and the result is normalised. *)
Definition path_join (dir name : string) : string :=
  if String.eqb dir EmptyString then
    if String.eqb name EmptyString then "." else normalize name
  else if String.eqb name EmptyString then normalize dir
  else normalize (dir ++ "/" ++ name).

(** [a || b] on strings: the empty string is falsy, as is an unset
    variable of [process.env]. *)
Definition or_default (v : option string) (d : string) : string :=
  match v with
  | Some s => if String.eqb s EmptyString then d else s
  | None => d
  end.

(** Whether [p] lies below the directory [dir]. *)
Definition below (dir p : string) : bool := String.prefix (dir ++ "/") p.

End Node.

(** ** Data model *)

(** [ConversionJob], the interface declared before [ModelConversionService]. *)
Module Job.

Inductive Status := pending | processing | complete | failed.

Record OutputFiles := {
  glb : option string;
  usdz : option string;
  thumbnail : option string
}.

Record Metadata := {
  vertices : option Z;
  triangles : option Z;
  textures : option Z;
  fileSize : option Z
}.

Record t := {
  id : string;
  modelId : string;
  status : Status;
  inputFile : string;
  outputFiles : OutputFiles;
  logs : list string;
  startTime : Z;
  endTime : option Z;
  error : option string;
  metadata : option Metadata
}.

Definition no_outputs : OutputFiles :=
  {| glb := None; usdz := None; thumbnail := None |}.

Definition set_status (s : Status) (j : t) : t :=
  {| id := id j; modelId := modelId j; status := s; inputFile := inputFile j;
     outputFiles := outputFiles j; logs := logs j; startTime := startTime j;
     endTime := endTime j; error := error j; metadata := metadata j |}.

Definition set_outputFiles (o : OutputFiles) (j : t) : t :=
  {| id := id j; modelId := modelId j; status := status j; inputFile := inputFile j;
     outputFiles := o; logs := logs j; startTime := startTime j;
     endTime := endTime j; error := error j; metadata := metadata j |}.

Definition push_log (entry : string) (j : t) : t :=
  {| id := id j; modelId := modelId j; status := status j; inputFile := inputFile j;
     outputFiles := outputFiles j; logs := logs j ++ [entry]; startTime := startTime j;
     endTime := endTime j; error := error j; metadata := metadata j |}.

Definition set_endTime (d : Z) (j : t) : t :=
  {| id := id j; modelId := modelId j; status := status j; inputFile := inputFile j;
     outputFiles := outputFiles j; logs := logs j; startTime := startTime j;
     endTime := Some d; error := error j; metadata := metadata j |}.

Definition set_error (e : string) (j : t) : t :=
  {| id := id j; modelId := modelId j; status := status j; inputFile := inputFile j;
     outputFiles := outputFiles j; logs := logs j; startTime := startTime j;
     endTime := endTime j; error := Some e; metadata := metadata j |}.

Definition terminal (s : Status) : bool :=
  match s with complete | failed => true | _ => false end.

(** What a dangling reference reads; no reference of the code dangles. *)
Definition dummy : t :=
  {| id := EmptyString; modelId := EmptyString; status := pending;
     inputFile := EmptyString; outputFiles := no_outputs; logs := [];
     startTime := 0; endTime := None; error := None; metadata := None |}.

End Job.

(** The row of table [ar_models] (shared/schema.ts), with the columns the
    upload route and the pipeline write; the descriptive columns
    (description, price, category, allergen tags, AR settings, hotspots,
    creation time) are written by neither and are left out. *)
Module Model.

Inductive Status := uploading | processing | complete | failed.

(** What [analyzeModel] returns and the [metadata] column stores. *)
Record Metadata := {
  fileSize : option Z;
  vertices : option Z;
  triangles : option Z;
  textures : option Z;
  format : option string;
  optimized : option bool
}.

Definition empty_metadata : Metadata :=
  {| fileSize := None; vertices := None; triangles := None; textures := None;
     format := None; optimized := None |}.

Record t := {
  id : string;
  name : string;
  projectId : string;
  originalFileUrl : option string;
  glbFileUrl : option string;
  usdzFileUrl : option string;
  thumbnailUrl : option string;
  status : Status;
  processingLogs : list string;
  shortLink : option string;
  qrCodeUrl : option string;
  metadata : Metadata;
  updatedAt : Z
}.

(** [Partial<InsertArModel>]: the fields an update carries. *)
Record Patch := {
  p_originalFileUrl : option string;
  p_glbFileUrl : option string;
  p_usdzFileUrl : option string;
  p_thumbnailUrl : option string;
  p_status : option Status;
  p_processingLogs : option (list string);
  p_shortLink : option string;
  p_qrCodeUrl : option string;
  p_metadata : option Metadata
}.

(** [InsertArModel], as the upload route builds it. *)
Record Insert := {
  i_name : string;
  i_projectId : string;
  i_status : Status;
  i_shortLink : string
}.

Definition or_old {A} (new : option A) (old : A) : A :=
  match new with Some x => x | None => old end.

Definition or_keep {A} (new old : option A) : option A :=
  match new with Some x => Some x | None => old end.

(** [.set({ ...updates, updatedAt: new Date() })] on one row. *)
Definition apply (u : Patch) (at_ : Z) (m : t) : t :=
  {| id := id m; name := name m; projectId := projectId m;
     originalFileUrl := or_keep (p_originalFileUrl u) (originalFileUrl m);
     glbFileUrl := or_keep (p_glbFileUrl u) (glbFileUrl m);
     usdzFileUrl := or_keep (p_usdzFileUrl u) (usdzFileUrl m);
     thumbnailUrl := or_keep (p_thumbnailUrl u) (thumbnailUrl m);
     status := or_old (p_status u) (status m);
     processingLogs := or_old (p_processingLogs u) (processingLogs m);
     shortLink := or_keep (p_shortLink u) (shortLink m);
     qrCodeUrl := or_keep (p_qrCodeUrl u) (qrCodeUrl m);
     metadata := or_old (p_metadata u) (metadata m);
     updatedAt := at_ |}.

(** The row an insert creates: unset columns take their defaults. *)
Definition create (key : string) (at_ : Z) (i : Insert) : t :=
  {| id := key; name := i_name i; projectId := i_projectId i;
     originalFileUrl := None; glbFileUrl := None; usdzFileUrl := None;
     thumbnailUrl := None; status := i_status i; processingLogs := [];
     shortLink := Some (i_shortLink i); qrCodeUrl := None;
     metadata := empty_metadata; updatedAt := at_ |}.

End Model.

(** ** The world outside the service *)

Inductive FileNode := Dir | File (content : string).

(** Calls of [fs/promises]. *)
Inductive FsOp :=
| Mkdir (path : string)
| CopyFile (src dst : string)
| WriteFile (path content : string)
| ReadFile (path : string)
| Stat (path : string)
| Rm (path : string)
| Unlink (path : string).

(** Statements sent through drizzle by [DatabaseStorage]. *)
Inductive DbOp :=
| InsertModel (row : Model.Insert)
| UpdateModel (key : string) (updates : Model.Patch)
| SelectModelByShortLink (shortLink : string).

Inductive Level := Log | Warn | Err.

(** Everything the service does to its surroundings, in the order it is
    attempted. *)
Inductive Effect :=
| Fs (op : FsOp)
| Exec (command cwd : string)
| S3Put (key contentType : string)
| Db (op : DbOp)
| QRCode (url : string)
| Sharp (width height : Z) (format : string)
| Console (level : Level) (message : string).

(** What a child process did: whether it exited with success, its
    standard output, the message of the error and the standard error
    when it did not, and the files it left behind. *)
Record ExecResult := {
  exit_ok : bool;
  stdout : string;
  failure : string;
  stderr : string;
  written : list (string * string)
}.

(** The surroundings: configuration read from [process.env], and how the
    collaborators answer.  An answer [Some msg] of an [_error] field is
    the message of the error the call is rejected with. *)
Record Env := {
  TEMP_DIR : option string;
  BLENDER_PATH : option string;
  BASE_URL : option string;
  S3_BUCKET_NAME : option string;
  CLOUDFRONT_DOMAIN : option string;
  (** [nanoid(size)], the n-th identifier drawn *)
  nanoid : nat -> nat -> string;
  (** [gen_random_uuid()], the n-th identifier drawn *)
  gen_random_uuid : nat -> string;
  (** [Date.prototype.toISOString] of a time in milliseconds *)
  toISOString : Z -> string;
  (** [child_process.exec(command, { cwd })] *)
  exec : string -> string -> ExecResult;
  fs_error : FsOp -> option string;
  s3_error : string -> option string;
  db_error : DbOp -> option string;
  (** [require('qrcode')] and [QRCode.toBuffer]: the image, if any *)
  qrcode_toBuffer : string -> option string;
  (** [sharp(svg)...toBuffer()]: the image, if any *)
  sharp_toBuffer : Z -> Z -> string -> option string
}.

(** The state everything runs on.  Job objects live in [heap] and are
    named by their position there: the registry, the pipeline of a job
    and [cancelJob] all hold the same object. *)
Record World := {
  heap : list Job.t;
  jobs : gmap string nat;
  models : gmap string Model.t;
  files : gmap string FileNode;
  trace : list Effect;
  now : Z;
  draws : nat
}.

Definition set_heap (h : list Job.t) (w : World) : World :=
  {| heap := h; jobs := jobs w; models := models w; files := files w;
     trace := trace w; now := now w; draws := draws w |}.
Definition set_jobs (j : gmap string nat) (w : World) : World :=
  {| heap := heap w; jobs := j; models := models w; files := files w;
     trace := trace w; now := now w; draws := draws w |}.
Definition set_models (m : gmap string Model.t) (w : World) : World :=
  {| heap := heap w; jobs := jobs w; models := m; files := files w;
     trace := trace w; now := now w; draws := draws w |}.
Definition set_files (f : gmap string FileNode) (w : World) : World :=
  {| heap := heap w; jobs := jobs w; models := models w; files := f;
     trace := trace w; now := now w; draws := draws w |}.
Definition emit (ev : Effect) (w : World) : World :=
  {| heap := heap w; jobs := jobs w; models := models w; files := files w;
     trace := trace w ++ [ev]; now := now w; draws := draws w |}.
Definition set_now (t : Z) (w : World) : World :=
  {| heap := heap w; jobs := jobs w; models := models w; files := files w;
     trace := trace w; now := t; draws := draws w |}.
Definition next_draw (w : World) : World :=
  {| heap := heap w; jobs := jobs w; models := models w; files := files w;
     trace := trace w; now := now w; draws := S (draws w) |}.

Definition empty_world : World :=
  {| heap := []; jobs := ∅; models := ∅; files := ∅; trace := []; now := 0;
     draws := 0 |}.

(** The job object behind a reference. *)
Definition job_at (w : World) (ref : nat) : Job.t :=
  default Job.dummy (heap w !! ref).

(** The job the registry holds under an identifier. *)
Definition getJobStatus (w : World) (jobId : string) : option Job.t :=
  job_at w <$> jobs w !! jobId.

(** ** Asynchronous computations *)

Inductive Result (A : Type) : Type :=
| Ok (a : A)
| Error (message : string).
Arguments Ok {A} a.
Arguments Error {A} message.

(** An [async] function body: [Ret] returns, [Throw] throws an [Error]
    with a message, [Prim] runs one synchronous operation on the world,
    [Await] is a suspension point (other tasks may run before the rest),
    [Spawn] calls an async function without awaiting it. *)
Inductive Async (A : Type) : Type :=
| Ret (a : A)
| Throw (message : string)
| Prim {X : Type} (op : World -> World * X) (k : X -> Async A)
| Await (k : Async A)
| Spawn (task : Async unit) (k : Async A).
Arguments Ret {A} a.
Arguments Throw {A} message.
Arguments Prim {A X} op k.
Arguments Await {A} k.
Arguments Spawn {A} task k.

Fixpoint bind {A B : Type} (m : Async A) (f : A -> Async B) : Async B :=
  match m with
  | Ret a => f a
  | Throw e => Throw e
  | Prim op k => Prim op (fun x => bind (k x) f)
  | Await k => Await (bind k f)
  | Spawn t k => Spawn t (bind k f)
  end.

(** [try { m } catch (error) { h error }]; what a spawned task throws is
    not caught by the caller. *)
Fixpoint try_catch {A : Type} (m : Async A) (h : string -> Async A) : Async A :=
  match m with
  | Ret a => Ret a
  | Throw e => h e
  | Prim op k => Prim op (fun x => try_catch (k x) h)
  | Await k => Await (try_catch k h)
  | Spawn t k => Spawn t (try_catch k h)
  end.

Notation "'let*' x := m 'in' k" := (bind m (fun x => k))
  (at level 10, x name, m at level 100, k at level 200, only parsing).
Notation "m >> k" := (bind m (fun _ => k))
  (at level 65, right associativity, only parsing).

(** A synchronous operation that cannot throw. *)
Definition sync {X} (op : World -> World * X) : Async X := Prim op Ret.

(** A synchronous operation on the world with no result. *)
Definition act (f : World -> World) : Async unit :=
  Prim (fun w => (f w, tt)) Ret.

(** An awaited I/O call: the call is made, the task is suspended, and it
    goes on with the result or the rejection. *)
Definition io {X} (op : World -> World * Result X) : Async X :=
  Prim op (fun r => Await (match r with Ok x => Ret x | Error e => Throw e end)).

(** A task is finished when nothing of it is left to run. *)
Definition finished {A} (m : Async A) : bool :=
  match m with Ret _ | Throw _ => true | _ => false end.

Definition keep (t : Async unit) (pool : list (Async unit)) : list (Async unit) :=
  if finished t then pool else pool ++ [t].

(** Run a task up to its next suspension point.  A spawned task runs up
    to its first suspension point and then waits in the pool. *)
Fixpoint resume {A : Type} (m : Async A) (w : World) (pool : list (Async unit))
  : World * list (Async unit) * Async A :=
  match m with
  | Prim op k => let '(w', x) := op w in resume (k x) w' pool
  | Spawn t k =>
      let '(w', pool', t') := resume t w pool in
      resume k w' (keep t' pool')
  | Await k => (w, pool, m)
  | _ => (w, pool, m)
  end.

(** Run a task to its end with no other task in between: what the caller
    that awaits it sees when nothing else happens meanwhile.  Tasks it
    spawns are left suspended in the pool. *)
Fixpoint run {A : Type} (m : Async A) (w : World) (pool : list (Async unit))
  : World * list (Async unit) * Result A :=
  match m with
  | Ret a => (w, pool, Ok a)
  | Throw e => (w, pool, Error e)
  | Prim op k => let '(w', x) := op w in run (k x) w' pool
  | Await k => run k w pool
  | Spawn t k =>
      let '(w', pool', t') := resume t w pool in
      run k w' (keep t' pool')
  end.

Definition ignore {A} (m : Async A) : Async unit := let* _ := m in Ret tt.

(** The outcome of a promise, awaited without letting it throw. *)
Definition settle {A} (m : Async A) : Async (Result A) :=
  try_catch (let* x := m in Ret (Ok x)) (fun e => Ret (Error e)).

Definition of_result {A} (r : Result A) : Async A :=
  match r with Ok x => Ret x | Error e => Throw e end.

(** ** Primitive operations *)

Section Primitives.
Context (E : Env).

Definition draw_nanoid (size : nat) : Async string :=
  sync (fun w => (next_draw w, nanoid E size (draws w))).

(** [new Date()], in milliseconds. *)
Definition new_Date : Async Z := sync (fun w => (w, now w)).

Definition console (l : Level) (message : string) : Async unit :=
  act (emit (Console l message)).

(** Reading and assigning the fields of a job object. *)
Definition read_job (job : nat) : Async Job.t := sync (fun w => (w, job_at w job)).

Definition assign (job : nat) (f : Job.t -> Job.t) : Async unit :=
  act (fun w => set_heap (alter f job (heap w)) w).

(** An [fs] call: it is attempted, fails when the surroundings say so
    or when the files at hand do not allow it, and otherwise changes
    the files.  Whether the parent directory of a written path exists
    is left to the surroundings. *)
Definition fs_call {X} (op : FsOp)
    (f : gmap string FileNode -> Result (gmap string FileNode * X))
    (w : World) : World * Result X :=
  let w1 := emit (Fs op) w in
  match fs_error E op with
  | Some msg => (w1, Error msg)
  | None =>
      match f (files w1) with
      | Ok (fs', x) => (set_files fs' w1, Ok x)
      | Error msg => (w1, Error msg)
      end
  end.

(** The message of a system error: the code and its description, the
    system call and the path in single quotes. *)
Definition sq (path : string) : string := "'" ++ path ++ "'".

Definition enoent (syscall path : string) : string :=
  "ENOENT: no such file or directory, " ++ syscall ++ " " ++ sq path.

Definition eexist (path : string) : string :=
  "EEXIST: file already exists, mkdir " ++ sq path.

(** [fs.mkdir(path, { recursive: true })] *)
Definition fs_mkdir (path : string) : Async unit :=
  io (fs_call (Mkdir path) (fun fs =>
    match fs !! path with
    | Some (File _) => Error (eexist path)
    | _ => Ok (<[path := Dir]> fs, tt)
    end)).

Definition fs_copyFile (src dst : string) : Async unit :=
  io (fs_call (CopyFile src dst) (fun fs =>
    match fs !! src with
    | Some (File c) => Ok (<[dst := File c]> fs, tt)
    | Some Dir =>
        Error ("EISDIR: illegal operation on a directory, copyfile "
               ++ sq src ++ " -> " ++ sq dst)
    | None =>
        Error ("ENOENT: no such file or directory, copyfile "
               ++ sq src ++ " -> " ++ sq dst)
    end)).

Definition fs_writeFile (path content : string) : Async unit :=
  io (fs_call (WriteFile path content) (fun fs =>
    match fs !! path with
    | Some Dir => Error ("EISDIR: illegal operation on a directory, open " ++ sq path)
    | _ => Ok (<[path := File content]> fs, tt)
    end)).

Definition fs_readFile (path : string) : Async string :=
  io (fs_call (ReadFile path) (fun fs =>
    match fs !! path with
    | Some (File c) => Ok (fs, c)
    | Some Dir => Error "EISDIR: illegal operation on a directory, read"
    | None => Error (enoent "open" path)
    end)).

(** [fs.stat(path)], of which only [size] is read. *)
Definition fs_stat (path : string) : Async Z :=
  io (fs_call (Stat path) (fun fs =>
    match fs !! path with
    | Some (File c) => Ok (fs, Z.of_nat (String.length c))
    | Some Dir => Ok (fs, 4096)
    | None => Error (enoent "stat" path)
    end)).

(** [fs.rm(path, { recursive: true, force: true })] *)
Definition fs_rm (path : string) : Async unit :=
  io (fs_call (Rm path) (fun fs =>
    Ok (filter (fun '(p, _) => p ≠ path ∧ Node.below path p = false) fs, tt))).

Definition fs_unlink (path : string) : Async unit :=
  io (fs_call (Unlink path) (fun fs =>
    match fs !! path with
    | Some (File _) => Ok (delete path fs, tt)
    | _ => Error (enoent "unlink" path)
    end)).

Definition write_all (out : list (string * string)) (fs : gmap string FileNode)
  : gmap string FileNode :=
  foldl (fun acc '(p, c) => <[p := File c]> acc) fs out.

(** [child_process.exec]: the command runs in [cwd], leaves its files,
    and calls back with what happened. *)
Definition child_exec (command cwd : string) : Async ExecResult :=
  Prim (fun w =>
    let w1 := emit (Exec command cwd) w in
    let r := exec E command cwd in
    (set_files (write_all (written r) (files w1)) w1, r))
    (fun r => Await (Ret r)).

End Primitives.

(** ** [DatabaseStorage] (server/storage.ts) over table [ar_models] *)

Module Storage.
Section Storage.
Context (E : Env).

(** Column [short_link] is declared [unique]: a row other than [key]
    that holds [shortLink] makes the statement fail. *)
Definition shortLink_taken (rows : gmap string Model.t) (key shortLink : string) : bool :=
  existsb (fun '(k, m) =>
             negb (String.eqb k key)
             && match Model.shortLink m with
                | Some s => String.eqb s shortLink
                | None => false
                end)
          (map_to_list rows).

Definition unique_violation : string :=
  "duplicate key value violates unique constraint "
  ++ Node.quoted "ar_models_short_link_unique".

Definition db_call {X} (op : DbOp)
    (f : World -> Result (gmap string Model.t * X)) (w : World) : World * Result X :=
  let w1 := emit (Db op) w in
  match db_error E op with
  | Some msg => (w1, Error msg)
  | None =>
      match f w1 with
      | Ok (rows, x) => (set_models rows w1, Ok x)
      | Error msg => (w1, Error msg)
      end
  end.

Definition createArModel (model : Model.Insert) : Async Model.t :=
  let* key := sync (fun w => (next_draw w, gen_random_uuid E (draws w))) in
  io (db_call (InsertModel model) (fun w =>
    if shortLink_taken (models w) key (Model.i_shortLink model)
    then Error unique_violation
    else match models w !! key with
         | Some _ =>
             Error ("duplicate key value violates unique constraint "
                    ++ Node.quoted "ar_models_pkey")
         | None =>
             let row := Model.create key (now w) model in
             Ok (<[key := row]> (models w), row)
         end)).


(** [updateModel]: the row with the key, if any, takes the updates and
    a new [updatedAt]; the updated row is returned. *)
Definition updateModel (key : string) (updates : Model.Patch) : Async (option Model.t) :=
  io (db_call (UpdateModel key updates) (fun w =>
    match models w !! key with
    | None => Ok (models w, None)
    | Some m =>
        match Model.p_shortLink updates with
        | Some s =>
            if shortLink_taken (models w) key s then Error unique_violation
            else let m' := Model.apply updates (now w) m in
                 Ok (<[key := m']> (models w), Some m')
        | None =>
            let m' := Model.apply updates (now w) m in
            Ok (<[key := m']> (models w), Some m')
        end
    end)).

End Storage.
End Storage.

(** No field set: the updates below name the fields they carry. *)
Definition no_patch : Model.Patch :=
  {| Model.p_originalFileUrl := None; Model.p_glbFileUrl := None;
     Model.p_usdzFileUrl := None; Model.p_thumbnailUrl := None;
     Model.p_status := None; Model.p_processingLogs := None;
     Model.p_shortLink := None; Model.p_qrCodeUrl := None;
     Model.p_metadata := None |}.

Definition status_and_logs (s : Model.Status) (logs : list string) : Model.Patch :=
  {| Model.p_originalFileUrl := None; Model.p_glbFileUrl := None;
     Model.p_usdzFileUrl := None; Model.p_thumbnailUrl := None;
     Model.p_status := Some s; Model.p_processingLogs := Some logs;
     Model.p_shortLink := None; Model.p_qrCodeUrl := None;
     Model.p_metadata := None |}.

Definition logs_only (logs : list string) : Model.Patch :=
  {| Model.p_originalFileUrl := None; Model.p_glbFileUrl := None;
     Model.p_usdzFileUrl := None; Model.p_thumbnailUrl := None;
     Model.p_status := None; Model.p_processingLogs := Some logs;
     Model.p_shortLink := None; Model.p_qrCodeUrl := None;
     Model.p_metadata := None |}.

(** ** [FileUploadService] (server/services/stripe-service.ts, from line 1394) *)

(** A file as multer hands it over. *)
Record MulterFile := {
  originalname : string;
  path : string;
  mimetype : string
}.

Record ThumbnailOptions := {
  width : option Z;
  height : option Z;
  quality : option Z;
  format : option string
}.

Definition no_options : ThumbnailOptions :=
  {| width := None; height := None; quality := None; format := None |}.

Module FileUploadService.
Section FileUploadService.
Context (E : Env).

Definition BUCKET_NAME : string := Node.or_default (S3_BUCKET_NAME E) "nexora-models".
Definition CDN_DOMAIN : string :=
  Node.or_default (CLOUDFRONT_DOMAIN E) (BUCKET_NAME ++ ".s3.amazonaws.com").

Definition file_url (fileName : string) : string :=
  "https://" ++ CDN_DOMAIN ++ "/" ++ fileName.

(** [s3Client.send(new PutObjectCommand(...))] *)
Definition s3_put (key contentType : string) : Async unit :=
  io (fun w => (emit (S3Put key contentType) w,
                match s3_error E key with
                | Some msg => Error msg
                | None => Ok tt
                end)).

Definition uploadFile (file : MulterFile) (modelId : string) : Async string :=
  try_catch
    (let fileExtension := Node.extname (originalname file) in
     let* n := draw_nanoid E 8 in
     let fileName := "models/" ++ modelId ++ "/" ++ n ++ fileExtension in
     let* fileBuffer := fs_readFile E (path file) in
     s3_put fileName (mimetype file) >>
     try_catch (fs_unlink E (path file))
               (fun error => console Warn ("Failed to cleanup temp file: " ++ error)) >>
     Ret (file_url fileName))
    (fun error =>
       console Err ("Error uploading file to S3: " ++ error) >>
       Throw "Failed to upload file to cloud storage").

Definition uploadProcessedModel (filePath modelId format : string) : Async string :=
  try_catch
    (let* n := draw_nanoid E 8 in
     let fileName := "models/" ++ modelId ++ "/processed/" ++ n ++ "." ++ format in
     let* fileBuffer := fs_readFile E filePath in
     s3_put fileName (if String.eqb format "glb" then "model/gltf-binary"
                      else "model/vnd.usdz+zip") >>
     Ret (file_url fileName))
    (fun error =>
       console Err ("Error uploading processed model to S3: " ++ error) >>
       Throw ("Failed to upload processed " ++ Node.toUpperCase format ++ " file")).

(** The placeholder: an SVG drawn in the process and encoded by sharp. *)
Definition createPlaceholderThumbnail (width height : Z) (format : string)
  : Async string :=
  io (fun w => (emit (Sharp width height format) w,
                match sharp_toBuffer E width height format with
                | Some buffer => Ok buffer
                | None => Error "Input buffer contains unsupported image format"
                end)).

Definition generateThumbnail (modelPath modelId : string) (options : ThumbnailOptions)
  : Async string :=
  try_catch
    (let width := default 400 (width options) in
     let height := default 400 (height options) in
     let format := default "jpeg" (format options) in
     let* placeholderBuffer := createPlaceholderThumbnail width height format in
     let fileName := "models/" ++ modelId ++ "/thumbnail." ++ format in
     s3_put fileName ("image/" ++ format) >>
     Ret (file_url fileName))
    (fun error =>
       console Err ("Error generating thumbnail: " ++ error) >>
       Throw "Failed to generate model thumbnail").

End FileUploadService.
End FileUploadService.

(** ** [ModelConversionService] (server/services/stripe-service.ts, lines 870-1393) *)

Module ModelConversionService.
Section ModelConversionService.
Context (E : Env).

Definition tempDir : string := Node.or_default (TEMP_DIR E) "/tmp/nexora-conversion".
Definition blenderPath : string := Node.or_default (BLENDER_PATH E) "blender".

Definition lines (l : list string) : string :=
  foldr (fun x acc => x ++ Node.nl ++ acc) EmptyString l.

(** [runCommand]: rejects when the process reports an error. *)
Definition runCommand (command cwd : string) : Async string :=
  let* r := child_exec E command cwd in
  if exit_ok r then Ret (stdout r)
  else Throw ("Command failed: " ++ failure r ++ Node.nl ++ "Stderr: " ++ stderr r).

(** [updateJobLogs]: the entry is pushed on the job, printed, and the
    logs are written to the model; a failed write is only warned about. *)
Definition updateJobLogs (job : nat) (message : string) : Async unit :=
  let* d := new_Date in
  let timestamp := toISOString E d in
  let logEntry := "[" ++ timestamp ++ "] " ++ message in
  assign job (Job.push_log logEntry) >>
  let* j := read_job job in
  console Log ("[Job " ++ Job.id j ++ "] " ++ message) >>
  try_catch
    (ignore (Storage.updateModel E (Job.modelId j) (logs_only (Job.logs j))))
    (fun error => console Warn ("Failed to update processing logs: " ++ error)).

(** [cleanup]: the work directory is removed; a failure is only warned
    about. *)
Definition cleanup (workDir : string) : Async unit :=
  try_catch (fs_rm E workDir)
            (fun error => console Warn ("Failed to cleanup work directory: " ++ error)).

Definition gltfPipelineCommand (input output : string) : string :=
  "gltf-pipeline -i " ++ Node.quoted input ++ " -o " ++ Node.quoted output.

Definition blenderCommand (scriptPath : string) : string :=
  Node.quoted blenderPath ++ " --background --python " ++ Node.quoted scriptPath.

(** [processGLTF]: a [.glb] input is copied, anything else goes through
    gltf-pipeline. *)
Definition processGLTF (job : nat) (workDir : string) : Async string :=
  let outputPath := Node.path_join workDir "model.glb" in
  let* j := read_job job in
  (if String.eqb (Node.extname (Job.inputFile j)) ".glb"
   then fs_copyFile E (Job.inputFile j) outputPath
   else ignore (runCommand (gltfPipelineCommand (Job.inputFile j) outputPath) workDir)) >>
  Ret outputPath.

(** The Blender script of the two converters: [importer] is
    [import_scene.fbx] or [import_scene.obj], [what] names the format
    in the comment. *)
Definition convertScript (what importer input outputPath : string) : string :=
  lines [ EmptyString;
          "import bpy";
          "import sys";
          EmptyString;
          "# Clear existing mesh objects";
          "bpy.ops.object.select_all(action='SELECT')";
          "bpy.ops.object.delete(use_global=False)";
          EmptyString;
          "# Import " ++ what;
          "bpy.ops." ++ importer ++ "(filepath=" ++ Node.quoted input ++ ")";
          EmptyString;
          "# Export as GLB";
          "bpy.ops.export_scene.gltf(";
          "    filepath=" ++ Node.quoted outputPath ++ ",";
          "    export_format='GLB',";
          "    export_materials='EXPORT',";
          "    export_cameras=False,";
          "    export_lights=False";
          ")";
          EmptyString;
          "sys.exit(0)" ].

Definition convertFBXtoGLB (job : nat) (workDir : string) : Async string :=
  let outputPath := Node.path_join workDir "model.glb" in
  let* j := read_job job in
  let blenderScript := convertScript "FBX" "import_scene.fbx" (Job.inputFile j) outputPath in
  let scriptPath := Node.path_join workDir "convert.py" in
  fs_writeFile E scriptPath blenderScript >>
  updateJobLogs job "Converting FBX to GLB..." >>
  runCommand (blenderCommand scriptPath) workDir >>
  Ret outputPath.

Definition convertOBJtoGLB (job : nat) (workDir : string) : Async string :=
  let outputPath := Node.path_join workDir "model.glb" in
  let* j := read_job job in
  let blenderScript := convertScript "OBJ" "import_scene.obj" (Job.inputFile j) outputPath in
  let scriptPath := Node.path_join workDir "convert.py" in
  fs_writeFile E scriptPath blenderScript >>
  updateJobLogs job "Converting OBJ to GLB..." >>
  runCommand (blenderCommand scriptPath) workDir >>
  Ret outputPath.

Definition optimizeCommand (glbPath optimizedPath : string) : string :=
  "gltf-pipeline -i " ++ Node.quoted glbPath ++ " -o " ++ Node.quoted optimizedPath
  ++ " --draco.compressionLevel 10 --draco.quantizePositionBits 12".

(** [optimizeForWebAR]: the optimised file, or the file it was given
    when the tool fails. *)
Definition optimizeForWebAR (glbPath workDir : string) : Async string :=
  let optimizedPath := Node.path_join workDir "optimized.glb" in
  let command := optimizeCommand glbPath optimizedPath in
  try_catch
    (runCommand command workDir >> Ret optimizedPath)
    (fun error =>
       console Warn ("Optimization failed, using original file: " ++ error) >>
       Ret glbPath).

Definition usdzCommand (glbPath usdzPath : string) : string :=
  "usd_from_gltf " ++ Node.quoted glbPath ++ " " ++ Node.quoted usdzPath.

(** [generateUSDZ]: when the tool fails, a placeholder is written at the
    path that is returned. *)
Definition generateUSDZ (glbPath workDir : string) : Async string :=
  let usdzPath := Node.path_join workDir "model.usdz" in
  let command := usdzCommand glbPath usdzPath in
  try_catch
    (ignore (runCommand command workDir))
    (fun error =>
       console Warn ("USDZ generation failed, creating placeholder: " ++ error) >>
       fs_writeFile E usdzPath "placeholder usdz content") >>
  Ret usdzPath.

Definition thumbnailScript (glbPath thumbnailPath : string) : string :=
  lines [ EmptyString;
          "import bpy";
          "import sys";
          "import os";
          EmptyString;
          "# Clear scene";
          "bpy.ops.object.select_all(action='SELECT')";
          "bpy.ops.object.delete(use_global=False)";
          EmptyString;
          "# Import GLB";
          "bpy.ops.import_scene.gltf(filepath=" ++ Node.quoted glbPath ++ ")";
          EmptyString;
          "# Set up camera and lighting for thumbnail";
          "bpy.ops.object.camera_add(location=(7.36, -6.93, 4.96))";
          "camera = bpy.context.object";
          "camera.rotation_euler = (1.1, 0, 0.785)";
          EmptyString;
          "# Add lighting";
          "bpy.ops.object.light_add(type='SUN', location=(4, 4, 8))";
          "sun = bpy.context.object";
          "sun.data.energy = 5";
          EmptyString;
          "# Set render settings";
          "scene = bpy.context.scene";
          "scene.camera = camera";
          "scene.render.filepath = " ++ Node.quoted thumbnailPath;
          "scene.render.image_settings.file_format = 'JPEG'";
          "scene.render.resolution_x = 400";
          "scene.render.resolution_y = 400";
          EmptyString;
          "# Render";
          "bpy.ops.render.render(write_still=True)";
          EmptyString;
          "sys.exit(0)" ].

(** [generateThumbnail]: Blender renders to [thumbnail.jpg]; when it
    fails, the placeholder of [FileUploadService.generateThumbnail] is
    made (and uploaded under the empty model id), its URL is dropped,
    and the path of [thumbnail.jpg] is returned all the same. *)
Definition generateThumbnail (glbPath workDir : string) : Async string :=
  let thumbnailPath := Node.path_join workDir "thumbnail.jpg" in
  let blenderScript := thumbnailScript glbPath thumbnailPath in
  let scriptPath := Node.path_join workDir "thumbnail.py" in
  fs_writeFile E scriptPath blenderScript >>
  try_catch
    (ignore (runCommand (blenderCommand scriptPath) workDir))
    (fun error =>
       console Warn ("Thumbnail generation failed, using placeholder: " ++ error) >>
       ignore (FileUploadService.generateThumbnail E EmptyString EmptyString no_options)) >>
  Ret thumbnailPath.

(** [analyzeModel]: the size of the file and fixed counts, or nothing
    when the file cannot be read. *)
Definition analyzeModel (glbPath : string) : Async Model.Metadata :=
  try_catch
    (let* size := fs_stat E glbPath in
     Ret {| Model.fileSize := Some size;
            Model.vertices := Some 12400;
            Model.triangles := Some 24800;
            Model.textures := Some 4;
            Model.format := Some "GLB";
            Model.optimized := Some true |})
    (fun error =>
       console Err ("Failed to analyze model: " ++ error) >>
       Ret Model.empty_metadata).

Definition arUrl (shortLink : string) : string :=
  Node.or_default (BASE_URL E) "https://nexora.app" ++ "/ar/" ++ shortLink.

Definition qrUrl (shortLink : string) : string :=
  "https://cdn.nexora.app/qr/" ++ shortLink ++ ".png".

(** [generateQRCode]: the code of the AR link is drawn and written under
    the temporary directory; the URL it would have once uploaded is
    returned, or the empty string when anything fails. *)
Definition generateQRCode (shortLink : string) : Async string :=
  try_catch
    (let* qrBuffer :=
       io (fun w => (emit (QRCode (arUrl shortLink)) w,
                     match qrcode_toBuffer E (arUrl shortLink) with
                     | Some b => Ok b
                     | None => Error "QR code generation failed"
                     end)) in
     let qrPath := Node.path_join tempDir ("qr-" ++ shortLink ++ ".png") in
     fs_writeFile E qrPath qrBuffer >>
     Ret (qrUrl shortLink))
    (fun error =>
       console Err ("Failed to generate QR code: " ++ error) >>
       Ret EmptyString).

(** The [switch] on the lower-cased extension. *)
Definition convert (inputExt : string) (job : nat) (workDir : string) : Async string :=
  if String.eqb inputExt ".glb" then processGLTF job workDir
  else if String.eqb inputExt ".gltf" then processGLTF job workDir
  else if String.eqb inputExt ".fbx" then convertFBXtoGLB job workDir
  else if String.eqb inputExt ".obj" then convertOBJtoGLB job workDir
  else Throw ("Unsupported file format: " ++ inputExt).

(** [Promise.all] of the three uploads.  The three are started in this
    order and all of them run; the one schedule taken here lets each
    finish before the next, and the first rejection in this order is
    the one thrown. *)
Definition uploadAll (optimizedGlbPath usdzPath thumbnailPath modelId : string)
  : Async (string * string * string) :=
  let* g := settle (FileUploadService.uploadProcessedModel E optimizedGlbPath modelId "glb") in
  let* u := settle (FileUploadService.uploadProcessedModel E usdzPath modelId "usdz") in
  let* t := settle (FileUploadService.uploadProcessedModel E thumbnailPath modelId "jpg") in
  let* glbUrl := of_result g in
  let* usdzUrl := of_result u in
  let* thumbnailUrl := of_result t in
  Ret (glbUrl, usdzUrl, thumbnailUrl).

Definition final_patch (glbUrl usdzUrl thumbnailUrl shortLink qrCodeUrl : string)
    (metadata : Model.Metadata) (logs : list string) : Model.Patch :=
  {| Model.p_originalFileUrl := None;
     Model.p_glbFileUrl := Some glbUrl;
     Model.p_usdzFileUrl := Some usdzUrl;
     Model.p_thumbnailUrl := Some thumbnailUrl;
     Model.p_status := Some Model.complete;
     Model.p_processingLogs := Some logs;
     Model.p_shortLink := Some shortLink;
     Model.p_qrCodeUrl := Some qrCodeUrl;
     Model.p_metadata := Some metadata |}.

(** The [try] block of [processConversion]. *)
Definition conversion (job : nat) : Async unit :=
  assign job (Job.set_status Job.processing) >>
  updateJobLogs job "Starting conversion process..." >>
  let* j := read_job job in
  let inputExt := Node.toLowerCase (Node.extname (Job.inputFile j)) in
  let workDir := Node.path_join tempDir (Job.id j) in
  fs_mkdir E workDir >>
  let* glbPath := convert inputExt job workDir in
  updateJobLogs job "Analyzing model..." >>
  let* metadata := analyzeModel glbPath in
  updateJobLogs job "Optimizing for WebAR..." >>
  let* optimizedGlbPath := optimizeForWebAR glbPath workDir in
  updateJobLogs job "Generating USDZ for iOS..." >>
  let* usdzPath := generateUSDZ optimizedGlbPath workDir in
  updateJobLogs job "Creating thumbnail..." >>
  let* thumbnailPath := generateThumbnail optimizedGlbPath workDir in
  updateJobLogs job "Uploading processed files..." >>
  let* urls := uploadAll optimizedGlbPath usdzPath thumbnailPath (Job.modelId j) in
  let '(glbUrl, usdzUrl, thumbnailUrl) := urls in
  assign job (Job.set_outputFiles
                {| Job.glb := Some glbUrl; Job.usdz := Some usdzUrl;
                   Job.thumbnail := Some thumbnailUrl |}) >>
  updateJobLogs job "Generating WebAR link..." >>
  let* shortLink := draw_nanoid E 8 in
  let* qrCodeUrl := generateQRCode shortLink in
  let* j1 := read_job job in
  Storage.updateModel E (Job.modelId j)
    (final_patch glbUrl usdzUrl thumbnailUrl shortLink qrCodeUrl metadata (Job.logs j1)) >>
  assign job (Job.set_status Job.complete) >>
  let* d := new_Date in
  assign job (Job.set_endTime d) >>
  updateJobLogs job "Conversion completed successfully!" >>
  cleanup workDir.

(** The [catch] block of [processConversion]. *)
Definition conversion_failed (job : nat) (error : string) : Async unit :=
  console Err ("Conversion failed: " ++ error) >>
  assign job (Job.set_status Job.failed) >>
  assign job (Job.set_error error) >>
  let* d := new_Date in
  assign job (Job.set_endTime d) >>
  let* j := read_job job in
  Storage.updateModel E (Job.modelId j)
    (status_and_logs Model.failed (Job.logs j ++ ["Error: " ++ error])) >>
  updateJobLogs job ("Conversion failed: " ++ error).

Definition processConversion (job : nat) : Async unit :=
  try_catch (conversion job) (conversion_failed job).

(** The [catch] block of [convertModel]. *)
Definition conversion_not_started (job : nat) (modelId error : string) : Async string :=
  console Err ("Error starting conversion: " ++ error) >>
  assign job (Job.set_status Job.failed) >>
  assign job (Job.set_error error) >>
  let* j := read_job job in
  Storage.updateModel E modelId
    (status_and_logs Model.failed [default EmptyString (Job.error j)]) >>
  Throw error.

(** [convertModel]: the job is made and registered, the model is marked
    as processing, and the conversion is started without being awaited. *)
Definition convertModel (modelId inputFilePath : string) : Async string :=
  let* jobId := draw_nanoid E 12 in
  let* d := new_Date in
  let* job := sync (fun w =>
    (set_heap (heap w ++ [ {| Job.id := jobId; Job.modelId := modelId;
                              Job.status := Job.pending;
                              Job.inputFile := inputFilePath;
                              Job.outputFiles := Job.no_outputs; Job.logs := [];
                              Job.startTime := d; Job.endTime := None;
                              Job.error := None; Job.metadata := None |} ]) w,
     List.length (heap w))) in
  act (fun w => set_jobs (<[jobId := job]> (jobs w)) w) >>
  try_catch
    (Storage.updateModel E modelId
       (status_and_logs Model.processing ["Conversion started..."]) >>
     Spawn (processConversion job) (Ret jobId))
    (conversion_not_started job modelId).

(** [cancelJob]: a registered job that is processing is marked failed. *)
Definition cancelJob (jobId : string) : Async unit :=
  let* found := sync (fun w => (w, jobs w !! jobId)) in
  match found with
  | Some job =>
      let* j := read_job job in
      match Job.status j with
      | Job.processing =>
          assign job (Job.set_status Job.failed) >>
          assign job (Job.set_error "Job cancelled by user") >>
          let* d := new_Date in
          assign job (Job.set_endTime d) >>
          let* j1 := read_job job in
          ignore (Storage.updateModel E (Job.modelId j1)
                    (status_and_logs Model.failed (Job.logs j1 ++ ["Job cancelled by user"])))
      | _ => Ret tt
      end
  | None => Ret tt
  end.

End ModelConversionService.

(** [job.endTime && job.endTime < cutoff] *)
Definition expired (cutoff : Z) (j : Job.t) : bool :=
  match Job.endTime j with
  | Some t => t <? cutoff
  | None => false
  end.

(** [cleanupOldJobs]: every entry of the registry whose job ended more
    than 24 hours ago is deleted. *)
Definition cleanupOldJobs (w : World) : World :=
  let cutoff := now w - 24 * 60 * 60 * 1000 in
  set_jobs
    (foldl (fun registry '(jobId, job) =>
              if expired cutoff (job_at w job) then delete jobId registry
              else registry)
           (jobs w) (map_to_list (jobs w)))
    w.

End ModelConversionService.

(** ** The upload route (server/routes.ts, POST /api/models/upload) *)

Module Routes.

(** The fields of the request body the insert schema requires. *)
Record UploadBody := {
  name : option string;
  projectId : option string
}.

Inductive Body :=
| ModelJson (model : Model.t)
| MessageJson (message : string).

Inductive Response := Json (status : Z) (body : Body).

Section Routes.
Context (E : Env).

(** [insertArModelSchema.parse] of the body with the status and the
    short link the route sets: the required columns must be there.  Of
    the body only these two columns are kept here; the [JSON.parse] of
    the allergen tags and the other checks of the schema (lengths, the
    UUID of the project) can only make the route refuse more requests,
    with the same answer. *)
Definition parse (body : UploadBody) (status : Model.Status) (shortLink : string)
  : Async Model.Insert :=
  match name body, projectId body with
  | Some n, Some p =>
      Ret {| Model.i_name := n; Model.i_projectId := p; Model.i_status := status;
             Model.i_shortLink := shortLink |}
  | _, _ => Throw "ZodError: Required"
  end.

Definition upload (file : option MulterFile) (body : UploadBody) : Async Response :=
  try_catch
    (match file with
     | None => Ret (Json 400 (MessageJson "No file uploaded"))
     | Some f =>
         let* shortLink := draw_nanoid E 8 in
         let* modelData := parse body Model.uploading shortLink in
         let* model := Storage.createArModel E modelData in
         let* fileUrl := FileUploadService.uploadFile E f (Model.id model) in
         Storage.updateModel E (Model.id model)
           {| Model.p_originalFileUrl := Some fileUrl; Model.p_glbFileUrl := None;
              Model.p_usdzFileUrl := None; Model.p_thumbnailUrl := None;
              Model.p_status := Some Model.processing;
              Model.p_processingLogs := None; Model.p_shortLink := None;
              Model.p_qrCodeUrl := None; Model.p_metadata := None |} >>
         Spawn (ignore (ModelConversionService.convertModel E (Model.id model) (path f)))
               (Ret (Json 200 (ModelJson model)))
     end)
    (fun error =>
       console Err ("Error uploading model: " ++ error) >>
       Ret (Json 400 (MessageJson "Failed to upload model"))).

End Routes.
End Routes.

(** ** The process: tasks taking turns on one world *)

Record System := {
  world : World;
  pool : list (Async unit)
}.

(** What can happen next: a request comes in, the hourly timer fires, a
    suspended task goes on, time passes. *)
Inductive Event :=
| Upload (file : option MulterFile) (body : Routes.UploadBody)
| Convert (modelId inputFilePath : string)
| Cancel (jobId : string)
| Sweep
| Resume (i : nat)
| Tick (dt : Z).

Definition start (t : Async unit) (s : System) : System :=
  let '(w, p, t') := resume t (world s) (pool s) in
  {| world := w; pool := keep t' p |}.

Definition step (E : Env) (s : System) (ev : Event) : System :=
  match ev with
  | Upload f b => start (ignore (Routes.upload E f b)) s
  | Convert m p => start (ignore (ModelConversionService.convertModel E m p)) s
  | Cancel j => start (ModelConversionService.cancelJob E j) s
  | Sweep => {| world := ModelConversionService.cleanupOldJobs (world s); pool := pool s |}
  | Resume i =>
      match pool s !! i with
      | Some (Await k) =>
          let '(w, p, t') := resume k (world s) (delete i (pool s)) in
          {| world := w; pool := keep t' p |}
      | _ => s
      end
  | Tick dt => {| world := set_now (now (world s) + Z.max 0 dt) (world s); pool := pool s |}
  end.

Definition steps (E : Env) (s : System) (evs : list Event) : System :=
  foldl (step E) s evs.

(** Let the suspended tasks go on, the first one first, [n] times. *)
Definition drain (E : Env) (n : nat) (s : System) : System :=
  steps E s (replicate n (Resume 0)).

Definition boot (w : World) : System := {| world := w; pool := [] |}.

(** ** A fixture: well-behaved surroundings with switchable tools *)

Module Fixture.

Definition alphabet : string :=
  "ABCDEFGHIJKLMNOPQRSTUVWXYZabcdefghijklmnopqrstuvwxyz0123456789_-".

Definition letter (n : nat) : ascii :=
  match get (n mod 64) alphabet with Some c => c | None => "A"%char end.

Fixpoint repeat_char (c : ascii) (size : nat) : string :=
  match size with
  | O => EmptyString
  | S k => String c (repeat_char c k)
  end.

(** The n-th identifier: [size] times the n-th letter of the alphabet
    of nanoid. *)
Definition ident (size n : nat) : string := repeat_char (letter n) size.

Definition contains (pat s : string) : bool :=
  match index 0 pat s with Some _ => true | None => false end.

(** Which tools work. *)
Record Tools := {
  gltf_pipeline : bool;
  blender_convert : bool;
  optimizer : bool;
  usd_from_gltf : bool;
  blender_render : bool
}.

Definition all_tools : Tools :=
  {| gltf_pipeline := true; blender_convert := true; optimizer := true;
     usd_from_gltf := true; blender_render := true |}.

Definition ran (ok : bool) (out : string) : ExecResult :=
  if ok then
    {| exit_ok := true; stdout := EmptyString; failure := EmptyString;
       stderr := EmptyString; written := [(out, "binary")] |}
  else
    {| exit_ok := false; stdout := EmptyString; failure := "command not found";
       stderr := EmptyString; written := [] |}.

(** A tool that works writes the file it is asked for; one that does
    not writes nothing. *)
Definition tool (t : Tools) (command cwd : string) : ExecResult :=
  if contains "--draco" command then
    ran (optimizer t) (Node.path_join cwd "optimized.glb")
  else if String.prefix "gltf-pipeline" command then
    ran (gltf_pipeline t) (Node.path_join cwd "model.glb")
  else if String.prefix "usd_from_gltf" command then
    ran (usd_from_gltf t) (Node.path_join cwd "model.usdz")
  else if contains "thumbnail.py" command then
    ran (blender_render t) (Node.path_join cwd "thumbnail.jpg")
  else
    ran (blender_convert t) (Node.path_join cwd "model.glb").

Definition env (t : Tools) : Env :=
  {| TEMP_DIR := None; BLENDER_PATH := None; BASE_URL := None;
     S3_BUCKET_NAME := None; CLOUDFRONT_DOMAIN := None;
     nanoid := ident;
     gen_random_uuid := fun n => "3b241101-e2bb-4255-8caf-" ++ ident 12 n;
     toISOString := fun _ => "2024-05-01T12:00:00.000Z";
     exec := tool t;
     fs_error := fun _ => None;
     s3_error := fun _ => None;
     db_error := fun _ => None;
     qrcode_toBuffer := fun url => Some ("PNG " ++ url);
     sharp_toBuffer := fun _ _ _ => Some "JPEG" |}.

End Fixture.

(** ** Reasoning about runs *)

#[global] Instance Level_eq_dec : EqDecision Level.
Proof. solve_decision. Defined.
#[global] Instance FsOp_eq_dec : EqDecision FsOp.
Proof. solve_decision. Defined.
#[global] Instance Model_Status_eq_dec : EqDecision Model.Status.
Proof. solve_decision. Defined.
#[global] Instance Model_Metadata_eq_dec : EqDecision Model.Metadata.
Proof. solve_decision. Defined.
#[global] Instance Model_Patch_eq_dec : EqDecision Model.Patch.
Proof. solve_decision. Defined.
#[global] Instance Model_Insert_eq_dec : EqDecision Model.Insert.
Proof. solve_decision. Defined.
#[global] Instance DbOp_eq_dec : EqDecision DbOp.
Proof. solve_decision. Defined.
#[global] Instance Effect_eq_dec : EqDecision Effect.
Proof. solve_decision. Defined.
#[global] Instance Job_Status_eq_dec : EqDecision Job.Status.
Proof. solve_decision. Defined.

(** The world and the result of a run that starts with an empty pool. *)
Definition world_after {A} (m : Async A) (w : World) : World := (run m w []).1.1.
Definition result_of {A} (m : Async A) (w : World) : Result A := (run m w []).2.

(** [spec m w Q]: run from [w], [m] spawns nothing and ends in a world
    and with a result that satisfy [Q]. *)
Definition spec {A} (m : Async A) (w : World) (Q : World -> Result A -> Prop) : Prop :=
  forall p, exists w' r, run m w p = (w', p, r) /\ Q w' r.

(** The fields of a job other than its logs. *)
Definition same_job (j j' : Job.t) : Prop :=
  Job.id j' = Job.id j /\ Job.modelId j' = Job.modelId j
  /\ Job.status j' = Job.status j /\ Job.inputFile j' = Job.inputFile j
  /\ Job.outputFiles j' = Job.outputFiles j /\ Job.startTime j' = Job.startTime j
  /\ Job.endTime j' = Job.endTime j /\ Job.error j' = Job.error j
  /\ Job.metadata j' = Job.metadata j.

(** The fields of a job that never change. *)
Definition same_identity (j j' : Job.t) : Prop :=
  Job.id j' = Job.id j /\ Job.modelId j' = Job.modelId j
  /\ Job.inputFile j' = Job.inputFile j.

(** The columns of a row other than its logs and its update time. *)
Definition same_model (m m' : Model.t) : Prop :=
  Model.id m' = Model.id m /\ Model.name m' = Model.name m
  /\ Model.projectId m' = Model.projectId m
  /\ Model.originalFileUrl m' = Model.originalFileUrl m
  /\ Model.glbFileUrl m' = Model.glbFileUrl m
  /\ Model.usdzFileUrl m' = Model.usdzFileUrl m
  /\ Model.thumbnailUrl m' = Model.thumbnailUrl m
  /\ Model.status m' = Model.status m
  /\ Model.shortLink m' = Model.shortLink m
  /\ Model.qrCodeUrl m' = Model.qrCodeUrl m
  /\ Model.metadata m' = Model.metadata m.

(** What a stage leaves alone: the registry, the clock, the other jobs,
    every field of its job but the logs, every column of every row but
    the logs and the update time; and what it adds to the trace
    satisfies [P]. *)
Record frame (P : Effect -> bool) (job : nat) (w w' : World) : Prop := {
  fr_jobs : jobs w' = jobs w;
  fr_now : now w' = now w;
  fr_length : List.length (heap w') = List.length (heap w);
  fr_others : forall r, r <> job -> heap w' !! r = heap w !! r;
  fr_job : same_job (job_at w job) (job_at w' job);
  fr_draws : (draws w <= draws w')%nat;
  fr_models : forall k, option_Forall2 same_model (models w !! k) (models w' !! k);
  fr_trace : exists d, trace w' = (trace w ++ d)%list /\ forallb P d = true
}.

Definition framed {A} (P : Effect -> bool) (job : nat) (m : Async A) : Prop :=
  forall w, spec m w (fun w' _ => frame P job w w').

(** The events seen since [w0] contain [l], in this order. *)
Definition after (w0 : World) (l : list Effect) (w : World) : Prop :=
  exists d, trace w = (trace w0 ++ d)%list /\ sublist l d.

Definition no_select (ev : Effect) : bool :=
  match ev with Db (SelectModelByShortLink _) => false | _ => true end.

Definition no_exec (ev : Effect) : bool :=
  match ev with Exec _ _ => false | _ => true end.

Definition any_effect (ev : Effect) : bool := true.

Definition is_ok {A} (r : Result A) : Prop :=
  match r with Ok _ => True | Error _ => False end.

(** The trace of [w'] is the trace of [w], then [evs], then more. *)
Definition extends (w : World) (evs : list Effect) (w' : World) : Prop :=
  exists t, trace w' = (trace w ++ evs ++ t)%list.

(** The key an upload of a processed file gets when its identifier is the
    k-th one drawn, and the content type it is stored with. *)
Definition processedKey (E : Env) (modelId : string) (k : nat) (format : string) : string :=
  "models/" ++ modelId ++ "/processed/" ++ nanoid E 8 k ++ "." ++ format.

Definition contentType (format : string) : string :=
  if String.eqb format "glb" then "model/gltf-binary" else "model/vnd.usdz+zip".

(** Progress of the whole service: the registry, the clock and the number
    of job objects stay, and what is added to the trace satisfies [P]. *)
Record progress (P : Effect -> bool) (w w' : World) : Prop := {
  pg_jobs : jobs w' = jobs w;
  pg_now : now w' = now w;
  pg_length : List.length (heap w') = List.length (heap w);
  pg_draws : (draws w <= draws w')%nat;
  pg_trace : exists d, trace w' = (trace w ++ d)%list /\ forallb P d = true
}.

(** [w'] is [w] after some progress, and the job is [j] but for its logs. *)
Definition track (P : Effect -> bool) (job : nat) (j : Job.t) (w w' : World) : Prop :=
  progress P w w' /\ (job < List.length (heap w'))%nat /\ same_job j (job_at w' job).

Definition rows_kept (w w' : World) : Prop :=
  forall k, option_Forall2 same_model (models w !! k) (models w' !! k).

(** The files of a job, as [processConversion] names them. *)
Definition workDir (E : Env) (j : Job.t) : string :=
  Node.path_join (ModelConversionService.tempDir E) (Job.id j).
Definition glbPath (E : Env) (j : Job.t) : string :=
  Node.path_join (workDir E j) "model.glb".
Definition optimizedPath (E : Env) (j : Job.t) : string :=
  Node.path_join (workDir E j) "optimized.glb".
Definition usdzPath (E : Env) (j : Job.t) : string :=
  Node.path_join (workDir E j) "model.usdz".
Definition thumbnailPath (E : Env) (j : Job.t) : string :=
  Node.path_join (workDir E j) "thumbnail.jpg".
Definition thumbnailScriptPath (E : Env) (j : Job.t) : string :=
  Node.path_join (workDir E j) "thumbnail.py".
Definition processedUrl (E : Env) (j : Job.t) (k : nat) (format : string) : string :=
  FileUploadService.file_url E (processedKey E (Job.modelId j) k format).

Import ModelConversionService.

(** The event by which the input of a job becomes its canonical GLB: the
    copy of a [.glb] file, a run of gltf-pipeline, or the Blender run of
    the FBX and OBJ converters. *)
Definition converts (E : Env) (j : Job.t) (ev : Effect) : Prop :=
  ev = Fs (CopyFile (Job.inputFile j) (glbPath E j))
  \/ ev = Exec (gltfPipelineCommand (Job.inputFile j) (glbPath E j)) (workDir E j)
  \/ ev = Exec (blenderCommand E (Node.path_join (workDir E j) "convert.py")) (workDir E j).

(** What a conversion that ran to its end has done to the job of [w] at
    [job]: [opt] is the file that was published as GLB, [k] and [ks] are
    the draws of the first upload key and of the short link, [qr] is the
    QR code URL that was persisted. *)
Record completed (E : Env) (job : nat) (w w' : World)
    (opt : string) (k ks : nat) (qr : string) : Prop := {
  c_status : Job.status (job_at w' job) = Job.complete;
  c_endTime : Job.endTime (job_at w' job) = Some (now w);
  c_outputs :
    Job.outputFiles (job_at w' job)
    = {| Job.glb := Some (processedUrl E (job_at w job) k "glb");
         Job.usdz := Some (processedUrl E (job_at w job) (S k) "usdz");
         Job.thumbnail := Some (processedUrl E (job_at w job) (S (S k)) "jpg") |};
  c_opt : opt = glbPath E (job_at w job) \/ opt = optimizedPath E (job_at w job);
  c_unoptimized :
    exit_ok (exec E (optimizeCommand (glbPath E (job_at w job))
                                     (optimizedPath E (job_at w job)))
                    (workDir E (job_at w job))) = false ->
    opt = glbPath E (job_at w job);
  c_draws : (draws w <= k)%nat /\ (k + 3 <= ks)%nat /\ (ks < draws w')%nat;
  c_qr : qr = EmptyString \/ qr = qrUrl (nanoid E 8 ks);
  c_trace :
    exists conv md logs,
    converts E (job_at w job) conv /\
    after w [ conv;
              Fs (Stat (glbPath E (job_at w job)));
              Exec (optimizeCommand (glbPath E (job_at w job))
                                    (optimizedPath E (job_at w job)))
                   (workDir E (job_at w job));
              Exec (usdzCommand opt (usdzPath E (job_at w job)))
                   (workDir E (job_at w job));
              Fs (WriteFile (thumbnailScriptPath E (job_at w job))
                    (thumbnailScript opt (thumbnailPath E (job_at w job))));
              Exec (blenderCommand E (thumbnailScriptPath E (job_at w job)))
                   (workDir E (job_at w job));
              Fs (ReadFile opt);
              S3Put (processedKey E (Job.modelId (job_at w job)) k "glb")
                    "model/gltf-binary";
              QRCode (arUrl E (nanoid E 8 ks));
              Db (UpdateModel (Job.modelId (job_at w job))
                    (final_patch (processedUrl E (job_at w job) k "glb")
                                 (processedUrl E (job_at w job) (S k) "usdz")
                                 (processedUrl E (job_at w job) (S (S k)) "jpg")
                                 (nanoid E 8 ks) qr md logs));
              Fs (Rm (workDir E (job_at w job))) ] w';
  c_row : forall m0, models w !! Job.modelId (job_at w job) = Some m0 ->
    exists m', models w' !! Job.modelId (job_at w job) = Some m'
      /\ Model.shortLink m' = Some (nanoid E 8 ks)
      /\ Model.qrCodeUrl m' = Some qr
      /\ Model.status m' = Model.complete
      /\ Model.glbFileUrl m' = Some (processedUrl E (job_at w job) k "glb")
      /\ Model.usdzFileUrl m' = Some (processedUrl E (job_at w job) (S k) "usdz")
      /\ Model.thumbnailUrl m' = Some (processedUrl E (job_at w job) (S (S k)) "jpg");
  c_unique : forall m0, models w !! Job.modelId (job_at w job) = Some m0 ->
    forall key m, key <> Job.modelId (job_at w job) -> models w' !! key = Some m ->
                  Model.shortLink m <> Some (nanoid E 8 ks)
}.

(** Let the tasks of a pool run to their end, one after the other. *)
Definition settled (w : World) (pool : list (Async unit)) : World :=
  foldl (fun w t => world_after t w) w pool.

(** The job object [convertModel] makes. *)
Definition new_job (jobId modelId inputFilePath : string) (d : Z) : Job.t :=
  {| Job.id := jobId; Job.modelId := modelId; Job.status := Job.pending;
     Job.inputFile := inputFilePath; Job.outputFiles := Job.no_outputs; Job.logs := [];
     Job.startTime := d; Job.endTime := None; Job.error := None; Job.metadata := None |}.

(** The first write of [convertModel]. *)
Definition started : Model.Patch :=
  status_and_logs Model.processing ["Conversion started..."].


(** The extensions the pipeline converts. *)
Definition supported (ext : string) : Prop :=
  ext = ".glb" \/ ext = ".gltf" \/ ext = ".fbx" \/ ext = ".obj".

Module Scenario.

Definition burger : Model.t :=
  Model.create "m1" 0
    {| Model.i_name := "Burger"; Model.i_projectId := "p1";
       Model.i_status := Model.processing; Model.i_shortLink := "Zk3_x9Qa" |}.

(** The store holds the model, the upload directory holds the file. *)
Definition uploaded (path content : string) : World :=
  set_files (<[path := File content]> ∅) (set_models (<["m1" := burger]> ∅) empty_world).

(** The same, with a pending job for the file at reference 0. *)
Definition pending (path content : string) : World :=
  set_jobs (<["V1StGXR8_Z5j" := 0%nat]> ∅)
    (set_heap [new_job "V1StGXR8_Z5j" "m1" path 0] (uploaded path content)).

Definition tools_but (gltf convert optimize usd render : bool) : Env :=
  Fixture.env {| Fixture.gltf_pipeline := gltf; Fixture.blender_convert := convert;
                 Fixture.optimizer := optimize; Fixture.usd_from_gltf := usd;
                 Fixture.blender_render := render |}.

Definition all_fine : Env := Fixture.env Fixture.all_tools.

End Scenario.

(** C1 as the specification states it: an unsupported extension makes
    the call fail and leaves the registry as it was. *)
Definition rejects_unsupported (E : Env) (w : World) (modelId path : string) : Prop :=
  ~ supported (Node.toLowerCase (Node.extname path)) ->
  (exists msg, (run (convertModel E modelId path) w []).2 = Error msg)
  /\ jobs (run (convertModel E modelId path) w []).1.1 = jobs w.

Definition is_rm (ev : Effect) : bool :=
  match ev with Fs (Rm _) => true | _ => false end.




Module Registry.

Definition hour : Z := 60 * 60 * 1000.

Definition ended (jobId : string) (t : option Z) : Job.t :=
  {| Job.id := jobId; Job.modelId := "m1";
     Job.status := match t with Some _ => Job.complete | None => Job.processing end;
     Job.inputFile := "/tmp/uploads/burger.glb"; Job.outputFiles := Job.no_outputs;
     Job.logs := []; Job.startTime := 0; Job.endTime := t; Job.error := None;
     Job.metadata := None |}.

(** Three jobs at hour 100: one ended 25 hours ago, one an hour ago, one
    still running. *)
Definition three_jobs : World :=
  set_now (100 * hour)
    (set_jobs (<["old" := 0%nat]> (<["recent" := 1%nat]> (<["running" := 2%nat]> ∅)))
       (set_heap [ended "old" (Some (75 * hour)); ended "recent" (Some (99 * hour));
                  ended "running" None] empty_world)).

End Registry.


Module Upload.

Definition file : MulterFile :=
  {| originalname := "burger.glb"; path := "/tmp/uploads/burger.glb";
     mimetype := "model/gltf-binary" |}.

Definition body : Routes.UploadBody :=
  {| Routes.name := Some "Burger"; Routes.projectId := Some "p1" |}.

(** Before the request: the file multer has stored. *)
Definition before : World :=
  set_files (<["/tmp/uploads/burger.glb" := File "glTF"]> ∅) empty_world.

(** The row the route answers with. *)
Definition answered : Model.t :=
  Model.create "3b241101-e2bb-4255-8caf-BBBBBBBBBBBB" 0
    {| Model.i_name := "Burger"; Model.i_projectId := "p1";
       Model.i_status := Model.uploading; Model.i_shortLink := "AAAAAAAA" |}.

(** Later: the row is in the store, the file is at hand, and a job for
    the model is pending. *)
Definition converting : World :=
  set_jobs (<["V1StGXR8_Z5j" := 0%nat]> ∅)
    (set_heap [new_job "V1StGXR8_Z5j" (Model.id answered) "/tmp/uploads/burger.glb" 0]
       (set_files (<["/tmp/uploads/burger.glb" := File "glTF"]> ∅)
          (set_models (<[Model.id answered := answered]> ∅) empty_world))).

End Upload.

(** A task that spawns nothing. *)
Fixpoint quiet {A : Type} (m : Async A) : Prop :=
  match m with
  | Ret _ | Throw _ => True
  | Prim op k => forall x, quiet (k x)
  | Await k => quiet k
  | Spawn _ _ => False
  end.

(** The suspension points a run of [m] from [w] goes through. *)
Fixpoint awaits {A : Type} (m : Async A) (w : World) : nat :=
  match m with
  | Ret _ | Throw _ => 0
  | Prim op k => let '(w', x) := op w in awaits (k x) w'
  | Await k => S (awaits k w)
  | Spawn _ k => awaits k w
  end.

(** ** Invariants of tasks *)

(** Every operation of a task takes a world to one that is related to
    it by [R]. *)
Fixpoint keeps {A : Type} (R : World -> World -> Prop) (m : Async A) : Prop :=
  match m with
  | Ret _ | Throw _ => True
  | Prim op k => (forall w, R w (op w).1) /\ forall x, keeps R (k x)
  | Await k => keeps R k
  | Spawn t k => keeps R t /\ keeps R k
  end.

(** What the pipeline of a job leaves alone: the registry, the clock,
    the number of job objects, and every job object but its own. *)
Record isolated (job : nat) (w w' : World) : Prop := {
  is_jobs : jobs w' = jobs w;
  is_now : now w' = now w;
  is_length : List.length (heap w') = List.length (heap w);
  is_others : forall r, r <> job -> heap w' !! r = heap w !! r
}.

(** What has been added to the trace satisfies [P]. *)
Definition traced (P : Effect -> bool) (w w' : World) : Prop :=
  exists d, trace w' = (trace w ++ d)%list /\ forallb P d = true.

(** The files are the same. *)
Definition same_files (w w' : World) : Prop := files w' = files w.


(** What no operation of the pipeline undoes: the number of job objects,
    the model a job is for, and the presence of a row in the store. *)
Record stable (job : nat) (w w' : World) : Prop := {
  st_length : List.length (heap w') = List.length (heap w);
  st_modelId : Job.modelId (job_at w' job) = Job.modelId (job_at w job);
  st_rows : forall k, is_Some (models w !! k) -> is_Some (models w' !! k)
}.

(** The logs of a job have only grown. *)
Definition logs_grow (job : nat) (w w' : World) : Prop :=
  Job.logs (job_at w job) `prefix_of` Job.logs (job_at w' job).

(** ** Fixtures and notions for the further properties *)

(** What [cancelJob] writes to the model of a job it cancels. *)
Definition cancelled (j : Job.t) : Model.Patch :=
  status_and_logs Model.failed (Job.logs j ++ ["Job cancelled by user"]).

(** The surroundings of [Scenario.all_fine], with a store that refuses
    every statement. *)
Definition store_down : Env :=
  {| TEMP_DIR := None; BLENDER_PATH := None; BASE_URL := None;
     S3_BUCKET_NAME := None; CLOUDFRONT_DOMAIN := None;
     nanoid := nanoid Scenario.all_fine;
     gen_random_uuid := gen_random_uuid Scenario.all_fine;
     toISOString := toISOString Scenario.all_fine;
     exec := exec Scenario.all_fine;
     fs_error := fun _ => None;
     s3_error := fun _ => None;
     db_error := fun _ => Some "connect ECONNREFUSED 127.0.0.1:5432";
     qrcode_toBuffer := qrcode_toBuffer Scenario.all_fine;
     sharp_toBuffer := sharp_toBuffer Scenario.all_fine |}.

(** The key an uploaded file is stored under when its identifier is the
    k-th one drawn. *)
Definition uploadKey (E : Env) (file : MulterFile) (modelId : string) (k : nat) : string :=
  "models/" ++ modelId ++ "/" ++ nanoid E 8 k ++ Node.extname (originalname file).

(** The work directory of a conversion of the burger, with its three
    artifacts. *)
Definition artifacts : World :=
  set_files (<["/tmp/nexora-conversion/V1StGXR8_Z5j/optimized.glb" := File "glTF"]>
            (<["/tmp/nexora-conversion/V1StGXR8_Z5j/model.usdz" := File "usdz"]>
            (<["/tmp/nexora-conversion/V1StGXR8_Z5j/thumbnail.jpg" := File "JFIF"]> ∅)))
    empty_world.

Definition no_put (ev : Effect) : bool :=
  match ev with S3Put _ _ => false | _ => true end.

(** What [analyzeModel] reports of a file of [size] bytes. *)
Definition analysis (size : Z) : Model.Metadata :=
  {| Model.fileSize := Some size; Model.vertices := Some 12400;
     Model.triangles := Some 24800; Model.textures := Some 4;
     Model.format := Some "GLB"; Model.optimized := Some true |}.

(** A conversion job whose input file is no longer there. *)
Definition lost_upload : World :=
  set_files ∅ (Scenario.pending "/tmp/uploads/burger.glb" "glTF").

Definition only_console (ev : Effect) : bool :=
  match ev with Console _ _ => true | _ => false end.

(** A request for the burger in a project, and the row the route answers
    it with. *)
Definition burger_request : Routes.UploadBody :=
  {| Routes.name := Some "Burger";
     Routes.projectId := Some "5f0c2a1e-3b7d-4c8e-9a41-2d6f8b1c7e90" |}.

Definition burger_answer : Model.t :=
  Model.create "3b241101-e2bb-4255-8caf-BBBBBBBBBBBB" 0
    {| Model.i_name := "Burger";
       Model.i_projectId := "5f0c2a1e-3b7d-4c8e-9a41-2d6f8b1c7e90";
       Model.i_status := Model.uploading; Model.i_shortLink := "AAAAAAAA" |}.

(** [literal] occurs in [text]. *)
Definition occurs (literal text : string) : Prop :=
  exists a b, text = a ++ literal ++ b.

(** ** [AnalyticsService] (server/services/stripe-service.ts, lines 430-869) *)

Module AnalyticsService.

(** [RegExp.prototype.test] for a pattern made of literal characters:
    whether the literal occurs somewhere in the text. *)
Fixpoint test (literal text : string) : bool :=
  String.prefix literal text
  || match text with
     | EmptyString => false
     | String _ rest => test literal rest
     end.

Inductive Device := ios | android | desktop.

(** [parseDevice]: [/iPad|iPhone|iPod/] first, then [/Android/]. *)
Definition parseDevice (userAgent : string) : Device :=
  if test "iPad" userAgent || test "iPhone" userAgent || test "iPod" userAgent then ios
  else if test "Android" userAgent then android
  else desktop.

(** The columns of an analytics event the breakdowns read. *)
Record AnalyticsEvent := {
  eventType : string;
  timestamp : Z
}.

(** An entry of [hourlyData]. *)
Record Counters := {
  views : Z;
  arLaunches : Z
}.

(** A row of the hourly breakdown. *)
Record HourRow := {
  hour : Z;
  h_views : Z;
  h_arLaunches : Z
}.

Section Hourly.
(** [new Date(t).getHours()]: the hour of a time in the time zone of the
    server. *)
Context (getHours : Z -> Z).

(** The body of [events.forEach] in [calculateHourlyBreakdown]. *)
Definition count_event (hourlyData : gmap Z Counters) (event : AnalyticsEvent)
  : gmap Z Counters :=
  let hour := getHours (timestamp event) in
  let hourlyData :=
    match hourlyData !! hour with
    | None => <[hour := {| views := 0; arLaunches := 0 |}]> hourlyData
    | Some _ => hourlyData
    end in
  if String.eqb (eventType event) "view" then
    alter (fun c => {| views := views c + 1; arLaunches := arLaunches c |}) hour hourlyData
  else if String.eqb (eventType event) "ar_launch" then
    alter (fun c => {| views := views c; arLaunches := arLaunches c + 1 |}) hour hourlyData
  else hourlyData.

(** [calculateHourlyBreakdown]: the events are counted by hour, and one
    row is made for each hour from 0 to 23. *)
Definition calculateHourlyBreakdown (events : list AnalyticsEvent) : list HourRow :=
  let hourlyData := foldl count_event ∅ events in
  (fun hour =>
     {| hour := hour;
        h_views := default 0 (views <$> hourlyData !! hour);
        h_arLaunches := default 0 (arLaunches <$> hourlyData !! hour) |})
  <$> seqZ 0 24.

End Hourly.

(** The number of events of a type, and the sum of a column of rows. *)
Definition count_type (type : string) (events : list AnalyticsEvent) : Z :=
  Z.of_nat (List.length (List.filter (fun e => String.eqb (eventType e) type) events)).

Definition total {A} (f : A -> Z) (rows : list A) : Z :=
  foldr (fun r acc => f r + acc) 0 rows.

(** What [hourlyData[hour]?.views || 0] and its like read. *)
Definition views_at (hourlyData : gmap Z Counters) (h : Z) : Z :=
  default 0 (views <$> hourlyData !! h).
Definition arLaunches_at (hourlyData : gmap Z Counters) (h : Z) : Z :=
  default 0 (arLaunches <$> hourlyData !! h).

Definition one_if (b : bool) : Z := if b then 1 else 0.

(** The hour of a time in UTC. *)
Definition utc_hours (t : Z) : Z := (t / 3600000) mod 24.

(** Two views and an AR launch in the afternoon, a click in the morning. *)
Definition sample_events : list AnalyticsEvent :=
  [ {| eventType := "view"; timestamp := 1714568400000 |};
    {| eventType := "ar_launch"; timestamp := 1714568460000 |};
    {| eventType := "hotspot_click"; timestamp := 1714554000000 |};
    {| eventType := "view"; timestamp := 1714572000000 |} ].

End AnalyticsService.

(** ** [StripeService] (server/services/stripe-service.ts, lines 1-428) *)

Module StripeService.

(** The price identifiers read from [process.env]. *)
Record Prices := {
  STRIPE_STARTER_PRICE_ID : option string;
  STRIPE_PROFESSIONAL_PRICE_ID : option string;
  STRIPE_ENTERPRISE_PRICE_ID : option string
}.

(** What the handlers read of an event of Stripe: its type, and of the
    invoice or the subscription it carries, the identifier, the
    subscription and the customer it belongs to, its status, and the
    price of its first item. *)
Record StripeEvent := {
  type : string;
  id : string;
  subscription : string;
  customer : string;
  status : string;
  price : option string
}.

Record User := {
  userId : string;
  subscriptionStatus : option string;
  subscriptionPlan : option string;
  updatedAt : Z
}.

(** The storage as the service uses it.  [getUserByStripeCustomerId] is
    called through [?.]: a storage may lack it. *)
Record IStorage := {
  getUserByStripeCustomerId : option (string -> Async (option User));
  upsertUser : User -> Async User
}.

Section StripeService.
Context (P : Prices).
(** [stripe.webhooks.constructEvent(body, signature, endpointSecret)]:
    the event, or the message of the error it throws. *)
Context (constructEvent : string -> string -> string -> Result StripeEvent).
Context (storage : IStorage).

(** [Object.entries(STRIPE_PRICE_IDS)] *)
Definition STRIPE_PRICE_IDS : list (string * string) :=
  [ ("starter", Node.or_default (STRIPE_STARTER_PRICE_ID P) "price_starter");
    ("professional", Node.or_default (STRIPE_PROFESSIONAL_PRICE_ID P) "price_professional");
    ("enterprise", Node.or_default (STRIPE_ENTERPRISE_PRICE_ID P) "price_enterprise") ].

(** [getPlanTypeFromPriceId]: the first plan with this price, or
    ['unknown']. *)
Definition getPlanTypeFromPriceId (priceId : string) : string :=
  match find (fun '(plan, id) => String.eqb id priceId) STRIPE_PRICE_IDS with
  | Some (plan, _) => plan
  | None => "unknown"
  end.

(** [await storage.getUserByStripeCustomerId?.(customerId)] *)
Definition find_user (customerId : string) : Async (option User) :=
  match getUserByStripeCustomerId storage with
  | Some lookup => lookup customerId
  | None => Await (Ret None)
  end.

(** [if (user) await storage.upsertUser({ ...user, <changes>, updatedAt })] *)
Definition update_user (customerId : string) (change : Z -> User -> User) : Async unit :=
  let* user := find_user customerId in
  match user with
  | Some u => let* d := new_Date in ignore (upsertUser storage (change d u))
  | None => Ret tt
  end.

Definition handlePaymentSucceeded (invoice : StripeEvent) : Async unit :=
  try_catch
    (update_user (customer invoice)
       (fun d u => {| userId := userId u; subscriptionStatus := Some "active";
                      subscriptionPlan := subscriptionPlan u; updatedAt := d |}) >>
     console Log ("Payment succeeded for subscription " ++ subscription invoice))
    (fun error => console Err ("Error handling payment succeeded: " ++ error)).

Definition handlePaymentFailed (invoice : StripeEvent) : Async unit :=
  try_catch
    (update_user (customer invoice)
       (fun d u => {| userId := userId u; subscriptionStatus := Some "past_due";
                      subscriptionPlan := subscriptionPlan u; updatedAt := d |}) >>
     console Log ("Payment failed for subscription " ++ subscription invoice))
    (fun error => console Err ("Error handling payment failed: " ++ error)).

Definition handleSubscriptionUpdated (sub : StripeEvent) : Async unit :=
  try_catch
    (let planType := getPlanTypeFromPriceId (default EmptyString (price sub)) in
     update_user (customer sub)
       (fun d u => {| userId := userId u; subscriptionStatus := Some (status sub);
                      subscriptionPlan := Some planType; updatedAt := d |}) >>
     console Log ("Subscription updated: " ++ id sub))
    (fun error => console Err ("Error handling subscription updated: " ++ error)).

Definition handleSubscriptionDeleted (sub : StripeEvent) : Async unit :=
  try_catch
    (update_user (customer sub)
       (fun d u => {| userId := userId u; subscriptionStatus := Some "canceled";
                      subscriptionPlan := Some "starter"; updatedAt := d |}) >>
     console Log ("Subscription deleted: " ++ id sub))
    (fun error => console Err ("Error handling subscription deleted: " ++ error)).

Definition handleTrialWillEnd (sub : StripeEvent) : Async unit :=
  try_catch
    (console Log ("Trial will end for subscription: " ++ id sub))
    (fun error => console Err ("Error handling trial will end: " ++ error)).

(** [handleWebhook]: the event is verified and handed to its handler;
    whatever is thrown is replaced by one error. *)
Definition handleWebhook (body signature endpointSecret : string) : Async unit :=
  try_catch
    (let* event := of_result (constructEvent body signature endpointSecret) in
     if String.eqb (type event) "invoice.payment_succeeded" then
       handlePaymentSucceeded event
     else if String.eqb (type event) "invoice.payment_failed" then
       handlePaymentFailed event
     else if String.eqb (type event) "customer.subscription.updated" then
       handleSubscriptionUpdated event
     else if String.eqb (type event) "customer.subscription.deleted" then
       handleSubscriptionDeleted event
     else if String.eqb (type event) "customer.subscription.trial_will_end" then
       handleTrialWillEnd event
     else console Log ("Unhandled event type: " ++ type event))
    (fun error =>
       console Err ("Webhook error: " ++ error) >>
       Throw "Webhook processing failed").

End StripeService.

(** [DatabaseStorage] of server/storage.ts declares no
    [getUserByStripeCustomerId]; [upsertUser] is whatever it is. *)
Definition DatabaseStorage (upsertUser : User -> Async User) : IStorage :=
  {| getUserByStripeCustomerId := None; upsertUser := upsertUser |}.

(** The handled event types. *)
Definition handled : list string :=
  [ "invoice.payment_succeeded"; "invoice.payment_failed";
    "customer.subscription.updated"; "customer.subscription.deleted";
    "customer.subscription.trial_will_end" ].

(** What a handler prints when it is done. *)
Definition handled_line (event : StripeEvent) : string :=
  if String.eqb (type event) "invoice.payment_succeeded" then
    "Payment succeeded for subscription " ++ subscription event
  else if String.eqb (type event) "invoice.payment_failed" then
    "Payment failed for subscription " ++ subscription event
  else if String.eqb (type event) "customer.subscription.updated" then
    "Subscription updated: " ++ id event
  else if String.eqb (type event) "customer.subscription.deleted" then
    "Subscription deleted: " ++ id event
  else if String.eqb (type event) "customer.subscription.trial_will_end" then
    "Trial will end for subscription: " ++ id event
  else "Unhandled event type: " ++ type event.

Definition no_prices : Prices :=
  {| STRIPE_STARTER_PRICE_ID := None; STRIPE_PROFESSIONAL_PRICE_ID := None;
     STRIPE_ENTERPRISE_PRICE_ID := None |}.

End StripeService.

(** ** [FileUploadService.deleteFile] and [getFileMetadata]: the key of a URL *)

Module ObjectKey.

Fixpoint skip (n : nat) (s : string) : string :=
  match n, s with
  | O, _ => s
  | S k, String _ rest => skip k rest
  | S _, EmptyString => EmptyString
  end.

(** [text.replace(pattern, '')] for a string pattern: the first
    occurrence of the pattern, if any, is taken out. *)
Fixpoint remove_first (pattern text : string) : string :=
  if String.prefix pattern text then skip (String.length pattern) text
  else match text with
       | EmptyString => EmptyString
       | String c rest => String c (remove_first pattern rest)
       end.

(** [const key = fileUrl.replace(`https://${CDN_DOMAIN}/`, '')], the
    [Key] of the command [deleteFile] and [getFileMetadata] send. *)
Definition key (E : Env) (fileUrl : string) : string :=
  remove_first ("https://" ++ FileUploadService.CDN_DOMAIN E ++ "/") fileUrl.

End ObjectKey.

(** ** Lemmas *)

Example extname_glb : Node.extname "/tmp/uploads/burger.glb" = ".glb".
Proof. reflexivity. Qed.
Example extname_upper : Node.extname "/tmp/uploads/Burger.GLB" = ".GLB".
Proof. reflexivity. Qed.
Example extname_two : Node.extname "index.coffee.md" = ".md".
Proof. reflexivity. Qed.
Example extname_none : Node.extname "/tmp/uploads/3f9a0c" = EmptyString.
Proof. reflexivity. Qed.
Example extname_hidden : Node.extname "/home/u/.bashrc" = EmptyString.
Proof. reflexivity. Qed.
Example extname_trailing_dot : Node.extname "index." = ".".
Proof. reflexivity. Qed.
Example extname_dir : Node.extname "/a.b/c" = EmptyString.
Proof. reflexivity. Qed.
Example toLowerCase_GLB : Node.toLowerCase ".GlB" = ".glb".
Proof. reflexivity. Qed.

Lemma run_bind {A B} (m : Async A) (f : A -> Async B) w p :
  run (bind m f) w p =
  let '(w', p', r) := run m w p in
  match r with Ok a => run (f a) w' p' | Error e => (w', p', Error e) end.
Proof.
  revert B f w p.
  induction m as [A a|A e|A X op k IH|A k IH|A t IHt k IH]; intros B f w p; simpl.
  - destruct (run (f a) w p) as [[? ?] ?]; reflexivity.
  - reflexivity.
  - destruct (op w) as [w' x]. apply IH.
  - apply IH.
  - destruct (resume t w p) as [[w' p'] t']. apply IH.
Qed.

Lemma run_try_catch {A} (m : Async A) (h : string -> Async A) w p :
  run (try_catch m h) w p =
  let '(w', p', r) := run m w p in
  match r with Ok a => (w', p', Ok a) | Error e => run (h e) w' p' end.
Proof.
  revert h w p.
  induction m as [A a|A e|A X op k IH|A k IH|A t IHt k IH]; intros h w p; simpl.
  - reflexivity.
  - destruct (run (h e) w p) as [[? ?] ?]; reflexivity.
  - destruct (op w) as [w' x]. apply IH.
  - apply IH.
  - destruct (resume t w p) as [[w' p'] t']. apply IH.
Qed.

Lemma spec_ret {A} (a : A) w (Q : World -> Result A -> Prop) :
  Q w (Ok a) -> spec (Ret a) w Q.
Proof. intros H p. exists w, (Ok a). split; [reflexivity | exact H]. Qed.

Lemma spec_throw {A} e w (Q : World -> Result A -> Prop) :
  Q w (Error e) -> spec (Throw e) w Q.
Proof. intros H p. exists w, (Error e). split; [reflexivity | exact H]. Qed.

Lemma spec_mono {A} (m : Async A) w (Q Q' : World -> Result A -> Prop) :
  spec m w Q -> (forall w' r, Q w' r -> Q' w' r) -> spec m w Q'.
Proof.
  intros H HQ p. destruct (H p) as (w' & r & Hr & Hq). exists w', r. auto.
Qed.

Lemma spec_and {A} (m : Async A) w (Q1 Q2 : World -> Result A -> Prop) :
  spec m w Q1 -> spec m w Q2 -> spec m w (fun w' r => Q1 w' r /\ Q2 w' r).
Proof.
  intros H1 H2 p. destruct (H1 p) as (w1 & r1 & Hr1 & Hq1).
  destruct (H2 p) as (w2 & r2 & Hr2 & Hq2).
  rewrite Hr1 in Hr2. inversion Hr2; subst. exists w2, r2. auto.
Qed.

Lemma spec_bind {A B} (m : Async A) (f : A -> Async B) w (Q : World -> Result B -> Prop) :
  spec m w (fun w1 r1 =>
              match r1 with
              | Ok a => spec (f a) w1 Q
              | Error e => Q w1 (Error e)
              end) ->
  spec (bind m f) w Q.
Proof.
  intros H p. destruct (H p) as (w1 & r1 & Hr & Hq).
  rewrite run_bind, Hr. destruct r1 as [a|e].
  - apply Hq.
  - exists w1, (Error e). auto.
Qed.

Lemma spec_try_catch {A} (m : Async A) (h : string -> Async A) w
    (Q : World -> Result A -> Prop) :
  spec m w (fun w1 r1 =>
              match r1 with
              | Ok a => Q w1 (Ok a)
              | Error e => spec (h e) w1 Q
              end) ->
  spec (try_catch m h) w Q.
Proof.
  intros H p. destruct (H p) as (w1 & r1 & Hr & Hq).
  rewrite run_try_catch, Hr. destruct r1 as [a|e].
  - exists w1, (Ok a). auto.
  - apply Hq.
Qed.

Lemma spec_sync {X} (op : World -> World * X) w (Q : World -> Result X -> Prop) :
  Q (op w).1 (Ok (op w).2) -> spec (sync op) w Q.
Proof.
  intros H p. unfold sync. simpl. destruct (op w) as [w' x]. exists w', (Ok x). auto.
Qed.

Lemma spec_act (f : World -> World) w (Q : World -> Result unit -> Prop) :
  Q (f w) (Ok tt) -> spec (act f) w Q.
Proof. intros H p. exists (f w), (Ok tt). auto. Qed.

Lemma spec_io {X} (op : World -> World * Result X) w (Q : World -> Result X -> Prop) :
  Q (op w).1 (op w).2 -> spec (io op) w Q.
Proof.
  intros H p. unfold io. simpl. destruct (op w) as [w' r]. exists w', r.
  split; [destruct r; reflexivity | exact H].
Qed.

Lemma spec_run {A} (m : Async A) w (Q : World -> Result A -> Prop) :
  spec m w Q -> Q (world_after m w) (result_of m w).
Proof.
  intros H. destruct (H []) as (w' & r & Hr & Hq).
  unfold world_after, result_of. rewrite Hr. exact Hq.
Qed.

Lemma same_job_refl j : same_job j j.
Proof. repeat split. Qed.

Lemma same_job_trans j1 j2 j3 : same_job j1 j2 -> same_job j2 j3 -> same_job j1 j3.
Proof. unfold same_job. intros H1 H2. intuition congruence. Qed.

Lemma same_model_refl m : same_model m m.
Proof. repeat split. Qed.

Lemma same_model_trans m1 m2 m3 : same_model m1 m2 -> same_model m2 m3 -> same_model m1 m3.
Proof. unfold same_model. intros H1 H2. intuition congruence. Qed.

Lemma same_models_refl (rows : gmap string Model.t) k :
  option_Forall2 same_model (rows !! k) (rows !! k).
Proof. destruct (rows !! k); constructor. apply same_model_refl. Qed.

Lemma frame_refl P job w : frame P job w w.
Proof.
  split; try reflexivity.
  - apply same_job_refl.
  - intros k. apply same_models_refl.
  - exists []. split; [symmetry; apply app_nil_r | reflexivity].
Qed.

Lemma frame_trans P job w1 w2 w3 :
  frame P job w1 w2 -> frame P job w2 w3 -> frame P job w1 w3.
Proof.
  intros [a1 b1 c1 d1 e1 f1 g1 (t1 & h1 & i1)] [a2 b2 c2 d2 e2 f2 g2 (t2 & h2 & i2)].
  split; try congruence.
  - intros r Hr. rewrite d2, d1; auto.
  - eapply same_job_trans; eauto.
  - lia.
  - intros k. specialize (g1 k). specialize (g2 k).
    destruct g1 as [x y Hxy|]; inversion g2 as [y' z Hyz|]; subst; constructor.
    eapply same_model_trans; eauto.
  - exists (t1 ++ t2)%list. split.
    + rewrite h2, h1. symmetry. apply app_assoc.
    + rewrite forallb_app, i1, i2. reflexivity.
Qed.

Lemma frame_weaken (P P' : Effect -> bool) job w w' :
  (forall ev, P ev = true -> P' ev = true) -> frame P job w w' -> frame P' job w w'.
Proof.
  intros HP [a b c d e f g (t & h & i)]. split; auto.
  exists t. split; [exact h|]. apply forallb_forall. intros ev Hin.
  apply HP. rewrite forallb_forall in i. auto.
Qed.

Lemma frame_emit (P : Effect -> bool) job ev w :
  P ev = true -> frame P job w (emit ev w).
Proof.
  intros HP. split; try reflexivity.
  - apply same_job_refl.
  - intros k. apply same_models_refl.
  - exists [ev]. split; [reflexivity | simpl; rewrite HP; reflexivity].
Qed.

Lemma frame_set_files P job fs w : frame P job w (set_files fs w).
Proof.
  split; try reflexivity.
  - apply same_job_refl.
  - intros k. apply same_models_refl.
  - exists []. split; [symmetry; apply app_nil_r | reflexivity].
Qed.

Lemma frame_next_draw P job w : frame P job w (next_draw w).
Proof.
  split; try reflexivity.
  - apply same_job_refl.
  - simpl. lia.
  - intros k. apply same_models_refl.
  - exists []. split; [symmetry; apply app_nil_r | reflexivity].
Qed.

Lemma after_nil w : after w [] w.
Proof. exists []. split; [symmetry; apply app_nil_r | constructor]. Qed.

Lemma after_frame P job w0 l w w' : after w0 l w -> frame P job w w' -> after w0 l w'.
Proof.
  intros (d & Hd & Hl) [_ _ _ _ _ _ _ (t & Ht & _)].
  exists (d ++ t)%list. split.
  - rewrite Ht, Hd. symmetry. apply app_assoc.
  - apply sublist_inserts_r. exact Hl.
Qed.

Lemma after_more w0 l w w' t :
  after w0 l w -> trace w' = (trace w ++ t)%list -> after w0 l w'.
Proof.
  intros (d & Hd & Hl) Ht.
  exists (d ++ t)%list. split.
  - rewrite Ht, Hd. symmetry. apply app_assoc.
  - apply sublist_inserts_r. exact Hl.
Qed.

Lemma after_snoc w0 l w w' evs t :
  after w0 l w -> trace w' = (trace w ++ evs ++ t)%list -> after w0 (l ++ evs)%list w'.
Proof.
  intros (d & Hd & Hl) Ht.
  exists (d ++ evs ++ t)%list. split.
  - rewrite Ht, Hd. symmetry. apply app_assoc.
  - apply sublist_app; [exact Hl|]. apply sublist_inserts_r. reflexivity.
Qed.

Section Framed.
Context (E : Env) (P : Effect -> bool) (job : nat).

Lemma framed_ret {A} (a : A) : framed P job (Ret a).
Proof. intros w. apply spec_ret, frame_refl. Qed.

Lemma framed_throw {A} e : framed P job (@Throw A e).
Proof. intros w. apply spec_throw, frame_refl. Qed.

Lemma framed_bind {A B} (m : Async A) (f : A -> Async B) :
  framed P job m -> (forall a, framed P job (f a)) -> framed P job (bind m f).
Proof.
  intros Hm Hf w. apply spec_bind. eapply spec_mono; [apply Hm|].
  intros w1 [a|e] H1; [|exact H1].
  eapply spec_mono; [apply Hf|]. intros w2 r H2. eapply frame_trans; eauto.
Qed.

Lemma framed_try_catch {A} (m : Async A) h :
  framed P job m -> (forall e, framed P job (h e)) -> framed P job (try_catch m h).
Proof.
  intros Hm Hh w. apply spec_try_catch. eapply spec_mono; [apply Hm|].
  intros w1 [a|e] H1; [exact H1|].
  eapply spec_mono; [apply Hh|]. intros w2 r H2. eapply frame_trans; eauto.
Qed.

Lemma framed_ignore {A} (m : Async A) : framed P job m -> framed P job (ignore m).
Proof. intros H. apply framed_bind; [exact H|]. intros a. apply framed_ret. Qed.

Lemma framed_settle {A} (m : Async A) : framed P job m -> framed P job (settle m).
Proof.
  intros H. apply framed_try_catch.
  - apply framed_bind; [exact H|]. intros a. apply framed_ret.
  - intros e. apply framed_ret.
Qed.

Lemma framed_of_result {A} (r : Result A) : framed P job (of_result r).
Proof. destruct r; [apply framed_ret | apply framed_throw]. Qed.

Lemma framed_console l msg : P (Console l msg) = true -> framed P job (console l msg).
Proof. intros HP w. apply spec_act, frame_emit, HP. Qed.

Lemma framed_read_job r : framed P job (read_job r).
Proof. intros w. apply spec_sync, frame_refl. Qed.

Lemma framed_new_Date : framed P job new_Date.
Proof. intros w. apply spec_sync, frame_refl. Qed.

Lemma framed_draw_nanoid size : framed P job (draw_nanoid E size).
Proof. intros w. apply spec_sync, frame_next_draw. Qed.

Lemma job_at_alter f r w :
  job_at (set_heap (alter f r (heap w)) w) r
  = match heap w !! r with Some j => f j | None => Job.dummy end.
Proof.
  unfold job_at. simpl. rewrite list_lookup_alter_eq.
  destruct (heap w !! r); reflexivity.
Qed.

Lemma framed_push_log entry : framed P job (assign job (Job.push_log entry)).
Proof.
  intros w. apply spec_act. split; try reflexivity.
  - simpl. apply length_alter.
  - intros r Hr. simpl. apply list_lookup_alter_ne. congruence.
  - rewrite job_at_alter. unfold job_at.
    destruct (heap w !! job); repeat split.
  - intros k. apply same_models_refl.
  - exists []. split; [symmetry; apply app_nil_r | reflexivity].
Qed.

Lemma framed_fs_call {X} op (f : gmap string FileNode -> Result (gmap string FileNode * X)) :
  P (Fs op) = true -> framed P job (io (fs_call E op f)).
Proof.
  intros HP w. apply spec_io. unfold fs_call.
  destruct (fs_error E op); simpl; [apply frame_emit, HP|].
  destruct (f _) as [[fs' x]|msg]; simpl; [|apply frame_emit, HP].
  eapply frame_trans; [apply frame_emit, HP | apply frame_set_files].
Qed.

Lemma framed_child_exec command cwd :
  P (Exec command cwd) = true -> framed P job (child_exec E command cwd).
Proof.
  intros HP w p. simpl. eexists _, _. split; [reflexivity|].
  eapply frame_trans; [apply frame_emit, HP | apply frame_set_files].
Qed.

Lemma framed_s3_put key ct :
  P (S3Put key ct) = true -> framed P job (FileUploadService.s3_put E key ct).
Proof. intros HP w. apply spec_io. simpl. apply frame_emit, HP. Qed.

Lemma framed_sharp width height format :
  P (Sharp width height format) = true ->
  framed P job (FileUploadService.createPlaceholderThumbnail E width height format).
Proof. intros HP w. apply spec_io. simpl. apply frame_emit, HP. Qed.

Lemma frame_set_models rows w :
  (forall k, option_Forall2 same_model (models w !! k) (rows !! k)) ->
  frame P job w (set_models rows w).
Proof.
  intros H. split; try reflexivity.
  - apply same_job_refl.
  - exact H.
  - exists []. split; [symmetry; apply app_nil_r | reflexivity].
Qed.

Lemma framed_updateModel_logs key logs :
  P (Db (UpdateModel key (logs_only logs))) = true ->
  framed P job (Storage.updateModel E key (logs_only logs)).
Proof.
  intros HP w. apply spec_io. unfold Storage.db_call.
  destruct (db_error E _); simpl; [apply frame_emit, HP|].
  eapply frame_trans; [apply frame_emit, HP|].
  destruct (models w !! key) as [m|] eqn:Hm; simpl; apply frame_set_models; intros k; simpl.
  - destruct (decide (key = k)) as [->|Hne].
    + rewrite lookup_insert_eq, Hm. constructor. repeat split.
    + rewrite lookup_insert_ne by exact Hne. apply same_models_refl.
  - apply same_models_refl.
Qed.

End Framed.

Ltac framed_step :=
  lazymatch goal with
  | |- framed _ _ (bind _ _) => apply framed_bind; [| intros ?]
  | |- framed _ _ (try_catch _ _) => apply framed_try_catch; [| intros ?]
  | |- framed _ _ (Ret _) => apply framed_ret
  | |- framed _ _ (Throw _) => apply framed_throw
  | |- framed _ _ (ignore _) => apply framed_ignore
  | |- framed _ _ (settle _) => apply framed_settle
  | |- framed _ _ (of_result _) => apply framed_of_result
  | |- framed _ _ (console _ _) => apply framed_console; reflexivity
  | |- framed _ _ (read_job _) => apply framed_read_job
  | |- framed _ _ new_Date => apply framed_new_Date
  | |- framed _ _ (draw_nanoid _ _) => apply framed_draw_nanoid
  | |- framed _ _ (assign _ (Job.push_log _)) => apply framed_push_log
  | |- framed _ _ (io (fs_call _ _ _)) => apply framed_fs_call; reflexivity
  | |- framed _ _ (child_exec _ _ _) => apply framed_child_exec; reflexivity
  | |- framed _ _ (FileUploadService.s3_put _ _ _) => apply framed_s3_put; reflexivity
  | |- framed _ _ (FileUploadService.createPlaceholderThumbnail _ _ _ _) =>
      apply framed_sharp; reflexivity
  | |- framed _ _ (Storage.updateModel _ _ (logs_only _)) =>
      apply framed_updateModel_logs; reflexivity
  | |- framed _ _ (if ?b then _ else _) => destruct b
  | |- framed _ _ (match ?x with _ => _ end) => destruct x
  end.

Ltac framed_auto := cbv zeta; repeat framed_step.


Lemma extends_frame P job w evs w1 w' :
  extends w evs w1 -> frame P job w1 w' -> extends w evs w'.
Proof.
  intros (t & Ht) [_ _ _ _ _ _ _ (d & Hd & _)]. exists (t ++ d)%list.
  rewrite Hd, Ht. rewrite <- !app_assoc. reflexivity.
Qed.

Lemma extends_emit ev w : extends w [ev] (emit ev w).
Proof. exists []. simpl. reflexivity. Qed.

Lemma extends_emit_files ev fs w : extends w [ev] (set_files fs (emit ev w)).
Proof. exists []. simpl. reflexivity. Qed.

Lemma frame_emit_files (P : Effect -> bool) job ev fs w :
  P ev = true -> frame P job w (set_files fs (emit ev w)).
Proof.
  intros HP. eapply frame_trans; [apply frame_emit, HP | apply frame_set_files].
Qed.

Section Stages.
Context (E : Env) (job : nat).
Import ModelConversionService.

Lemma spec_new_Date w (Q : World -> Result Z -> Prop) :
  Q w (Ok (now w)) -> spec new_Date w Q.
Proof. intros H. apply spec_sync. exact H. Qed.

Lemma spec_read_job r w (Q : World -> Result Job.t -> Prop) :
  Q w (Ok (job_at w r)) -> spec (read_job r) w Q.
Proof. intros H. apply spec_sync. exact H. Qed.

Lemma spec_console l msg w (Q : World -> Result unit -> Prop) :
  Q (emit (Console l msg) w) (Ok tt) -> spec (console l msg) w Q.
Proof. intros H. apply spec_act. exact H. Qed.

Lemma spec_assign r f w (Q : World -> Result unit -> Prop) :
  Q (set_heap (alter f r (heap w)) w) (Ok tt) -> spec (assign r f) w Q.
Proof. intros H. apply spec_act. exact H. Qed.

Lemma spec_draw_nanoid size w (Q : World -> Result string -> Prop) :
  Q (next_draw w) (Ok (nanoid E size (draws w))) -> spec (draw_nanoid E size) w Q.
Proof. intros H. apply spec_sync. exact H. Qed.

Lemma spec_fs {X} op (f : gmap string FileNode -> Result (gmap string FileNode * X)) w
    (Q : World -> Result X -> Prop) :
  match fs_error E op with
  | Some msg => Q (emit (Fs op) w) (Error msg)
  | None =>
      match f (files w) with
      | Ok (fs', x) => Q (set_files fs' (emit (Fs op) w)) (Ok x)
      | Error msg => Q (emit (Fs op) w) (Error msg)
      end
  end ->
  spec (io (fs_call E op f)) w Q.
Proof.
  intros H. apply spec_io. unfold fs_call. simpl.
  destruct (fs_error E op); [exact H|].
  destruct (f (files w)) as [[fs' x]|msg]; exact H.
Qed.

Lemma spec_runCommand command cwd w (Q : World -> Result string -> Prop) :
  (let r := exec E command cwd in
   let w1 := set_files (write_all (written r) (files w)) (emit (Exec command cwd) w) in
   if exit_ok r then Q w1 (Ok (stdout r))
   else Q w1 (Error ("Command failed: " ++ failure r ++ Node.nl ++ "Stderr: " ++ stderr r))) ->
  spec (runCommand E command cwd) w Q.
Proof.
  intros H p. unfold runCommand. simpl in *.
  destruct (exit_ok (exec E command cwd)); simpl; eexists _, _; split; try reflexivity; exact H.
Qed.

Lemma framed_updateJobLogs P msg :
  (forall l m, P (Console l m) = true) -> (forall k u, P (Db (UpdateModel k u)) = true) ->
  framed P job (updateJobLogs E job msg).
Proof.
  intros H1 H2. unfold updateJobLogs. cbv zeta.
  apply framed_bind; [apply framed_new_Date|]. intros d.
  apply framed_bind; [apply framed_push_log|]. intros _.
  apply framed_bind; [apply framed_read_job|]. intros j.
  apply framed_bind; [apply framed_console, H1|]. intros _.
  apply framed_try_catch.
  - apply framed_ignore, framed_updateModel_logs, H2.
  - intros e. apply framed_console, H1.
Qed.

(** [updateJobLogs] never throws. *)
Lemma updateJobLogs_spec P msg w :
  (forall l m, P (Console l m) = true) -> (forall k u, P (Db (UpdateModel k u)) = true) ->
  spec (updateJobLogs E job msg) w (fun w' r => r = Ok tt /\ frame P job w w').
Proof.
  intros H1 H2. apply spec_and; [|apply framed_updateJobLogs; assumption].
  unfold updateJobLogs. cbv zeta.
  apply spec_bind, spec_new_Date.
  apply spec_bind, spec_assign.
  apply spec_bind, spec_read_job.
  apply spec_bind, spec_console.
  apply spec_try_catch.
  eapply spec_mono; [apply (framed_ignore P job), framed_updateModel_logs, H2|].
  intros w1 [[]|e] _; [reflexivity|]. apply spec_console. reflexivity.
Qed.

Lemma framed_runCommand c cwd : framed no_select job (runCommand E c cwd).
Proof. unfold runCommand. framed_auto. Qed.

Lemma framed_processGLTF wd : framed no_select job (processGLTF E job wd).
Proof. unfold processGLTF, runCommand, fs_copyFile. framed_auto. Qed.

Lemma framed_convertFBXtoGLB wd : framed no_select job (convertFBXtoGLB E job wd).
Proof.
  unfold convertFBXtoGLB, runCommand, fs_writeFile. cbv zeta.
  repeat first [ apply framed_updateJobLogs; reflexivity | framed_step ].
Qed.

Lemma framed_convertOBJtoGLB wd : framed no_select job (convertOBJtoGLB E job wd).
Proof.
  unfold convertOBJtoGLB, runCommand, fs_writeFile. cbv zeta.
  repeat first [ apply framed_updateJobLogs; reflexivity | framed_step ].
Qed.

Lemma framed_convert ext wd : framed no_select job (convert E ext job wd).
Proof.
  unfold convert.
  repeat lazymatch goal with |- framed _ _ (if ?b then _ else _) => destruct b end;
    auto using framed_processGLTF, framed_convertFBXtoGLB, framed_convertOBJtoGLB.
  apply framed_throw.
Qed.

Lemma framed_analyzeModel g : framed no_select job (analyzeModel E g).
Proof. unfold analyzeModel, fs_stat. framed_auto. Qed.

Lemma framed_optimizeForWebAR g wd : framed no_select job (optimizeForWebAR E g wd).
Proof. unfold optimizeForWebAR, runCommand. framed_auto. Qed.

Lemma framed_generateUSDZ g wd : framed no_select job (generateUSDZ E g wd).
Proof. unfold generateUSDZ, runCommand, fs_writeFile. framed_auto. Qed.

Lemma framed_FileUpload_generateThumbnail a b o :
  framed no_select job (FileUploadService.generateThumbnail E a b o).
Proof. unfold FileUploadService.generateThumbnail. framed_auto. Qed.

Lemma framed_generateThumbnail g wd : framed no_select job (generateThumbnail E g wd).
Proof.
  unfold generateThumbnail, runCommand, fs_writeFile. cbv zeta.
  repeat first [ apply framed_FileUpload_generateThumbnail | framed_step ].
Qed.

Lemma framed_uploadProcessedModel f m fmt :
  framed no_select job (FileUploadService.uploadProcessedModel E f m fmt).
Proof. unfold FileUploadService.uploadProcessedModel, fs_readFile. framed_auto. Qed.

Lemma framed_uploadAll a b c m : framed no_select job (uploadAll E a b c m).
Proof.
  unfold uploadAll.
  repeat first [ apply framed_uploadProcessedModel | framed_step ].
Qed.

Lemma framed_generateQRCode sl : framed no_select job (generateQRCode E sl).
Proof.
  unfold generateQRCode, fs_writeFile. cbv zeta.
  apply framed_try_catch; [|intros e; framed_auto].
  apply framed_bind; [|intros b; framed_auto].
  intros w. apply spec_io. simpl. apply frame_emit. reflexivity.
Qed.

Lemma framed_cleanup wd : framed no_select job (cleanup E wd).
Proof. unfold cleanup, fs_rm. framed_auto. Qed.


Ltac solve_extends :=
  eexists; simpl; rewrite <- ?app_assoc; simpl; reflexivity.

Lemma spec_seq {A B} P (m : Async A) (f : A -> Async B) w (Q : World -> Result B -> Prop) :
  framed P job m ->
  (forall w1 a, frame P job w w1 -> spec (f a) w1 Q) ->
  (forall w1 e, frame P job w w1 -> Q w1 (Error e)) ->
  spec (bind m f) w Q.
Proof.
  intros Hm Hf He. apply spec_bind. eapply spec_mono; [apply Hm|].
  intros w1 [a|e] H1; auto.
Qed.

Lemma spec_framed {A} P (m : Async A) w (Q : World -> Result A -> Prop) :
  framed P job m -> (forall w1 r, frame P job w w1 -> Q w1 r) -> spec m w Q.
Proof. intros Hm H. eapply spec_mono; [apply Hm|]. exact H. Qed.

Lemma after_after w0 l1 w1 l2 w2 :
  after w0 l1 w1 -> after w1 l2 w2 -> after w0 (l1 ++ l2)%list w2.
Proof.
  intros (d1 & Hd1 & Hl1) (d2 & Hd2 & Hl2). exists (d1 ++ d2)%list. split.
  - rewrite Hd2, Hd1. symmetry. apply app_assoc.
  - apply sublist_app; assumption.
Qed.

Lemma after_one w ev w' t : trace w' = (trace w ++ ev :: t)%list -> after w [ev] w'.
Proof.
  intros Ht. exists (ev :: t). split; [exact Ht|].
  apply sublist_skip, sublist_nil_l.
Qed.

(** A converter that returns has left the canonical GLB at
    [workDir/model.glb], by a copy, by gltf-pipeline or by Blender. *)
Lemma convert_spec ext wd w :
  spec (convert E ext job wd) w
    (fun w' r => forall g, r = Ok g ->
       g = Node.path_join wd "model.glb"
       /\ exists conv,
            (conv = Fs (CopyFile (Job.inputFile (job_at w job)) (Node.path_join wd "model.glb"))
             \/ conv = Exec (gltfPipelineCommand (Job.inputFile (job_at w job))
                               (Node.path_join wd "model.glb")) wd
             \/ conv = Exec (blenderCommand E (Node.path_join wd "convert.py")) wd)
            /\ after w [conv] w').
Proof.
  set (Q := fun (w' : World) (r : Result string) => forall g, r = Ok g ->
       g = Node.path_join wd "model.glb"
       /\ exists conv,
            (conv = Fs (CopyFile (Job.inputFile (job_at w job)) (Node.path_join wd "model.glb"))
             \/ conv = Exec (gltfPipelineCommand (Job.inputFile (job_at w job))
                               (Node.path_join wd "model.glb")) wd
             \/ conv = Exec (blenderCommand E (Node.path_join wd "convert.py")) wd)
            /\ after w [conv] w').
  assert (Hg : spec (processGLTF E job wd) w Q).
  { unfold processGLTF. cbv zeta. apply spec_bind, spec_read_job.
    destruct (String.eqb _ ".glb").
    - apply spec_bind. unfold fs_copyFile. apply spec_fs.
      destruct (fs_error E _); [discriminate|].
      destruct (files w !! _) as [[|c]|]; [discriminate| |discriminate].
      apply spec_ret. intros g [= <-]. split; [reflexivity|].
      eexists. split; [left; reflexivity|]. eapply after_one. reflexivity.
    - apply spec_bind. unfold ignore. apply spec_bind, spec_runCommand. cbv zeta.
      destruct (exit_ok _); [|discriminate].
      apply spec_ret, spec_ret. intros g [= <-]. split; [reflexivity|].
      eexists. split; [right; left; reflexivity|]. eapply after_one. reflexivity. }
  assert (Hc : forall what importer msg,
            spec (let outputPath := Node.path_join wd "model.glb" in
                  let* j := read_job job in
                  let blenderScript := convertScript what importer (Job.inputFile j) outputPath in
                  let scriptPath := Node.path_join wd "convert.py" in
                  fs_writeFile E scriptPath blenderScript >>
                  updateJobLogs E job msg >>
                  runCommand E (blenderCommand E scriptPath) wd >>
                  Ret outputPath) w Q).
  { intros what importer msg. cbv zeta. apply spec_bind, spec_read_job.
    apply (spec_seq no_select); [unfold fs_writeFile; framed_auto| |discriminate].
    intros w1 _ F1.
    apply (spec_seq no_select); [apply framed_updateJobLogs; reflexivity| |discriminate].
    intros w2 _ F2.
    pose proof (after_frame _ _ _ _ _ _ (after_frame _ _ _ _ _ _ (after_nil w) F1) F2) as A.
    apply spec_bind, spec_runCommand. cbv zeta.
    destruct (exit_ok _); [|discriminate].
    apply spec_ret. intros g [= <-]. split; [reflexivity|].
    eexists. split; [right; right; reflexivity|].
    apply (after_after _ _ _ _ _ A). eapply after_one. reflexivity. }
  unfold convert.
  destruct (String.eqb ext ".glb"); [exact Hg|].
  destruct (String.eqb ext ".gltf"); [exact Hg|].
  destruct (String.eqb ext ".fbx"); [apply Hc|].
  destruct (String.eqb ext ".obj"); [apply Hc|].
  apply spec_throw. discriminate.
Qed.

Lemma analyzeModel_spec g w :
  spec (analyzeModel E g) w (fun w' r => is_ok r /\ extends w [Fs (Stat g)] w').
Proof.
  unfold analyzeModel, fs_stat. apply spec_try_catch, spec_bind, spec_fs.
  destruct (fs_error E (Stat g)).
  - apply spec_bind, spec_console, spec_ret. split; [exact I | solve_extends].
  - destruct (files w !! g) as [[|c]|].
    + apply spec_ret. split; [exact I | solve_extends].
    + apply spec_ret. split; [exact I | solve_extends].
    + apply spec_bind, spec_console, spec_ret. split; [exact I | solve_extends].
Qed.

Lemma optimizeForWebAR_spec g wd w :
  let optimized := Node.path_join wd "optimized.glb" in
  spec (optimizeForWebAR E g wd) w
    (fun w' r => exists opt, r = Ok opt /\ (opt = g \/ opt = optimized)
                 /\ (exit_ok (exec E (optimizeCommand g optimized) wd) = false -> opt = g)
                 /\ extends w [Exec (optimizeCommand g optimized) wd] w').
Proof.
  intros optimized. unfold optimizeForWebAR. cbv zeta.
  apply spec_try_catch, spec_bind, spec_runCommand. cbv zeta.
  fold optimized. destruct (exit_ok (exec E (optimizeCommand g optimized) wd)).
  - apply spec_ret. exists optimized. repeat split; auto; [discriminate | solve_extends].
  - apply spec_bind, spec_console, spec_ret. exists g. repeat split; auto. solve_extends.
Qed.

Lemma generateUSDZ_spec g wd w :
  let usdzPath := Node.path_join wd "model.usdz" in
  spec (generateUSDZ E g wd) w
    (fun w' r => (forall u, r = Ok u -> u = usdzPath)
                 /\ extends w [Exec (usdzCommand g usdzPath) wd] w').
Proof.
  intros usdzPath. unfold generateUSDZ. cbv zeta. fold usdzPath.
  apply spec_bind, spec_try_catch, spec_bind, spec_runCommand. cbv zeta.
  destruct (exit_ok (exec E (usdzCommand g usdzPath) wd)).
  - apply spec_ret, spec_ret. split; [intros u [= <-]; reflexivity | solve_extends].
  - apply spec_bind, spec_console. unfold fs_writeFile. apply spec_fs.
    destruct (fs_error E _).
    + split; [discriminate | solve_extends].
    + destruct (_ !! usdzPath) as [[|c]|].
      * split; [discriminate | solve_extends].
      * apply spec_ret. split; [intros u [= <-]; reflexivity | solve_extends].
      * apply spec_ret. split; [intros u [= <-]; reflexivity | solve_extends].
Qed.

Lemma generateThumbnail_spec g wd w :
  let thumbnailPath := Node.path_join wd "thumbnail.jpg" in
  let scriptPath := Node.path_join wd "thumbnail.py" in
  spec (generateThumbnail E g wd) w
    (fun w' r => forall t, r = Ok t ->
                 t = thumbnailPath
                 /\ extends w [Fs (WriteFile scriptPath (thumbnailScript g thumbnailPath));
                               Exec (blenderCommand E scriptPath) wd] w').
Proof.
  intros thumbnailPath scriptPath. unfold generateThumbnail. cbv zeta.
  fold thumbnailPath scriptPath.
  apply spec_bind. unfold fs_writeFile at 1. apply spec_fs.
  destruct (fs_error E _); [discriminate|].
  destruct (files w !! scriptPath) as [[|c]|]; [discriminate| |].
  all: apply spec_bind, spec_try_catch, spec_bind, spec_runCommand; cbv zeta.
  all: destruct (exit_ok (exec E (blenderCommand E scriptPath) wd)).
  all: try (apply spec_ret, spec_ret; intros t [= <-]; split; [reflexivity | solve_extends]).
  all: apply spec_bind, spec_console.
  all: eapply (spec_framed no_select);
    [apply framed_ignore, framed_FileUpload_generateThumbnail|].
  all: intros w1 [[]|e] Hf; [|discriminate].
  all: apply spec_ret; intros t [= <-]; split; [reflexivity|].
  all: eapply extends_frame; [|exact Hf]; solve_extends.
Qed.

Lemma upload_spec f m fmt w :
  spec (settle (FileUploadService.uploadProcessedModel E f m fmt)) w
    (fun w' r => exists r0, r = Ok r0 /\ draws w' = S (draws w)
       /\ forall u, r0 = Ok u ->
           u = FileUploadService.file_url E (processedKey E m (draws w) fmt)
           /\ extends w [Fs (ReadFile f); S3Put (processedKey E m (draws w) fmt) (contentType fmt)] w').
Proof.
  unfold settle, FileUploadService.uploadProcessedModel.
  apply spec_try_catch, spec_bind, spec_try_catch, spec_bind, spec_draw_nanoid.
  apply spec_bind. unfold fs_readFile. apply spec_fs.
  destruct (fs_error E _).
  { apply spec_bind, spec_console, spec_throw, spec_ret.
    eexists. split; [reflexivity|]. split; [reflexivity | discriminate]. }
  destruct (_ !! f) as [[|c]|].
  1,3: apply spec_bind, spec_console, spec_throw, spec_ret;
    eexists; (split; [reflexivity|]); split; [reflexivity | discriminate].
  apply spec_bind. unfold FileUploadService.s3_put. apply spec_io. cbn [fst snd].
  destruct (s3_error E _).
  { apply spec_bind, spec_console, spec_throw, spec_ret.
    eexists. split; [reflexivity|]. split; [reflexivity | discriminate]. }
  apply spec_ret, spec_ret. eexists. split; [reflexivity|]. split; [reflexivity|].
  intros u [= <-]. split; [reflexivity|]. unfold processedKey, contentType. solve_extends.
Qed.


Lemma uploadAll_spec a b c m w :
  spec (uploadAll E a b c m) w
    (fun w' r => forall urls, r = Ok urls ->
       urls = (FileUploadService.file_url E (processedKey E m (draws w) "glb"),
               FileUploadService.file_url E (processedKey E m (S (draws w)) "usdz"),
               FileUploadService.file_url E (processedKey E m (S (S (draws w))) "jpg"))
       /\ draws w' = S (S (S (draws w)))
       /\ extends w [Fs (ReadFile a); S3Put (processedKey E m (draws w) "glb") "model/gltf-binary"] w').
Proof.
  unfold uploadAll.
  apply spec_bind. eapply spec_mono; [apply upload_spec|].
  intros w1 r1 (g & -> & Hd1 & Hg).
  apply spec_bind. eapply spec_mono;
    [apply spec_and; [apply upload_spec
                     | apply (framed_settle no_select job), framed_uploadProcessedModel]|].
  intros w2 r2 [(u & -> & Hd2 & Hu) Hf2]. cbv beta.
  apply spec_bind. eapply spec_mono;
    [apply spec_and; [apply upload_spec
                     | apply (framed_settle no_select job), framed_uploadProcessedModel]|].
  intros w3 r3 [(t & -> & Hd3 & Ht) Hf3]. cbv beta.
  destruct g as [gu|ge]; [|apply spec_throw; discriminate].
  destruct u as [uu|ue]; [|apply spec_throw; discriminate].
  destruct t as [tu|te]; [|apply spec_throw; discriminate].
  apply spec_ret. intros urls [= <-].
  destruct (Hg gu eq_refl) as [-> Hex]. destruct (Hu uu eq_refl) as [-> _].
  destruct (Ht tu eq_refl) as [-> _]. rewrite Hd3, Hd2, Hd1. split; [reflexivity|].
  split; [reflexivity|].
  eapply extends_frame; [|exact Hf3]. eapply extends_frame; [|exact Hf2]. exact Hex.
Qed.

Lemma generateQRCode_spec sl w :
  spec (generateQRCode E sl) w
    (fun w' r => exists qr, r = Ok qr /\ (qr = EmptyString \/ qr = qrUrl sl)
                 /\ extends w [QRCode (arUrl E sl)] w').
Proof.
  unfold generateQRCode. cbv zeta.
  apply spec_try_catch, spec_bind, spec_io. cbn [fst snd].
  destruct (qrcode_toBuffer E _).
  - apply spec_bind. unfold fs_writeFile. apply spec_fs.
    destruct (fs_error E _).
    + apply spec_bind, spec_console, spec_ret. eexists. split; [reflexivity|].
      split; [left; reflexivity | solve_extends].
    + destruct (_ !! _) as [[|c]|].
      * apply spec_bind, spec_console, spec_ret. eexists. split; [reflexivity|].
        split; [left; reflexivity | solve_extends].
      * apply spec_ret. eexists. split; [reflexivity|].
        split; [right; reflexivity | solve_extends].
      * apply spec_ret. eexists. split; [reflexivity|].
        split; [right; reflexivity | solve_extends].
  - apply spec_bind, spec_console, spec_ret. eexists. split; [reflexivity|].
    split; [left; reflexivity | solve_extends].
Qed.

Lemma cleanup_spec wd w :
  spec (cleanup E wd) w (fun w' r => r = Ok tt /\ extends w [Fs (Rm wd)] w').
Proof.
  unfold cleanup, fs_rm. apply spec_try_catch, spec_fs.
  destruct (fs_error E _).
  - apply spec_console. split; [reflexivity | solve_extends].
  - split; [reflexivity | solve_extends].
Qed.

(** What a write to the store does. *)
Lemma updateModel_spec key u w :
  spec (Storage.updateModel E key u) w
    (fun w' r =>
       heap w' = heap w /\ jobs w' = jobs w /\ now w' = now w /\ draws w' = draws w
       /\ files w' = files w
       /\ trace w' = (trace w ++ [Db (UpdateModel key u)])%list
       /\ match r with
          | Ok (Some m') =>
              exists m, models w !! key = Some m /\ m' = Model.apply u (now w) m
                        /\ models w' = <[key := m']> (models w)
                        /\ forall s, Model.p_shortLink u = Some s ->
                                     Storage.shortLink_taken (models w) key s = false
          | Ok None => models w !! key = None /\ models w' = models w
          | Error _ => models w' = models w
          end).
Proof.
  unfold Storage.updateModel. apply spec_io. unfold Storage.db_call. cbn [fst snd].
  destruct (db_error E _); [cbn; repeat split; reflexivity|].
  cbn [models emit]. destruct (models w !! key) as [m|] eqn:Hm.
  - destruct (Model.p_shortLink u) as [s|] eqn:Hs.
    + destruct (Storage.shortLink_taken (models w) key s) eqn:Ht.
      * cbn. repeat split; reflexivity.
      * cbn. repeat split; try reflexivity. exists m. repeat split; try reflexivity.
        intros s' [= <-]. exact Ht.
    + cbn. repeat split; try reflexivity. exists m. repeat split; try reflexivity.
      discriminate.
  - cbn. repeat split; reflexivity.
Qed.

End Stages.

Section Chain.
Context (E : Env) (job : nat).
Import ModelConversionService.

Lemma progress_refl P w : progress P w w.
Proof.
  split; try reflexivity. exists []. split; [symmetry; apply app_nil_r | reflexivity].
Qed.

Lemma progress_trans P w1 w2 w3 : progress P w1 w2 -> progress P w2 w3 -> progress P w1 w3.
Proof.
  intros [a1 b1 c1 d1 (t1 & h1 & i1)] [a2 b2 c2 d2 (t2 & h2 & i2)].
  split; try congruence; try lia.
  exists (t1 ++ t2)%list. split.
  - rewrite h2, h1. symmetry. apply app_assoc.
  - rewrite forallb_app, i1, i2. reflexivity.
Qed.

Lemma frame_progress P w w' : frame P job w w' -> progress P w w'.
Proof. intros [a b c d e f g h]. split; assumption. Qed.

Lemma progress_assign P r f w : progress P w (set_heap (alter f r (heap w)) w).
Proof.
  split; try reflexivity.
  - simpl. apply length_alter.
  - exists []. split; [symmetry; apply app_nil_r | reflexivity].
Qed.

Lemma job_at_assign f w :
  (job < List.length (heap w))%nat ->
  job_at (set_heap (alter f job (heap w)) w) job = f (job_at w job).
Proof.
  intros Hv. rewrite job_at_alter. unfold job_at.
  destruct (lookup_lt_is_Some_2 (heap w) job Hv) as [j ->]. reflexivity.
Qed.

Lemma track_frame P j w w1 w2 :
  track P job j w w1 -> frame P job w1 w2 -> track P job j w w2.
Proof.
  intros (Hp & Hv & Hj) F. split; [|split].
  - eapply progress_trans; [exact Hp | apply frame_progress, F].
  - rewrite (fr_length _ _ _ _ F). exact Hv.
  - eapply same_job_trans; [exact Hj | apply (fr_job _ _ _ _ F)].
Qed.

Lemma track_assign P j f w w1 :
  track P job j w w1 ->
  (forall a b, same_job a b -> same_job (f a) (f b)) ->
  track P job (f j) w (set_heap (alter f job (heap w1)) w1).
Proof.
  intros (Hp & Hv & Hj) Hf. split; [|split].
  - eapply progress_trans; [exact Hp | apply progress_assign].
  - simpl. rewrite length_alter. exact Hv.
  - rewrite job_at_assign by exact Hv. apply Hf, Hj.
Qed.

Lemma same_job_set_status s a b : same_job a b -> same_job (Job.set_status s a) (Job.set_status s b).
Proof. unfold same_job. simpl. intuition. Qed.
Lemma same_job_set_outputFiles o a b :
  same_job a b -> same_job (Job.set_outputFiles o a) (Job.set_outputFiles o b).
Proof. unfold same_job. simpl. intuition. Qed.
Lemma same_job_set_endTime d a b :
  same_job a b -> same_job (Job.set_endTime d a) (Job.set_endTime d b).
Proof. unfold same_job. simpl. intuition. Qed.
Lemma same_job_set_error e a b :
  same_job a b -> same_job (Job.set_error e a) (Job.set_error e b).
Proof. unfold same_job. simpl. intuition. Qed.

Lemma rows_kept_refl w : rows_kept w w.
Proof. intros k. apply same_models_refl. Qed.

Lemma rows_kept_trans w1 w2 w3 : rows_kept w1 w2 -> rows_kept w2 w3 -> rows_kept w1 w3.
Proof.
  intros H1 H2 k. specialize (H1 k). specialize (H2 k).
  destruct H1 as [x y Hxy|]; inversion H2 as [y' z Hyz|]; subst; constructor.
  eapply same_model_trans; eauto.
Qed.

Lemma frame_rows_kept P w w' : frame P job w w' -> rows_kept w w'.
Proof. intros F k. apply (fr_models _ _ _ _ F). Qed.

Lemma spec_log msg {B} (rest : Async B) w1 (Q : World -> Result B -> Prop) :
  (forall w2, frame no_select job w1 w2 -> spec rest w2 Q) ->
  spec (updateJobLogs E job msg >> rest) w1 Q.
Proof.
  intros H. apply spec_bind.
  eapply spec_mono; [apply (updateJobLogs_spec E job no_select); reflexivity|].
  intros w2 r [-> F]. apply H, F.
Qed.

Lemma spec_stage {A B} (m : Async A) (f : A -> Async B) w1
    (S : World -> Result A -> Prop) (Q : World -> Result B -> Prop) :
  framed no_select job m -> spec m w1 S ->
  (forall w2 r, frame no_select job w1 w2 -> S w2 r ->
                match r with Ok a => spec (f a) w2 Q | Error e => Q w2 (Error e) end) ->
  spec (bind m f) w1 Q.
Proof.
  intros Hm Hs H. apply spec_bind.
  eapply spec_mono; [apply spec_and; [apply Hm | apply Hs]|].
  intros w2 r [F S2]. specialize (H w2 r F S2). destruct r; exact H.
Qed.

Lemma shortLink_taken_false rows key s :
  Storage.shortLink_taken rows key s = false ->
  forall k m, rows !! k = Some m -> k <> key -> Model.shortLink m <> Some s.
Proof.
  unfold Storage.shortLink_taken. intros H k m Hk Hne Hs.
  assert (Hex : existsb (fun '(k, m) =>
             negb (String.eqb k key)
             && match Model.shortLink m with
                | Some s' => String.eqb s' s
                | None => false
                end) (map_to_list rows) = true).
  { apply existsb_exists. exists (k, m). split.
    - apply list_elem_of_In, elem_of_map_to_list, Hk.
    - rewrite Hs, String.eqb_refl, andb_true_r.
      apply negb_true_iff, String.eqb_neq, Hne. }
  congruence.
Qed.

End Chain.

Section Conversion.
Context (E : Env) (job : nat).

Lemma track_error j w w' :
  track no_select job j w w' -> Job.status j = Job.processing ->
  progress no_select w w' /\ (job < List.length (heap w'))%nat
  /\ Job.status (job_at w' job) = Job.processing.
Proof.
  intros (Hp & Hv & Hj) Hs. split; [exact Hp|]. split; [exact Hv|].
  destruct Hj as (_ & _ & H & _). congruence.
Qed.

Lemma after_extends w0 l w evs w' :
  after w0 l w -> extends w evs w' -> after w0 (l ++ evs)%list w'.
Proof. intros A (t & Ht). eapply after_snoc; eauto. Qed.

Lemma after_same w0 l w w' : after w0 l w -> trace w' = trace w -> after w0 l w'.
Proof.
  intros A Ht. eapply after_more; [exact A|]. rewrite Ht. symmetry. apply app_nil_r.
Qed.

Lemma rows_kept_same w0 w w' : rows_kept w0 w -> models w' = models w -> rows_kept w0 w'.
Proof. intros R H k. rewrite H. apply R. Qed.

Lemma rows_kept_lookup w w' key m :
  rows_kept w w' -> models w !! key = Some m ->
  exists m', models w' !! key = Some m' /\ same_model m m'.
Proof.
  intros R H. specialize (R key). rewrite H in R.
  inversion R as [x m' Hs Hx Hm'|]. exists m'. split; [reflexivity | exact Hs].
Qed.

Lemma rows_kept_lookup_inv w w' key m' :
  rows_kept w w' -> models w' !! key = Some m' ->
  exists m, models w !! key = Some m /\ same_model m m'.
Proof.
  intros R H. specialize (R key). rewrite H in R.
  inversion R as [m x Hs Hm Hx|]. exists m. split; [reflexivity | exact Hs].
Qed.

Lemma track_write j w w1 w2 key u :
  track no_select job j w w1 ->
  heap w2 = heap w1 -> jobs w2 = jobs w1 -> now w2 = now w1 -> draws w2 = draws w1 ->
  trace w2 = (trace w1 ++ [Db (UpdateModel key u)])%list ->
  track no_select job j w w2.
Proof.
  intros (Hp & Hv & Hj) Hh Hjs Hn Hd Ht. split; [|split].
  - eapply progress_trans; [exact Hp|]. split; try congruence; try lia.
    exists [Db (UpdateModel key u)]. split; [exact Ht | reflexivity].
  - rewrite Hh. exact Hv.
  - unfold job_at in *. rewrite Hh. exact Hj.
Qed.

Ltac advance F :=
  lazymatch type of F with
  | frame _ _ ?x ?y =>
      repeat match goal with
      | T : track _ _ _ _ x |- _ => apply (fun t => track_frame _ _ _ _ _ _ t F) in T
      | A : after _ _ x |- _ => apply (fun a => after_frame _ _ _ _ _ _ a F) in A
      | R : rows_kept _ x |- _ =>
          apply (fun r => rows_kept_trans _ _ _ r (frame_rows_kept _ _ _ _ F)) in R
      end
  end.

Ltac fails T HSt :=
  eapply track_error; [exact T | exact HSt].

Lemma conversion_spec w :
  (job < List.length (heap w))%nat ->
  spec (conversion E job) w
    (fun w' r =>
       progress no_select w w' /\ (job < List.length (heap w'))%nat
       /\ match r with
          | Ok _ => exists opt k ks qr, completed E job w w' opt k ks qr
          | Error _ => Job.status (job_at w' job) = Job.processing
          end).
Proof.
  intros Hv. set (j0 := job_at w job). unfold conversion.
  apply spec_bind, spec_assign.
  assert (T : track no_select job (Job.set_status Job.processing j0) w
                (set_heap (alter (Job.set_status Job.processing) job (heap w)) w)).
  { apply (track_assign job no_select j0 _ w w); [|apply same_job_set_status].
    split; [apply progress_refl|]. split; [exact Hv | apply same_job_refl]. }
  assert (A : after w [] (set_heap (alter (Job.set_status Job.processing) job (heap w)) w))
    by (eapply after_same; [apply after_nil | reflexivity]).
  assert (R : rows_kept w (set_heap (alter (Job.set_status Job.processing) job (heap w)) w))
    by (eapply rows_kept_same; [apply rows_kept_refl | reflexivity]).
  set (wa := set_heap _ w) in *. clearbody wa.
  set (St := Job.set_status Job.processing j0) in *.
  assert (HSt : Job.status St = Job.processing) by reflexivity.
  apply spec_log. intros w1 F1. advance F1.
  apply spec_bind, spec_read_job.
  assert (Hid : Job.id (job_at w1 job) = Job.id j0) by (destruct T as (_ & _ & H); apply H).
  assert (Hmid : Job.modelId (job_at w1 job) = Job.modelId j0)
    by (destruct T as (_ & _ & H); apply H).
  cbv zeta. rewrite Hid, Hmid. fold (workDir E j0).
  (* mkdir *)
  apply (spec_seq job no_select); [unfold fs_mkdir; framed_auto | | ].
  2:{ intros w2 e F2. advance F2. fails T HSt. }
  intros w2 _ F2. advance F2.
  (* convert *)
  assert (Hin2 : Job.inputFile (job_at w2 job) = Job.inputFile j0)
    by (destruct T as (_ & _ & H); apply H).
  apply (spec_stage job) with
    (S := fun w' r => forall g, r = Ok g ->
       g = Node.path_join (workDir E j0) "model.glb"
       /\ exists conv,
            (conv = Fs (CopyFile (Job.inputFile (job_at w2 job))
                          (Node.path_join (workDir E j0) "model.glb"))
             \/ conv = Exec (gltfPipelineCommand (Job.inputFile (job_at w2 job))
                               (Node.path_join (workDir E j0) "model.glb")) (workDir E j0)
             \/ conv = Exec (blenderCommand E (Node.path_join (workDir E j0) "convert.py"))
                            (workDir E j0))
            /\ after w2 [conv] w');
    [apply framed_convert | apply convert_spec |].
  intros w3 [g|e] F3 Hg; [|advance F3; fails T HSt].
  destruct (Hg g eq_refl) as (-> & conv & Hconv & X3). clear Hg.
  rewrite Hin2 in Hconv. fold (glbPath E j0) in *.
  apply (after_after _ _ _ _ _ A) in X3. clear A. rename X3 into A. cbn [app] in A.
  advance F3.
  apply spec_log. intros w4 F4. advance F4.
  (* analyze *)
  apply (spec_stage job) with
    (S := fun w' r => is_ok r /\ extends w4 [Fs (Stat (glbPath E j0))] w');
    [apply framed_analyzeModel | apply analyzeModel_spec |].
  intros w5 [md|e] F5 [Hok X5]; [|destruct Hok].
  apply (after_extends _ _ _ _ _ A) in X5. clear A. advance F5.
  apply spec_log. intros w6 F6. advance F6.
  (* optimize *)
  apply (spec_stage job) with
    (S := fun w' r => exists opt, r = Ok opt
            /\ (opt = glbPath E j0 \/ opt = Node.path_join (workDir E j0) "optimized.glb")
            /\ (exit_ok (exec E (optimizeCommand (glbPath E j0)
                                   (Node.path_join (workDir E j0) "optimized.glb"))
                           (workDir E j0)) = false -> opt = glbPath E j0)
            /\ extends w6 [Exec (optimizeCommand (glbPath E j0)
                                   (Node.path_join (workDir E j0) "optimized.glb"))
                                (workDir E j0)] w');
    [apply framed_optimizeForWebAR | apply optimizeForWebAR_spec |].
  intros w7 r F7 (opt & -> & Hopt & Hun & X7).
  fold (optimizedPath E j0) in *.
  apply (after_extends _ _ _ _ _ X5) in X7. clear X5. advance F7.
  apply spec_log. intros w8 F8. advance F8.
  (* usdz *)
  apply (spec_stage job) with
    (S := fun w' r => (forall u, r = Ok u -> u = Node.path_join (workDir E j0) "model.usdz")
            /\ extends w8 [Exec (usdzCommand opt (Node.path_join (workDir E j0) "model.usdz"))
                                (workDir E j0)] w');
    [apply framed_generateUSDZ | apply generateUSDZ_spec |].
  intros w9 [u|e] F9 [Hu X9]; [|advance F9; fails T HSt].
  rewrite (Hu u eq_refl). clear Hu u. fold (usdzPath E j0) in *.
  apply (after_extends _ _ _ _ _ X7) in X9. clear X7. advance F9.
  apply spec_log. intros w10 F10. advance F10.
  (* thumbnail *)
  apply (spec_stage job) with
    (S := fun w' r => forall t, r = Ok t ->
            t = Node.path_join (workDir E j0) "thumbnail.jpg"
            /\ extends w10
                 [Fs (WriteFile (Node.path_join (workDir E j0) "thumbnail.py")
                        (thumbnailScript opt (Node.path_join (workDir E j0) "thumbnail.jpg")));
                  Exec (blenderCommand E (Node.path_join (workDir E j0) "thumbnail.py"))
                       (workDir E j0)] w');
    [apply framed_generateThumbnail | apply (generateThumbnail_spec E job) |].
  intros w11 [t|e] F11 Ht; [|advance F11; fails T HSt].
  destruct (Ht t eq_refl) as [-> X11]. clear Ht.
  fold (thumbnailPath E j0) in *. fold (thumbnailScriptPath E j0) in *.
  apply (after_extends _ _ _ _ _ X9) in X11. clear X9. advance F11.
  apply spec_log. intros w12 F12. advance F12.
  (* uploads *)
  apply (spec_stage job) with
    (S := fun w' r => forall urls, r = Ok urls ->
       urls = (FileUploadService.file_url E (processedKey E (Job.modelId j0) (draws w12) "glb"),
               FileUploadService.file_url E (processedKey E (Job.modelId j0) (S (draws w12)) "usdz"),
               FileUploadService.file_url E (processedKey E (Job.modelId j0) (S (S (draws w12))) "jpg"))
       /\ draws w' = S (S (S (draws w12)))
       /\ extends w12 [Fs (ReadFile opt);
                       S3Put (processedKey E (Job.modelId j0) (draws w12) "glb")
                             "model/gltf-binary"] w');
    [apply framed_uploadAll | apply (uploadAll_spec E job) |].
  intros w13 [urls|e] F13 Hup; [|advance F13; fails T HSt].
  destruct (Hup urls eq_refl) as (-> & D13 & X13). clear Hup.
  assert (D12 : (draws w <= draws w12)%nat) by (destruct T as ([] & _); assumption).
  apply (after_extends _ _ _ _ _ X11) in X13. clear X11. advance F13.
  set (k := draws w12) in *. clearbody k.
  fold (processedUrl E j0 k "glb") (processedUrl E j0 (S k) "usdz")
       (processedUrl E j0 (S (S k)) "jpg").
  set (out := {| Job.glb := Some (processedUrl E j0 k "glb");
                 Job.usdz := Some (processedUrl E j0 (S k) "usdz");
                 Job.thumbnail := Some (processedUrl E j0 (S (S k)) "jpg") |}).
  cbv beta iota.
  (* outputs *)
  apply spec_bind, spec_assign.
  apply (fun t => track_assign job no_select St (Job.set_outputFiles out) w w13 t
                    (same_job_set_outputFiles out)) in T.
  apply (fun a => after_same _ _ _ (set_heap (alter (Job.set_outputFiles out) job (heap w13)) w13)
                    a eq_refl) in X13.
  apply (fun r => rows_kept_same _ _ (set_heap (alter (Job.set_outputFiles out) job (heap w13)) w13)
                    r eq_refl) in R.
  assert (D14 : draws (set_heap (alter (Job.set_outputFiles out) job (heap w13)) w13)
                = S (S (S k))) by exact D13.
  set (w14 := set_heap _ w13) in *. clearbody w14. clear D13.
  set (So := Job.set_outputFiles out St) in *.
  assert (HSo : Job.status So = Job.processing) by reflexivity.
  apply spec_log. intros w15 F15.
  assert (D15 : (k + 3 <= draws w15)%nat).
  { pose proof (fr_draws _ _ _ _ F15). lia. }
  advance F15.
  (* short link *)
  apply spec_bind, spec_draw_nanoid.
  pose proof (frame_next_draw no_select job w15) as F16. advance F16.
  assert (D16 : draws (next_draw w15) = S (draws w15)) by reflexivity.
  set (ks := draws w15) in *.
  set (w16 := next_draw w15) in *. clearbody w16. clear F16.
  (* QR code *)
  apply (spec_stage job) with
    (S := fun w' r => exists qr, r = Ok qr
            /\ (qr = EmptyString \/ qr = qrUrl (nanoid E 8 ks))
            /\ extends w16 [QRCode (arUrl E (nanoid E 8 ks))] w');
    [apply framed_generateQRCode | apply generateQRCode_spec |].
  intros w17 r F17 (qr & -> & Hqr & X17).
  assert (D17 : (ks < draws w17)%nat).
  { pose proof (fr_draws _ _ _ _ F17). lia. }
  apply (after_extends _ _ _ _ _ X13) in X17. clear X13. advance F17.
  apply spec_bind, spec_read_job.
  (* the final write *)
  apply spec_bind. eapply spec_mono; [apply updateModel_spec|].
  intros w18 r (Hh & Hjs & Hn & Hd & Hfi & Htr & Hr).
  pose proof (track_write _ _ _ w18 _ _ T Hh Hjs Hn Hd Htr) as T18.
  destruct r as [om|e]; [|fails T18 HSo].
  eapply (after_snoc w _ w17 w18 _ []) in X17; [|rewrite app_nil_r; exact Htr].
  cbn [app] in X17.
  assert (R18 : rows_kept w18 w18) by apply rows_kept_refl.
  (* complete *)
  apply spec_bind, spec_assign.
  apply (fun t => track_assign job no_select So (Job.set_status Job.complete) w w18 t
                    (same_job_set_status Job.complete)) in T18.
  apply (fun a => after_same _ _ _
                    (set_heap (alter (Job.set_status Job.complete) job (heap w18)) w18)
                    a eq_refl) in X17.
  apply (fun r => rows_kept_same _ _
                    (set_heap (alter (Job.set_status Job.complete) job (heap w18)) w18)
                    r eq_refl) in R18.
  assert (D19 : draws (set_heap (alter (Job.set_status Job.complete) job (heap w18)) w18)
                = draws w17) by exact Hd.
  set (w19 := set_heap _ w18) in *. clearbody w19.
  apply spec_bind, spec_new_Date.
  assert (Hnow : now w19 = now w) by (destruct T18 as ([] & _); assumption).
  rewrite Hnow.
  apply spec_bind, spec_assign.
  apply (fun t => track_assign job no_select _ (Job.set_endTime (now w)) w w19 t
                    (same_job_set_endTime (now w))) in T18.
  apply (fun a => after_same _ _ _
                    (set_heap (alter (Job.set_endTime (now w)) job (heap w19)) w19)
                    a eq_refl) in X17.
  apply (fun r => rows_kept_same _ _
                    (set_heap (alter (Job.set_endTime (now w)) job (heap w19)) w19)
                    r eq_refl) in R18.
  assert (D20 : draws (set_heap (alter (Job.set_endTime (now w)) job (heap w19)) w19)
                = draws w17) by exact D19.
  set (w20 := set_heap _ w19) in *. clearbody w20.
  apply spec_log. intros w21 F21.
  assert (D21 : (ks < draws w21)%nat).
  { pose proof (fr_draws _ _ _ _ F21). lia. }
  advance F21.
  eapply spec_mono; [apply spec_and; [apply cleanup_spec | apply (framed_cleanup E job)]|].
  intros w22 r [[-> X22] F22].
  assert (D22 : (ks < draws w22)%nat).
  { pose proof (fr_draws _ _ _ _ F22). lia. }
  apply (after_extends _ _ _ _ _ X17) in X22. clear X17. cbn [app] in X22.
  advance F22.
  destruct T18 as (P22 & V22 & J22).
  split; [exact P22|]. split; [exact V22|].
  exists opt, k, ks, qr.
  destruct J22 as (_ & _ & Jst & _ & Jout & _ & Jend & _).
  split.
  - exact Jst.
  - exact Jend.
  - exact Jout.
  - exact Hopt.
  - exact Hun.
  - lia.
  - exact Hqr.
  - exists conv, md, (Job.logs (job_at w17 job)). split; [exact Hconv | exact X22].
  - intros m0 Hm0. fold j0 in Hm0.
    destruct (rows_kept_lookup _ _ _ _ R Hm0) as (m17 & Hm17 & _).
    destruct om as [m'|]; [|destruct Hr as [Hnone _]; congruence].
    destruct Hr as (m & Hm & -> & Hrows & _).
    assert (H18 : models w18 !! Job.modelId j0
                  = Some (Model.apply
                            (final_patch (processedUrl E j0 k "glb")
                               (processedUrl E j0 (S k) "usdz")
                               (processedUrl E j0 (S (S k)) "jpg")
                               (nanoid E 8 ks) qr md (Job.logs (job_at w17 job)))
                            (now w17) m))
      by (rewrite Hrows; apply lookup_insert_eq).
    destruct (rows_kept_lookup _ _ _ _ R18 H18) as (m22 & Hm22 & Hsame22).
    exists m22. split; [exact Hm22|].
    destruct Hsame22 as (_ & _ & _ & _ & Hg & Hu & Ht & Hs & Hsl & Hq & _).
    rewrite Hsl, Hq, Hs, Hg, Hu, Ht. repeat split.
  - intros m0 Hm0 key m Hne Hkey. fold j0 in Hm0, Hne.
    destruct (rows_kept_lookup _ _ _ _ R Hm0) as (m17 & Hm17 & _).
    destruct om as [m'|]; [|destruct Hr as [Hnone _]; congruence].
    destruct Hr as (m1 & Hm1 & -> & Hrows & Htaken).
    destruct (rows_kept_lookup_inv _ _ _ _ R18 Hkey) as (m18 & Hm18 & Hsame22).
    rewrite Hrows, lookup_insert_ne in Hm18 by congruence.
    destruct Hsame22 as (_ & _ & _ & _ & _ & _ & _ & _ & Hsl & _).
    rewrite Hsl.
    eapply shortLink_taken_false; [apply Htaken; reflexivity | exact Hm18 | exact Hne].
Qed.

End Conversion.

Section Process.
Context (E : Env) (job : nat).

Lemma progress_emit (P : Effect -> bool) ev w : P ev = true -> progress P w (emit ev w).
Proof.
  intros HP. split; try reflexivity.
  exists [ev]. split; [reflexivity | simpl; rewrite HP; reflexivity].
Qed.

Lemma progress_emit_files (P : Effect -> bool) ev fs w :
  P ev = true -> progress P w (set_files fs (emit ev w)).
Proof.
  intros HP. split; try reflexivity.
  exists [ev]. split; [reflexivity | simpl; rewrite HP; reflexivity].
Qed.

Lemma progress_write P w w' key u :
  P (Db (UpdateModel key u)) = true ->
  heap w' = heap w -> jobs w' = jobs w -> now w' = now w -> draws w' = draws w ->
  trace w' = (trace w ++ [Db (UpdateModel key u)])%list ->
  progress P w w'.
Proof.
  intros HP Hh Hj Hn Hd Ht. split; try congruence; try lia.
  exists [Db (UpdateModel key u)]. split; [exact Ht | simpl; rewrite HP; reflexivity].
Qed.

(** The [catch] block: the job ends failed, with the error that was
    caught. *)
Lemma conversion_failed_spec P error w :
  (forall l m, P (Console l m) = true) -> (forall k u, P (Db (UpdateModel k u)) = true) ->
  (job < List.length (heap w))%nat ->
  spec (conversion_failed E job error) w
    (fun w' r =>
       progress P w w' /\ (job < List.length (heap w'))%nat
       /\ Job.status (job_at w' job) = Job.failed
       /\ Job.error (job_at w' job) = Some error
       /\ Job.endTime (job_at w' job) = Some (now w)
       /\ same_identity (job_at w job) (job_at w' job)).
Proof.
  intros HC HD Hv. unfold conversion_failed.
  apply spec_bind, spec_console.
  apply spec_bind, spec_assign.
  apply spec_bind, spec_assign.
  apply spec_bind, spec_new_Date.
  apply spec_bind, spec_assign.
  apply spec_bind, spec_read_job.
  set (w4 := set_heap _ (set_heap _ (set_heap _ (emit _ w)))).
  assert (P4 : progress P w w4).
  { eapply progress_trans; [apply progress_emit, HC|].
    eapply progress_trans; [apply progress_assign|].
    eapply progress_trans; [apply progress_assign|]. apply progress_assign. }
  assert (V4 : (job < List.length (heap w4))%nat).
  { rewrite (pg_length _ _ _ P4). exact Hv. }
  assert (J4 : job_at w4 job
               = Job.set_endTime (now w)
                   (Job.set_error error (Job.set_status Job.failed (job_at w job)))).
  { unfold w4. rewrite !job_at_assign; simpl; rewrite ?length_alter; auto. }
  clearbody w4.
  apply spec_bind. eapply spec_mono; [apply updateModel_spec|].
  intros w5 r (Hh & Hjs & Hn & Hd & _ & Htr & _).
  assert (P5 : progress P w w5).
  { eapply progress_trans; [exact P4|]. eapply progress_write; eauto. }
  assert (J5 : job_at w5 job = job_at w4 job) by (unfold job_at; rewrite Hh; reflexivity).
  destruct r as [om|e].
  - eapply spec_mono; [apply (updateJobLogs_spec E job P); assumption|].
    intros w6 r [-> F6]. split; [|split].
    + eapply progress_trans; [exact P5 | eapply frame_progress, F6].
    + rewrite (fr_length _ _ _ _ F6), Hh. exact V4.
    + destruct (fr_job _ _ _ _ F6) as (Hi & Hm & Hst & Hin & _ & _ & Hend & Herr & _).
      unfold same_identity. rewrite Hst, Herr, Hend, Hi, Hm, Hin, J5, J4. repeat split.
  - split; [exact P5|]. split; [rewrite Hh; exact V4|].
    unfold same_identity. rewrite J5, J4. repeat split.
Qed.

Lemma progress_weaken (P P' : Effect -> bool) w w' :
  (forall ev, P ev = true -> P' ev = true) -> progress P w w' -> progress P' w w'.
Proof.
  intros HP [a b c d (t & h & i)]. split; auto.
  exists t. split; [exact h|]. apply forallb_forall. intros ev Hin.
  apply HP. rewrite forallb_forall in i. auto.
Qed.

(** [processConversion] ends with the job failed, or with everything a
    completed conversion has done. *)
Lemma processConversion_spec w :
  (job < List.length (heap w))%nat ->
  spec (processConversion E job) w
    (fun w' r =>
       progress no_select w w' /\ (job < List.length (heap w'))%nat
       /\ (Job.status (job_at w' job) = Job.failed
           \/ exists opt k ks qr, completed E job w w' opt k ks qr)).
Proof.
  intros Hv. unfold processConversion. apply spec_try_catch.
  eapply spec_mono; [apply conversion_spec, Hv|].
  intros w1 [[]|e] (P1 & V1 & H1).
  - split; [exact P1|]. split; [exact V1|]. right. exact H1.
  - eapply spec_mono; [apply (conversion_failed_spec no_select); auto|].
    intros w2 r (P2 & V2 & Hst & _). split; [|split; [exact V2 | left; exact Hst]].
    eapply progress_trans; eauto.
Qed.

End Process.

Lemma resume_run {A} (m : Async A) w p :
  run (resume m w p).2 (resume m w p).1.1 (resume m w p).1.2 = run m w p.
Proof.
  revert w p. induction m as [A a|A e|A X op k IH|A k IH|A t IHt k IH]; intros w p; simpl;
    try reflexivity.
  - destruct (op w) as [w' x]. apply IH.
  - destruct (resume t w p) as [[w' p'] t']. apply IH.
Qed.

Lemma keep_pool t (p : list (Async unit)) : exists q, keep t p = (p ++ q)%list.
Proof.
  unfold keep. destruct (finished t); [exists []; symmetry; apply app_nil_r | eauto].
Qed.

Lemma resume_pool {A} (m : Async A) w p : exists q, (resume m w p).1.2 = (p ++ q)%list.
Proof.
  revert w p. induction m as [A a|A e|A X op k IH|A k IH|A t IHt k IH]; intros w p; simpl;
    try (exists []; symmetry; apply app_nil_r).
  - destruct (op w) as [w' x]. apply IH.
  - destruct (resume t w p) as [[w' p'] t'] eqn:Ht.
    destruct (IHt w p) as (q1 & H1). rewrite Ht in H1. simpl in H1. subst p'.
    destruct (keep_pool t' (p ++ q1)%list) as (q2 & ->).
    destruct (IH w' ((p ++ q1) ++ q2)%list) as (q3 & ->).
    exists (q1 ++ q2 ++ q3)%list. rewrite <- !app_assoc. reflexivity.
Qed.

Lemma run_pool {A} (m : Async A) w p : exists q, (run m w p).1.2 = (p ++ q)%list.
Proof.
  revert w p. induction m as [A a|A e|A X op k IH|A k IH|A t IHt k IH]; intros w p; simpl;
    try (exists []; symmetry; apply app_nil_r).
  - destruct (op w) as [w' x]. apply IH.
  - apply IH.
  - destruct (resume_pool t w p) as (q1 & H1).
    destruct (resume t w p) as [[w' p'] t'] eqn:Ht. simpl in H1. subst p'.
    destruct (keep_pool t' (p ++ q1)%list) as (q2 & ->).
    destruct (IH w' ((p ++ q1) ++ q2)%list) as (q3 & ->).
    exists (q1 ++ q2 ++ q3)%list. rewrite <- !app_assoc. reflexivity.
Qed.

(** A task that spawns nothing, started without being awaited: once it
    has run to its end, the world is the one its run leads to. *)
Lemma spec_spawn (m : Async unit) w (Q : World -> Result unit -> Prop) :
  spec m w Q ->
  (resume m w []).1.2 = []
  /\ exists r, Q (settled (resume m w []).1.1 (keep (resume m w []).2 [])) r.
Proof.
  intros H. destruct (H []) as (w' & r & Hr & Hq).
  pose proof (resume_run m w []) as Hrr. rewrite Hr in Hrr.
  destruct (resume m w []) as [[w1 p1] t'] eqn:Hres. simpl in *.
  destruct (run_pool t' w1 p1) as (q & Hq'). rewrite Hrr in Hq'. simpl in Hq'.
  destruct p1; [|discriminate]. split; [reflexivity|]. exists r.
  unfold keep. destruct (finished t') eqn:Hf.
  - simpl. destruct t'; try discriminate; simpl in Hrr; inversion Hrr; subst; exact Hq.
  - simpl. unfold world_after. rewrite Hrr. exact Hq.
Qed.

Lemma run_spawn_ret {A} (t : Async unit) (a : A) w p :
  run (Spawn t (Ret a)) w p
  = ((resume t w p).1.1, keep (resume t w p).2 (resume t w p).1.2, Ok a).
Proof. simpl. destruct (resume t w p) as [[w' p'] t']. reflexivity. Qed.

Section Submit.
Context (E : Env).

(** What [convertModel] does: the job is made and registered, then either
    the store takes the first write and the conversion is started from
    the world [ws], or the store fails and so does the call. *)
Lemma conversion_not_started_spec job modelId error w :
  (job < List.length (heap w))%nat ->
  spec (conversion_not_started E job modelId error) w
    (fun w' r =>
       (exists e, r = Error e) /\ progress no_exec w w' /\ heap w' !! job
         = Some (Job.set_error error (Job.set_status Job.failed (job_at w job)))).
Proof.
  intros Hv. unfold conversion_not_started.
  apply spec_bind, spec_console.
  apply spec_bind, spec_assign.
  apply spec_bind, spec_assign.
  apply spec_bind, spec_read_job.
  set (w3 := set_heap _ (set_heap _ (emit _ w))).
  assert (P3 : progress no_exec w w3).
  { eapply progress_trans;
      [apply (progress_emit no_exec (Console Err ("Error starting conversion: " ++ error)));
       reflexivity|].
    eapply progress_trans; apply progress_assign. }
  assert (J3 : heap w3 !! job
               = Some (Job.set_error error (Job.set_status Job.failed (job_at w job)))).
  { unfold w3, job_at. simpl. rewrite !list_lookup_alter_eq.
    destruct (lookup_lt_is_Some_2 (heap w) job Hv) as [j ->]. reflexivity. }
  clearbody w3.
  apply spec_bind. eapply spec_mono; [apply updateModel_spec|].
  intros w4 r (Hh & Hjs & Hn & Hd & _ & Htr & _).
  assert (P4 : progress no_exec w w4).
  { eapply progress_trans; [exact P3|]. eapply progress_write; eauto. }
  destruct r; [apply spec_throw|]; (split; [eexists; reflexivity|]); (split; [exact P4|]);
    rewrite Hh; exact J3.
Qed.

Lemma convertModel_run modelId path w :
  let jobId := nanoid E 12 (draws w) in
  let job := List.length (heap w) in
  let w1 := (run (convertModel E modelId path) w []).1.1 in
  let pool1 := (run (convertModel E modelId path) w []).1.2 in
  let r := (run (convertModel E modelId path) w []).2 in
  (exists ws, r = Ok jobId
      /\ heap ws = (heap w ++ [new_job jobId modelId path (now w)])%list
      /\ jobs ws = <[jobId := job]> (jobs w) /\ now ws = now w
      /\ trace ws = (trace w ++ [Db (UpdateModel modelId started)])%list
      /\ w1 = (resume (processConversion E job) ws []).1.1
      /\ pool1 = keep (resume (processConversion E job) ws []).2
                      (resume (processConversion E job) ws []).1.2
      /\ files ws = files w
      /\ forall k, is_Some (models w !! k) -> is_Some (models ws !! k))
  \/ (exists msg, (exists e, r = Error e)
      /\ db_error E (UpdateModel modelId started) = Some msg
      /\ pool1 = []
      /\ jobs w1 = <[jobId := job]> (jobs w) /\ now w1 = now w
      /\ List.length (heap w1) = S (List.length (heap w))
      /\ job_at w1 job
         = Job.set_error msg (Job.set_status Job.failed (new_job jobId modelId path (now w)))
      /\ exists d, trace w1 = (trace w ++ d)%list /\ forallb no_exec d = true).
Proof.
  intros jobId job w1 pool1 r. subst w1 pool1 r.
  unfold convertModel. cbn [bind sync act draw_nanoid new_Date run].
  change (heap (next_draw w)) with (heap w). change (now (next_draw w)) with (now w).
  fold jobId. fold job. fold (new_job jobId modelId path (now w)). fold started.
  set (wc := set_jobs _ _).
  assert (Hjc : jobs wc = <[jobId := job]> (jobs w)) by reflexivity.
  assert (Hhc : heap wc = (heap w ++ [new_job jobId modelId path (now w)])%list) by reflexivity.
  assert (Hnc : now wc = now w) by reflexivity.
  assert (Htc : trace wc = trace w) by reflexivity.
  assert (Hmc : models wc = models w) by reflexivity.
  assert (Hfc : files wc = files w) by reflexivity.
  clearbody wc.
  rewrite run_try_catch, run_bind.
  destruct (updateModel_spec E modelId started wc [])
    as (wd & r & Hr & Hh & Hj & Hn & Hd & Hf & Ht & Hm).
  rewrite Hr. destruct r as [om|msg].
  - left. exists wd. rewrite run_spawn_ret. cbn [fst snd].
    rewrite Hh, Hj, Hn, Ht, Hf, Hhc, Hjc, Hnc, Htc, Hfc. repeat split.
    intros k Hk. rewrite <- Hmc in Hk. destruct om as [m'|].
    + destruct Hm as (m & _ & _ & -> & _). apply lookup_insert_is_Some'. right. exact Hk.
    + destruct Hm as [_ ->]. exact Hk.
  - right. exists msg.
    assert (Hdb : db_error E (UpdateModel modelId started) = Some msg).
    { revert Hr. unfold Storage.updateModel, io, Storage.db_call. simpl.
      destruct (db_error E (UpdateModel modelId started)) as [m|];
        [intros [= _ <-]; reflexivity|].
      destruct (models wc !! modelId); discriminate. }
    assert (Hlen : (job < List.length (heap wd))%nat).
    { rewrite Hh, Hhc, length_app. simpl. unfold job. lia. }
    destruct (conversion_not_started_spec job modelId msg wd Hlen [])
      as (we & r2 & Hr2 & He & Pe & Je).
    rewrite Hr2. cbn [fst snd].
    destruct Pe as [Pj Pn Pl _ (d & Pt & Pd)].
    split; [exact He|]. split; [exact Hdb|]. split; [reflexivity|].
    split; [congruence|]. split; [congruence|]. split; [|split].
    + rewrite Pl, Hh, Hhc, length_app. simpl. lia.
    + unfold job_at at 1. rewrite Je. unfold job_at. rewrite Hh, Hhc. unfold job.
      rewrite !lookup_app_r by lia. replace (_ - _)%nat with 0%nat by lia. reflexivity.
    + exists (Db (UpdateModel modelId started) :: d). split.
      * rewrite Pt, Ht, Htc, <- app_assoc. reflexivity.
      * simpl. exact Pd.
Qed.

End Submit.

Lemma sweep_fold (test : nat -> bool) (l : list (string * nat)) (m : gmap string nat) k :
  foldl (fun registry '(jobId, job) =>
           if test job then delete jobId registry else registry) m l !! k
  = if existsb (fun '(jobId, job) => String.eqb jobId k && test job) l
    then None else m !! k.
Proof.
  revert m. induction l as [|[jobId job] l IH]; intros m; simpl; [reflexivity|].
  rewrite IH. destruct (existsb _ l); [rewrite orb_true_r; reflexivity|].
  rewrite orb_false_r. destruct (test job); [|rewrite andb_false_r; reflexivity].
  rewrite andb_true_r. destruct (String.eqb_spec jobId k) as [->|Hne].
  - apply lookup_delete_eq.
  - apply lookup_delete_ne. exact Hne.
Qed.

(** After a sweep, an entry is gone when its job ended before the cutoff,
    and is as it was otherwise; nothing else changes. *)
Lemma cleanupOldJobs_lookup w jobId :
  jobs (cleanupOldJobs w) !! jobId
  = match jobs w !! jobId with
    | Some job =>
        if expired (now w - 24 * 60 * 60 * 1000) (job_at w job) then None else Some job
    | None => None
    end.
Proof.
  unfold cleanupOldJobs. cbn [jobs set_jobs].
  rewrite (sweep_fold (fun job => expired (now w - 24 * 60 * 60 * 1000) (job_at w job))).
  destruct (existsb _ _) eqn:Hex.
  - apply existsb_exists in Hex as ([k job] & Hin & Htest).
    apply andb_true_iff in Htest as [Hk Ht]. apply String.eqb_eq in Hk. subst k.
    apply list_elem_of_In, elem_of_map_to_list in Hin. rewrite Hin, Ht. reflexivity.
  - destruct (jobs w !! jobId) as [job|] eqn:Hj; [|reflexivity].
    destruct (expired _ (job_at w job)) eqn:Ht; [|reflexivity].
    exfalso. apply not_true_iff_false in Hex. apply Hex, existsb_exists.
    exists (jobId, job). split.
    + apply list_elem_of_In, elem_of_map_to_list, Hj.
    + rewrite String.eqb_refl, Ht. reflexivity.
Qed.

Lemma cleanupOldJobs_frame w :
  heap (cleanupOldJobs w) = heap w /\ models (cleanupOldJobs w) = models w
  /\ files (cleanupOldJobs w) = files w /\ trace (cleanupOldJobs w) = trace w
  /\ now (cleanupOldJobs w) = now w.
Proof. repeat split. Qed.







Section Route.
Context (E : Env).


End Route.

Lemma after_sublist w0 l l' w : sublist l' l -> after w0 l w -> after w0 l' w.
Proof. intros Hs (d & Hd & Hl). exists d. split; [exact Hd | etransitivity; eauto]. Qed.

Lemma after_In w0 l w ev :
  after w0 l w -> In ev l -> exists d, trace w = (trace w0 ++ d)%list /\ In ev d.
Proof.
  intros (d & Hd & Hl) Hin. exists d. split; [exact Hd|].
  apply list_elem_of_In. eapply sublist_subseteq; [exact Hl|]. apply list_elem_of_In, Hin.
Qed.

Ltac pick_sublist :=
  repeat first [ apply sublist_nil | apply sublist_skip | apply sublist_cons ].

Lemma file_url_not_empty E key : FileUploadService.file_url E key <> EmptyString.
Proof. unfold FileUploadService.file_url. simpl. discriminate. Qed.

(** ** The two semantics agree *)

Lemma quiet_bind {A B} (m : Async A) (f : A -> Async B) :
  quiet m -> (forall a, quiet (f a)) -> quiet (bind m f).
Proof.
  revert B f. induction m as [A a|A e|A X op k IH|A k IH|A t IHt k IH]; intros B f Hm Hf; simpl in *;
    auto; try contradiction.
Qed.

Lemma quiet_try_catch {A} (m : Async A) h :
  quiet m -> (forall e, quiet (h e)) -> quiet (try_catch m h).
Proof.
  induction m as [A a|A e|A X op k IH|A k IH|A t IHt k IH]; intros Hm Hh; simpl in *; auto; try contradiction.
Qed.

Lemma quiet_resume {A} (m : Async A) w p :
  quiet m ->
  (resume m w p).1.2 = p /\ quiet (resume m w p).2
  /\ awaits (resume m w p).2 (resume m w p).1.1 = awaits m w.
Proof.
  revert w p. induction m as [A a|A e|A X op k IH|A k IH|A t IHt k IH]; intros w p Hq; simpl in *;
    auto.
  - destruct (op w) as [w' x]. apply IH, Hq.
  - contradiction.
Qed.

Lemma finished_awaits {A} (m : Async A) w : finished m = true -> awaits m w = 0%nat.
Proof. destruct m; simpl; try discriminate; reflexivity. Qed.

Lemma resume_shape {A} (m : Async A) w p :
  finished (resume m w p).2 = true \/ exists k, (resume m w p).2 = Await k.
Proof.
  revert w p. induction m as [A a|A e|A X op k IH|A k IH|A t IHt k IH]; intros w p; simpl; eauto.
  - destruct (op w) as [w' x]. apply IH.
  - destruct (resume t w p) as [[w' p'] t']. apply IH.
Qed.

(** Alone in the pool, a task that spawns nothing is taken to its end by
    as many turns as it has suspension points left, and the world is
    then the one its uninterrupted run leads to. *)
Lemma drain_run E (t : Async unit) w :
  quiet t ->
  drain E (awaits t w) (start t (boot w)) = {| world := world_after t w; pool := [] |}.
Proof.
  remember (awaits t w) as n eqn:Hn. revert t w Hn.
  induction n as [|n IH]; intros t w Hn Hq.
  - unfold start, boot, drain, steps. simpl.
    pose proof (quiet_resume t w [] Hq) as (Hp & _ & Ha).
    pose proof (resume_run t w []) as Hr.
    destruct (resume t w []) as [[w1 p1] t'] eqn:Hres. simpl in *. subst p1.
    destruct (resume_shape t w []) as [Hf|(k & Hk)]; rewrite Hres in *; simpl in *.
    + unfold keep. rewrite Hf. unfold world_after. rewrite <- Hr.
      destruct t'; try discriminate; reflexivity.
    + subst t'. simpl in Ha. lia.
  - unfold start, boot. simpl.
    pose proof (quiet_resume t w [] Hq) as (Hp & Hq' & Ha).
    pose proof (resume_run t w []) as Hr.
    destruct (resume t w []) as [[w1 p1] t'] eqn:Hres. simpl in *. subst p1.
    destruct (resume_shape t w []) as [Hf|(k & Hk)]; rewrite Hres in *; simpl in *.
    + rewrite (finished_awaits _ _ Hf) in Ha. lia.
    + subst t'. simpl in Ha, Hq', Hr. unfold keep. simpl.
      unfold drain. simpl replicate. unfold steps. simpl foldl.
      assert (Hk : awaits k w1 = n) by lia.
      specialize (IH k w1 (eq_sym Hk) Hq').
      unfold drain, steps, start, boot in IH. simpl in IH.
      destruct (resume k w1 []) as [[w2 p2] t''] eqn:Hres2.
      rewrite IH. unfold world_after. rewrite <- Hr. reflexivity.
Qed.

Ltac head_of t := lazymatch t with ?f _ => head_of f | _ => t end.

Ltac quiet_step :=
  lazymatch goal with
  | |- quiet (bind _ _) => apply quiet_bind; [| intros ?]
  | |- quiet (try_catch _ _) => apply quiet_try_catch; [| intros ?]
  | |- quiet (Ret _) => exact I
  | |- quiet (Throw _) => exact I
  | |- quiet (Prim _ _) => intros ?
  | |- quiet (Await _) => simpl
  | |- quiet (if ?b then _ else _) => destruct b
  | |- quiet (match ?x with _ => _ end) => destruct x
  | |- quiet (let '(_, _) := ?x in _) => destruct x
  | |- quiet ?m => let h := head_of m in unfold h
  end.

Lemma quiet_processConversion E job : quiet (processConversion E job).
Proof. repeat quiet_step; exact I. Qed.

(** The pipeline of a job, alone in the pool, ends in the world of its
    uninterrupted run. *)
Lemma processConversion_drains E job w :
  drain E (awaits (processConversion E job) w) (start (processConversion E job) (boot w))
  = {| world := world_after (processConversion E job) w; pool := [] |}.
Proof. apply drain_run, quiet_processConversion. Qed.

(** ** Invariants of tasks, read off their text *)

Lemma keeps_bind {A B} R (m : Async A) (f : A -> Async B) :
  keeps R m -> (forall a, keeps R (f a)) -> keeps R (bind m f).
Proof.
  revert B f. induction m as [A a|A e|A X op k IH|A k IH|A t IHt k IH];
    intros B f Hm Hf; simpl in *; auto.
  - destruct Hm as [Hop Hk]. split; [exact Hop|]. intros x. apply IH; auto.
  - destruct Hm as [Ht Hk]. split; [exact Ht|]. apply IH; auto.
Qed.

Lemma keeps_try_catch {A} R (m : Async A) h :
  keeps R m -> (forall e, keeps R (h e)) -> keeps R (try_catch m h).
Proof.
  induction m as [A a|A e|A X op k IH|A k IH|A t IHt k IH]; intros Hm Hh; simpl in *; auto.
  - destruct Hm as [Hop Hk]. split; [exact Hop|]. intros x. apply IH; auto.
  - destruct Hm as [Ht Hk]. split; [exact Ht|]. apply IH; auto.
Qed.

Lemma keeps_resume {A} R `{!PreOrder R} (m : Async A) w p :
  keeps R m -> R w (resume m w p).1.1 /\ keeps R (resume m w p).2.
Proof.
  revert w p. induction m as [A a|A e|A X op k IH|A k IH|A t IHt k IH];
    intros w p Hk; simpl in *.
  - split; [reflexivity|exact I].
  - split; [reflexivity|exact I].
  - destruct Hk as [Hop Hk]. specialize (Hop w).
    destruct (op w) as [w' x]. simpl in Hop.
    destruct (IH x w' p (Hk x)) as [H1 H2]. split; [etransitivity; eauto | exact H2].
  - split; [reflexivity|exact Hk].
  - destruct Hk as [Ht Hk]. destruct (IHt w p Ht) as [H1 _].
    destruct (resume t w p) as [[w' p'] t']. simpl in H1.
    destruct (IH w' (keep t' p') Hk) as [H2 H3]. split; [etransitivity; eauto | exact H3].
Qed.

Lemma keeps_run {A} R `{!PreOrder R} (m : Async A) w p :
  keeps R m -> R w (run m w p).1.1.
Proof.
  revert w p. induction m as [A a|A e|A X op k IH|A k IH|A t IHt k IH];
    intros w p Hk; simpl in *.
  - reflexivity.
  - reflexivity.
  - destruct Hk as [Hop Hk]. specialize (Hop w).
    destruct (op w) as [w' x]. simpl in Hop. etransitivity; [exact Hop | apply IH, Hk].
  - apply IH, Hk.
  - destruct Hk as [Ht Hk]. destruct (keeps_resume R t w p Ht) as [H1 _].
    destruct (resume t w p) as [[w' p'] t']. simpl in H1.
    etransitivity; [exact H1 | apply IH, Hk].
Qed.

#[global] Instance isolated_preorder job : PreOrder (isolated job).
Proof.
  split.
  - intros w. split; reflexivity.
  - intros w1 w2 w3 [a b c d] [a' b' c' d']. split; try congruence.
    intros r Hr. rewrite d', d by assumption. reflexivity.
Qed.

#[global] Instance traced_preorder P : PreOrder (traced P).
Proof.
  split.
  - intros w. exists []. split; [symmetry; apply app_nil_r | reflexivity].
  - intros w1 w2 w3 (d & Hd & Pd) (d' & Hd' & Pd'). exists (d ++ d')%list. split.
    + rewrite Hd', Hd. symmetry. apply app_assoc.
    + rewrite forallb_app, Pd, Pd'. reflexivity.
Qed.




Ltac keeps_op :=
  intros ?w; unfold fs_call, Storage.db_call; cbn;
  repeat match goal with
         | |- context [match ?x with _ => _ end] => destruct x; cbn
         end.

Ltac keeps_step solve_op :=
  lazymatch goal with
  | |- keeps _ (bind _ _) => apply keeps_bind; [| intros ?]
  | |- keeps _ (try_catch _ _) => apply keeps_try_catch; [| intros ?]
  | |- keeps _ (Ret _) => exact I
  | |- keeps _ (Throw _) => exact I
  | |- keeps _ (Prim _ _) => split; [keeps_op; solve_op | intros ?]
  | |- keeps _ (Await _) => simpl
  | |- keeps _ (if ?b then _ else _) => destruct b
  | |- keeps _ (match ?x with _ => _ end) => destruct x
  | |- keeps _ (let '(_, _) := ?x in _) => destruct x
  | |- keeps _ ?m => let h := head_of m in unfold h
  end.

Ltac solve_isolated :=
  split; cbn; try reflexivity; try apply length_alter;
  intros; rewrite ?list_lookup_alter_ne by congruence; reflexivity.

Lemma processConversion_isolated E job : keeps (isolated job) (processConversion E job).
Proof. repeat keeps_step solve_isolated; exact I. Qed.


Lemma spec_keeps {A} R `{!PreOrder R} (m : Async A) w (Q : World -> Result A -> Prop) :
  spec m w Q -> keeps R m -> spec m w (fun w' r => Q w' r /\ R w w').
Proof.
  intros Hs Hk p. destruct (Hs p) as (w' & r & Hrun & HQ).
  exists w', r. split; [exact Hrun|]. split; [exact HQ|].
  pose proof (keeps_run R m w p Hk) as H. rewrite Hrun in H. exact H.
Qed.

#[global] Instance same_files_preorder : PreOrder same_files.
Proof. split; [intros w; reflexivity | intros a b c H1 H2; unfold same_files in *; congruence]. Qed.

Lemma updateJobLogs_same_files E job msg : keeps same_files (updateJobLogs E job msg).
Proof. repeat keeps_step ltac:(reflexivity); exact I. Qed.

#[global] Instance logs_grow_preorder job : PreOrder (logs_grow job).
Proof.
  split; [intros w; unfold logs_grow; reflexivity|].
  intros a b c H1 H2. unfold logs_grow in *. etransitivity; eauto.
Qed.

Ltac solve_logs_grow :=
  unfold logs_grow, job_at; cbn [heap set_heap emit set_files set_models set_jobs next_draw];
  rewrite ?list_lookup_alter_eq;
  try reflexivity;
  match goal with
  | |- context [heap ?w !! ?j] => destruct (heap w !! j); cbn; try reflexivity
  end;
  apply prefix_app_r; reflexivity.

Lemma processConversion_logs_grow E job : keeps (logs_grow job) (processConversion E job).
Proof. repeat keeps_step solve_logs_grow; exact I. Qed.

(** ** Rows of failed jobs, and inputs spelt in capitals *)



#[global] Instance stable_preorder job : PreOrder (stable job).
Proof.
  split.
  - intros w. split; auto.
  - intros w1 w2 w3 [a b c] [a' b' c']. split; try congruence. auto.
Qed.

Ltac solve_stable :=
  split;
  [ cbn; rewrite ?length_alter; reflexivity
  | unfold job_at; cbn [heap set_heap emit set_files set_models set_jobs next_draw];
    rewrite ?list_lookup_alter_eq; try reflexivity;
    match goal with
    | |- context [heap ?w !! ?j] => destruct (heap w !! j); reflexivity
    end
  | cbn; intros ?k ?Hk; assumption ].

Lemma updateModel_stable E job key u : keeps (stable job) (Storage.updateModel E key u).
Proof.
  unfold Storage.updateModel, io. split; [|intros [x|e]; exact I].
  intros w. unfold Storage.db_call. cbn [fst snd].
  assert (Hin : forall m', stable job w
                  (set_models (<[key := m']> (models w)) (emit (Db (UpdateModel key u)) w))).
  { intros m'. split; [reflexivity | reflexivity |].
    cbn. intros k Hk. apply lookup_insert_is_Some'. right. exact Hk. }
  assert (Hout : stable job w (emit (Db (UpdateModel key u)) w)).
  { split; [reflexivity | reflexivity | cbn; auto]. }
  destruct (db_error E _); [exact Hout|].
  cbn [models emit]. destruct (models w !! key) as [m|].
  - destruct (Model.p_shortLink u) as [sl|].
    + destruct (Storage.shortLink_taken _ _ _); cbn; [exact Hout | apply Hin].
    + cbn. apply Hin.
  - cbn. split; [reflexivity | reflexivity | cbn; auto].
Qed.

Ltac stable_step := first [ apply updateModel_stable | keeps_step solve_stable ].

Lemma conversion_stable E job : keeps (stable job) (conversion E job).
Proof. repeat stable_step; exact I. Qed.


(** A write the store accepts, to a row that is there. *)
Lemma updateModel_accepted E key u w m :
  db_error E (UpdateModel key u) = None -> Model.p_shortLink u = None ->
  models w !! key = Some m ->
  spec (Storage.updateModel E key u) w
    (fun w' r => models w' = <[key := Model.apply u (now w) m]> (models w)).
Proof.
  intros Hdb Hsl Hm. unfold Storage.updateModel. apply spec_io.
  unfold Storage.db_call. cbn [fst snd]. rewrite Hdb. cbn [models emit].
  rewrite Hm, Hsl. reflexivity.
Qed.

(** The [catch] block of [processConversion] marks the row of the model
    failed, when the row is there and the store accepts the write. *)
Lemma conversion_failed_row E job error w m :
  (job < List.length (heap w))%nat ->
  models w !! Job.modelId (job_at w job) = Some m ->
  (forall u, Model.p_status u = Some Model.failed ->
             db_error E (UpdateModel (Job.modelId (job_at w job)) u) = None) ->
  spec (conversion_failed E job error) w
    (fun w' _ => exists m', models w' !! Job.modelId (job_at w job) = Some m'
                            /\ Model.status m' = Model.failed).
Proof.
  intros Hv Hm Hdb. unfold conversion_failed.
  apply spec_bind, spec_console.
  apply spec_bind, spec_assign.
  apply spec_bind, spec_assign.
  apply spec_bind, spec_new_Date.
  apply spec_bind, spec_assign.
  apply spec_bind, spec_read_job.
  set (w4 := set_heap _ (set_heap _ (set_heap _ (emit _ w)))).
  assert (J4 : Job.modelId (job_at w4 job) = Job.modelId (job_at w job)).
  { unfold w4. rewrite !job_at_assign; simpl; rewrite ?length_alter; auto. }
  assert (M4 : models w4 = models w) by reflexivity.
  clearbody w4. rewrite J4.
  apply spec_bind.
  eapply spec_mono;
    [eapply updateModel_accepted; [apply Hdb; reflexivity | reflexivity | rewrite M4; exact Hm]|].
  intros w5 r M5. cbv beta in M5.
  assert (Hrow : exists m5, models w5 !! Job.modelId (job_at w job) = Some m5
                            /\ Model.status m5 = Model.failed).
  { rewrite M5. eexists. split; [apply lookup_insert_eq | reflexivity]. }
  destruct r as [om|e]; [|exact Hrow].
  eapply spec_mono; [apply (updateJobLogs_spec E job no_select); reflexivity|].
  intros w6 r [_ F6]. destruct Hrow as (m5 & H5 & S5).
  pose proof (fr_models _ _ _ _ F6 (Job.modelId (job_at w job))) as Hk. rewrite H5 in Hk.
  inversion Hk as [x m6 Hsame Hx Hm6|]. exists m6. split; [reflexivity|].
  destruct Hsame as (_ & _ & _ & _ & _ & _ & _ & Hs & _). congruence.
Qed.

(** A job that [processConversion] leaves failed has its row marked
    failed, when the row is there and the store accepts that write. *)
Lemma processConversion_failed_row E job w m :
  (job < List.length (heap w))%nat ->
  models w !! Job.modelId (job_at w job) = Some m ->
  (forall u, Model.p_status u = Some Model.failed ->
             db_error E (UpdateModel (Job.modelId (job_at w job)) u) = None) ->
  spec (processConversion E job) w
    (fun w' _ => Job.status (job_at w' job) = Job.failed ->
                 exists m', models w' !! Job.modelId (job_at w job) = Some m'
                            /\ Model.status m' = Model.failed).
Proof.
  intros Hv Hm Hdb. unfold processConversion. apply spec_try_catch.
  eapply spec_mono;
    [apply (spec_keeps (stable job)); [apply conversion_spec, Hv | apply conversion_stable]|].
  intros w1 [[]|e] [(_ & V1 & H1) [_ Hid Hrows]].
  - intros Hf. destruct H1 as (opt & k & ks & qr & C).
    rewrite (c_status _ _ _ _ _ _ _ _ C) in Hf. discriminate.
  - destruct (Hrows _ (ex_intro _ m Hm)) as [m1 Hm1].
    rewrite <- Hid in Hm1 |- *.
    eapply spec_mono; [apply (conversion_failed_row E job e w1 m1 V1 Hm1)|].
    + intros u Hu. rewrite Hid. apply Hdb, Hu.
    + intros w2 r H _. exact H.
Qed.

Lemma conversion_not_started_row E job modelId error w m :
  models w !! modelId = Some m ->
  (forall u, Model.p_status u = Some Model.failed ->
             db_error E (UpdateModel modelId u) = None) ->
  spec (conversion_not_started E job modelId error) w
    (fun w' _ => exists m', models w' !! modelId = Some m' /\ Model.status m' = Model.failed).
Proof.
  intros Hm Hdb. unfold conversion_not_started.
  apply spec_bind, spec_console.
  apply spec_bind, spec_assign.
  apply spec_bind, spec_assign.
  apply spec_bind, spec_read_job.
  apply spec_bind.
  eapply spec_mono;
    [eapply updateModel_accepted; [apply Hdb; reflexivity | reflexivity | exact Hm]|].
  intros w5 r M5. cbv beta in M5.
  assert (Hrow : exists m5, models w5 !! modelId = Some m5 /\ Model.status m5 = Model.failed).
  { rewrite M5. eexists. split; [apply lookup_insert_eq | reflexivity]. }
  destruct r as [om|e]; [apply spec_throw|]; exact Hrow.
Qed.

(** When the first write of [convertModel] is refused, the row of the
    model is marked failed, if it is there and the store accepts that
    second write. *)
Lemma convertModel_refused_row E modelId path w msg m :
  db_error E (UpdateModel modelId started) = Some msg ->
  models w !! modelId = Some m ->
  (forall u, Model.p_status u = Some Model.failed ->
             db_error E (UpdateModel modelId u) = None) ->
  exists m', models (run (convertModel E modelId path) w []).1.1 !! modelId = Some m'
             /\ Model.status m' = Model.failed.
Proof.
  intros Hdb Hm Hacc.
  unfold convertModel. cbn [bind sync act draw_nanoid new_Date run].
  fold started.
  set (wc := set_jobs _ _).
  assert (Hmc : models wc = models w) by reflexivity.
  clearbody wc.
  rewrite run_try_catch, run_bind.
  assert (Hr : run (Storage.updateModel E modelId started) wc []
               = (emit (Db (UpdateModel modelId started)) wc, [], Error msg)).
  { unfold Storage.updateModel, io, Storage.db_call. cbn. rewrite Hdb. reflexivity. }
  rewrite Hr.
  destruct (conversion_not_started_row E (List.length (heap w)) modelId msg
              (emit (Db (UpdateModel modelId started)) wc) m) with (p := @nil (Async unit))
    as (w' & r & Hrun & HQ); [rewrite <- Hmc in Hm; exact Hm | exact Hacc |].
  change (heap (next_draw w)) with (heap w).
  rewrite Hrun. exact HQ.
Qed.

Lemma spec_under {A} (m : Async A) w (H : Prop) (Q Q0 : World -> Result A -> Prop) :
  spec m w Q0 -> (H -> spec m w Q) -> spec m w (fun w' r => H -> Q w' r).
Proof.
  intros H0 HQ p. destruct (H0 p) as (w' & r & Hr & _). exists w', r.
  split; [exact Hr|]. intros h. destruct (HQ h p) as (w2 & r2 & Hr2 & Hq).
  rewrite Hr in Hr2. inversion Hr2; subst. exact Hq.
Qed.

Lemma sweep_keeps_unended w jobId job :
  jobs w !! jobId = Some job -> Job.endTime (job_at w job) = None ->
  jobs (cleanupOldJobs w) !! jobId = Some job.
Proof.
  intros Hj He. rewrite cleanupOldJobs_lookup, Hj. unfold expired. rewrite He. reflexivity.
Qed.

(** An input whose extension is not handled: the work directory is made
    first; the job then fails before any tool is run, with the error of
    [mkdir] if that failed and with the unsupported format otherwise. *)
Lemma unsupported_spec E job w :
  let j0 := job_at w job in
  let ext := Node.toLowerCase (Node.extname (Job.inputFile j0)) in
  let wd := workDir E j0 in
  (job < List.length (heap w))%nat ->
  ext <> ".glb" -> ext <> ".gltf" -> ext <> ".fbx" -> ext <> ".obj" ->
  spec (processConversion E job) w
    (fun w' r =>
       progress no_exec w w' /\ (job < List.length (heap w'))%nat
       /\ Job.status (job_at w' job) = Job.failed
       /\ same_identity j0 (job_at w' job)
       /\ Job.error (job_at w' job)
          = Some match fs_error E (Mkdir wd), files w !! wd with
                 | Some refused, _ => refused
                 | None, Some (File _) => eexist wd
                 | None, _ => "Unsupported file format: " ++ ext
                 end).
Proof.
  intros j0 ext wd Hv H1 H2 H3 H4.
  unfold processConversion, conversion. apply spec_try_catch.
  apply spec_bind, spec_assign.
  assert (T : track no_exec job (Job.set_status Job.processing j0) w
                (set_heap (alter (Job.set_status Job.processing) job (heap w)) w)).
  { apply (track_assign job no_exec j0 _ w w); [|apply same_job_set_status].
    split; [apply progress_refl|]. split; [exact Hv | apply same_job_refl]. }
  assert (F0 : files (set_heap (alter (Job.set_status Job.processing) job (heap w)) w)
               = files w) by reflexivity.
  set (wa := set_heap _ w) in *. clearbody wa.
  apply spec_bind.
  eapply spec_mono;
    [apply (spec_keeps same_files);
     [apply (updateJobLogs_spec E job no_exec); reflexivity
     | apply updateJobLogs_same_files]|].
  intros w1 r [[-> F1] Hfiles]. apply (track_frame _ _ _ _ _ _ T) in F1 as T1.
  unfold same_files in Hfiles. rewrite F0 in Hfiles.
  apply spec_bind, spec_read_job.
  destruct T1 as (P1 & V1 & J1).
  assert (Hid : Job.id (job_at w1 job) = Job.id j0) by apply J1.
  assert (Hin : Job.inputFile (job_at w1 job) = Job.inputFile j0) by apply J1.
  cbv zeta. rewrite Hid, Hin. fold ext. fold (workDir E j0). fold wd.
  assert (Hc : convert E ext job wd = Throw ("Unsupported file format: " ++ ext)).
  { unfold convert.
    apply String.eqb_neq in H1, H2, H3, H4. rewrite H1, H2, H3, H4. reflexivity. }
  rewrite Hc. cbn [bind].
  assert (Hfail : forall w2 msg,
            progress no_exec w w2 -> (job < List.length (heap w2))%nat ->
            same_identity j0 (job_at w2 job) ->
            spec (conversion_failed E job msg) w2
              (fun w' r =>
                 progress no_exec w w' /\ (job < List.length (heap w'))%nat
                 /\ Job.status (job_at w' job) = Job.failed
                 /\ same_identity j0 (job_at w' job)
                 /\ Job.error (job_at w' job) = Some msg)).
  { intros w2 msg P2 V2 I2.
    eapply spec_mono; [apply (conversion_failed_spec E job no_exec); auto|].
    intros w3 r (P3 & V3 & Hst & Herr & _ & I3).
    split; [eapply progress_trans; eauto|]. split; [exact V3|]. split; [exact Hst|].
    split; [unfold same_identity in *; intuition congruence | exact Herr]. }
  assert (I1 : same_identity j0 (job_at w1 job)).
  { destruct J1 as (Hi & Hm & _ & Hinp & _). repeat split; assumption. }
  assert (Ist : forall ev fs, job_at (set_files fs (emit ev w1)) job = job_at w1 job)
    by reflexivity.
  assert (Ie : forall ev, job_at (emit ev w1) job = job_at w1 job) by reflexivity.
  apply spec_bind. unfold fs_mkdir. apply spec_fs.
  rewrite <- Hfiles.
  destruct (fs_error E (Mkdir wd)) as [msg|] eqn:Hfs.
  - apply Hfail; [|exact V1|rewrite Ie; exact I1].
    eapply progress_trans; [exact P1 | apply progress_emit; reflexivity].
  - destruct (files w1 !! wd) as [[|c]|].
    + apply spec_throw. apply Hfail; [|exact V1|rewrite Ist; exact I1].
      eapply progress_trans; [exact P1 | apply progress_emit_files; reflexivity].
    + apply Hfail; [|exact V1|rewrite Ie; exact I1].
      eapply progress_trans; [exact P1 | apply progress_emit; reflexivity].
    + apply spec_throw. apply Hfail; [|exact V1|rewrite Ist; exact I1].
      eapply progress_trans; [exact P1 | apply progress_emit_files; reflexivity].
Qed.




(** ** The claims *)

(** C1 as the specification states it does not hold: with [.stl] the
    call returns a job id and the registry holds the job. *)
Lemma C1_stl_is_accepted :
  ~ rejects_unsupported Scenario.all_fine (Scenario.uploaded "/tmp/uploads/part.stl" "solid")
      "m1" "/tmp/uploads/part.stl".
Proof.
  intros H. destruct H as [[msg Hmsg] _].
  - vm_compute. intros [H|[H|[H|H]]]; discriminate.
  - vm_compute in Hmsg. discriminate.
Qed.

(** C1, amended: an input whose extension is not handled is accepted by
    [convertModel], which returns the identifier [nanoid(12)] gave unless
    the store refuses the first write; the job is made and registered
    under that identifier either way, and ends failed.  When the call
    returned, the job was failed by the conversion, which makes the work
    directory first: the error of the job is the error of [mkdir] when
    that is refused or when the path is a file, and otherwise it is
    [Unsupported file format: ] followed by the lower-cased extension
    (the extension as [Node.toLowerCase] gives it when it is made of
    ASCII characters, on which that is the function of JavaScript).  No
    external tool is run; and the row of the model, when there is one
    and the store accepts the write that marks it failed, ends failed. *)
Theorem C1_unsupported_extension_fails_the_job (E : Env) (w : World) (modelId path : string) :
  let ext := Node.toLowerCase (Node.extname path) in
  let jobId := nanoid E 12 (draws w) in
  let job := List.length (heap w) in
  let submitted := run (convertModel E modelId path) w [] in
  let w' := settled submitted.1.1 submitted.1.2 in
  let wd := Node.path_join (tempDir E) jobId in
  ~ supported ext ->
  (submitted.2 = Ok jobId
   \/ exists msg, db_error E (UpdateModel modelId started) = Some msg
                  /\ exists e, submitted.2 = Error e)
  /\ jobs w' = <[jobId := job]> (jobs w)
  /\ same_identity (new_job jobId modelId path (now w)) (job_at w' job)
  /\ Job.status (job_at w' job) = Job.failed
  /\ (submitted.2 = Ok jobId ->
      exists lowered,
        (Node.ascii_only (Node.extname path) -> lowered = ext)
        /\ Job.error (job_at w' job)
           = Some match fs_error E (Mkdir wd), files w !! wd with
                  | Some refused, _ => refused
                  | None, Some (File _) => eexist wd
                  | None, _ => "Unsupported file format: " ++ lowered
                  end)
  /\ (forall row, models w !! modelId = Some row ->
      (forall u, Model.p_status u = Some Model.failed ->
                 db_error E (UpdateModel modelId u) = None) ->
      exists row', models w' !! modelId = Some row' /\ Model.status row' = Model.failed)
  /\ exists d, trace w' = (trace w ++ d)%list /\ forallb no_exec d = true.
Proof.
  intros ext jobId job submitted w' wd Hext.
  assert (H4 : ext <> ".glb" /\ ext <> ".gltf" /\ ext <> ".fbx" /\ ext <> ".obj").
  { unfold supported in Hext. repeat split; intros Heq; apply Hext; auto. }
  destruct H4 as (H1 & H2 & H3 & H4).
  subst w' submitted.
  destruct (convertModel_run E modelId path w)
    as [(ws & Hr & Hh & Hj & Hn & Ht & Hw1 & Hp1 & Hfs & Hrows)
       |(msg & He & Hdb & Hp1 & Hj & Hn & Hl & Hjob & Hd)].
  - fold jobId job in Hr, Hh, Hj, Hw1, Hp1.
    assert (Hv : (job < List.length (heap ws))%nat).
    { rewrite Hh, length_app. simpl. unfold job. lia. }
    assert (Hj0 : job_at ws job = new_job jobId modelId path (now w)).
    { unfold job_at. rewrite Hh. unfold job. rewrite lookup_app_r by lia.
      replace (_ - _)%nat with 0%nat by lia. reflexivity. }
    pose proof (unsupported_spec E job ws) as Hs. cbv zeta in Hs.
    rewrite Hj0, Hfs in Hs. simpl Job.inputFile in Hs.
    specialize (Hs Hv H1 H2 H3 H4).
    assert (Hs' : spec (processConversion E job) ws
              (fun w' _ =>
                 forall row, models w !! modelId = Some row ->
                 (forall u, Model.p_status u = Some Model.failed ->
                            db_error E (UpdateModel modelId u) = None) ->
                 Job.status (job_at w' job) = Job.failed ->
                 exists row', models w' !! modelId = Some row'
                              /\ Model.status row' = Model.failed)).
    { destruct (models w !! modelId) as [row0|] eqn:Hrow0.
      - destruct (Hrows modelId) as [m Hm]; [rewrite Hrow0; eauto|].
        pose proof (processConversion_failed_row E job ws m Hv) as Hfr.
        rewrite Hj0 in Hfr. simpl Job.modelId in Hfr. specialize (Hfr Hm).
        eapply spec_mono; [exact (spec_under _ _ _ _ _ Hs Hfr)|].
        intros w2 r H row _ Hacc. exact (H Hacc).
      - eapply spec_mono; [exact Hs|]. intros w2 r _ row Hrow. discriminate. }
    pose proof (spec_and _ _ _ _ Hs Hs') as Hboth.
    apply spec_spawn in Hboth as (Hpool & r & (Pf & Vf & Sf & If & Ef) & Rf).
    rewrite Hw1, Hp1, Hpool.
    set (wf := settled _ _) in *. clearbody wf.
    destruct Pf as [Pj Pn Pl Pd (d & Pt & Pe)].
    split; [left; exact Hr|]. split; [congruence|]. split; [exact If|].
    split; [exact Sf|]. split; [|split].
    + intros _. exists ext. split; [reflexivity | exact Ef].
    + intros row Hrow Hacc. exact (Rf row Hrow Hacc Sf).
    + exists (Db (UpdateModel modelId started) :: d). split.
      * rewrite Pt, Ht, <- app_assoc. reflexivity.
      * exact Pe.
  - fold jobId job in Hj, Hjob. rewrite Hp1.
    change (settled (run (convertModel E modelId path) w []).1.1 [])
      with (run (convertModel E modelId path) w []).1.1.
    split; [right; eauto|]. split; [exact Hj|]. rewrite Hjob.
    split; [repeat split|]. split; [reflexivity|]. split; [|split; [|exact Hd]].
    + destruct He as [e He]. rewrite He. discriminate.
    + intros row Hrow Hacc. exact (convertModel_refused_row E modelId path w msg row Hdb Hrow Hacc).
Qed.

Lemma C1_unsupported_extension_fails_the_job_witness :
  ~ supported (Node.toLowerCase (Node.extname "/tmp/uploads/part.stl"))
  /\ let submitted :=
       run (convertModel Scenario.all_fine "m1" "/tmp/uploads/part.stl")
           (Scenario.uploaded "/tmp/uploads/part.stl" "solid") [] in
     Job.status (job_at (settled submitted.1.1 submitted.1.2) 0) = Job.failed
     /\ exists row', models (settled submitted.1.1 submitted.1.2) !! "m1" = Some row'
                     /\ Model.status row' = Model.failed.
Proof.
  assert (H : ~ supported (Node.toLowerCase (Node.extname "/tmp/uploads/part.stl")))
    by (vm_compute; intros [H|[H|[H|H]]]; discriminate).
  split; [exact H|].
  pose proof (C1_unsupported_extension_fails_the_job Scenario.all_fine
                (Scenario.uploaded "/tmp/uploads/part.stl" "solid") "m1"
                "/tmp/uploads/part.stl" H) as (_ & _ & _ & Hst & _ & Hrow & _).
  split; [exact Hst|].
  apply (Hrow Scenario.burger); [reflexivity | intros u _; reflexivity].
Defined.

(** C2 at a failing input: a job is cancelled while its pipeline waits
    for the first write of its logs; the pipeline goes on and, every tool
    working, marks the cancelled job and its model complete. *)
Theorem C2_cancelled_job_becomes_complete :
  let E := Scenario.all_fine in
  let cancelled :=
    steps E (boot (Scenario.uploaded "/tmp/uploads/burger.glb" "glTF"))
      [Convert "m1" "/tmp/uploads/burger.glb"; Resume 0; Cancel "AAAAAAAAAAAA"] in
  let finished := drain E 30 cancelled in
  (Job.status <$> getJobStatus (world cancelled) "AAAAAAAAAAAA") = Some Job.failed
  /\ (Model.status <$> models (world cancelled) !! "m1") = Some Model.failed
  /\ pool finished = []
  /\ (Job.status <$> getJobStatus (world finished) "AAAAAAAAAAAA") = Some Job.complete
  /\ (Job.error <$> getJobStatus (world finished) "AAAAAAAAAAAA")
     = Some (Some "Job cancelled by user")
  /\ (Model.status <$> models (world finished) !! "m1") = Some Model.complete.
Proof. vm_compute. repeat split. Qed.

(** C3 at a failing input: Blender cannot convert an FBX file; the job
    ends failed, nothing is removed, and the work directory and the
    script written into it are still there. *)
Theorem C3_failed_job_keeps_its_work_directory :
  let E := Scenario.tools_but true false true true true in
  let submitted :=
    run (convertModel E "m1" "/tmp/uploads/chair.fbx")
        (Scenario.uploaded "/tmp/uploads/chair.fbx" "FBX") [] in
  let w' := settled submitted.1.1 submitted.1.2 in
  submitted.2 = Ok "AAAAAAAAAAAA"
  /\ (Job.status <$> getJobStatus w' "AAAAAAAAAAAA") = Some Job.failed
  /\ files w' !! "/tmp/nexora-conversion/AAAAAAAAAAAA" = Some Dir
  /\ is_Some (files w' !! "/tmp/nexora-conversion/AAAAAAAAAAAA/convert.py")
  /\ existsb is_rm (trace w') = false.
Proof. vm_compute. repeat split. eexists. reflexivity. Qed.







(** C6 at a failing input: Blender cannot render; the stage returns the
    path of [thumbnail.jpg] although no such file exists, the placeholder
    having gone to S3 under the empty model id; the upload of the
    thumbnail then fails the job. *)
Theorem C6_fallback_thumbnail_is_not_at_the_returned_path :
  let E := Scenario.tools_but true true true true false in
  let wd := "/tmp/nexora-conversion/V1StGXR8_Z5j" in
  let glb := "/tmp/nexora-conversion/V1StGXR8_Z5j/model.glb" in
  let w := set_files (<[glb := File "glTF"]> (<[wd := Dir]> ∅)) empty_world in
  let w' := world_after (generateThumbnail E glb wd) w in
  result_of (generateThumbnail E glb wd) w
    = Ok "/tmp/nexora-conversion/V1StGXR8_Z5j/thumbnail.jpg"
  /\ files w' !! "/tmp/nexora-conversion/V1StGXR8_Z5j/thumbnail.jpg" = None
  /\ In (S3Put "models//thumbnail.jpeg" "image/jpeg") (trace w')
  /\ let done := world_after (processConversion E 0)
                   (Scenario.pending "/tmp/uploads/burger.glb" "glTF") in
     Job.status (job_at done 0) = Job.failed
     /\ Job.error (job_at done 0) = Some "Failed to upload processed JPG file".
Proof. vm_compute. repeat split. auto 20. Qed.

(** C7: when the optimizer fails, [optimizeForWebAR] does not throw and
    returns the path it was given; a conversion that then completes has
    generated the USDZ from the unoptimized GLB and has published that
    file, so that the GLB output of the job is a URL, not empty. *)
Theorem C7_optimizer_failure_is_not_fatal (E : Env) (w : World) (job : nat) :
  let j := job_at w job in
  let w' := world_after (processConversion E job) w in
  (job < List.length (heap w))%nat ->
  exit_ok (exec E (optimizeCommand (glbPath E j) (optimizedPath E j)) (workDir E j)) = false ->
  (forall w1, result_of (optimizeForWebAR E (glbPath E j) (workDir E j)) w1
              = Ok (glbPath E j))
  /\ (Job.status (job_at w' job) = Job.complete ->
      exists k,
        Job.glb (Job.outputFiles (job_at w' job)) = Some (processedUrl E j k "glb")
        /\ processedUrl E j k "glb" <> EmptyString
        /\ after w [ Exec (optimizeCommand (glbPath E j) (optimizedPath E j)) (workDir E j);
                     Exec (usdzCommand (glbPath E j) (usdzPath E j)) (workDir E j);
                     Fs (ReadFile (glbPath E j));
                     S3Put (processedKey E (Job.modelId j) k "glb") "model/gltf-binary" ] w').
Proof.
  intros j w' Hv Hfail. split.
  - intros w1.
    pose proof (spec_run _ _ _ (optimizeForWebAR_spec E (glbPath E j) (workDir E j) w1))
      as (opt & Hr & _ & Hun & _).
    rewrite Hr. f_equal. apply Hun, Hfail.
  - intros Hst.
    pose proof (spec_run _ _ _ (processConversion_spec E job w Hv)) as (_ & _ & [Hf|Hc]).
    { fold w' in Hf. congruence. }
    destruct Hc as (opt & k & ks & qr & C). fold w' in C.
    destruct C as [_ _ Hout _ Hun _ _ (conv & md & logs & _ & Htr) _ _]. fold j in Hout, Hun, Htr.
    rewrite (Hun Hfail) in Htr.
    exists k. rewrite Hout. split; [reflexivity|]. split; [apply file_url_not_empty|].
    eapply after_sublist; [|exact Htr]. pick_sublist.
Qed.

Lemma C7_optimizer_failure_is_not_fatal_witness :
  let E := Scenario.tools_but true true false true true in
  let w := Scenario.pending "/tmp/uploads/burger.glb" "glTF" in
  exists k,
    Job.glb (Job.outputFiles (job_at (world_after (processConversion E 0) w) 0))
    = Some (processedUrl E (job_at w 0) k "glb").
Proof.
  intros E w.
  assert (Hv : (0 < List.length (heap w))%nat) by (vm_compute; lia).
  assert (Hfail : exit_ok (exec E (optimizeCommand (glbPath E (job_at w 0))
                                                   (optimizedPath E (job_at w 0)))
                                (workDir E (job_at w 0))) = false)
    by (vm_compute; reflexivity).
  assert (Hst : Job.status (job_at (world_after (processConversion E 0) w) 0) = Job.complete)
    by (vm_compute; reflexivity).
  destruct (proj2 (C7_optimizer_failure_is_not_fatal E w 0 Hv Hfail) Hst) as (k & Hk & _).
  exists k. exact Hk.
Defined.

(** C8 at a failing input: the store is down when [convertModel] is
    called.  The call is rejected, and the job it registered is failed
    and has no end time; whatever time passes, the hourly sweep keeps it
    in the registry. *)
Theorem C8_job_refused_at_start_is_never_collected :
  let E := store_down in
  let submitted :=
    steps E (boot (Scenario.uploaded "/tmp/uploads/burger.glb" "glTF"))
      [Convert "m1" "/tmp/uploads/burger.glb"; Resume 0; Resume 0] in
  pool submitted = []
  /\ (Job.status <$> getJobStatus (world submitted) "AAAAAAAAAAAA") = Some Job.failed
  /\ (Job.endTime <$> getJobStatus (world submitted) "AAAAAAAAAAAA") = Some None
  /\ forall dt : Z,
       let later := steps E submitted [Tick dt; Sweep] in
       (Job.status <$> getJobStatus (world later) "AAAAAAAAAAAA") = Some Job.failed.
Proof.
  intros E submitted.
  assert (Hw : exists w1, submitted = {| world := w1; pool := [] |}
                          /\ jobs w1 !! "AAAAAAAAAAAA" = Some 0%nat
                          /\ Job.status (job_at w1 0) = Job.failed
                          /\ Job.endTime (job_at w1 0) = None).
  { eexists. split; [vm_compute; reflexivity|]. vm_compute. repeat split. }
  destruct Hw as (w1 & -> & Hj & Hs & He).
  split; [reflexivity|]. unfold getJobStatus. cbn [world]. rewrite Hj. cbn.
  rewrite Hs, He. split; [reflexivity|]. split; [reflexivity|].
  intros dt.
  change (Job.status
            <$> getJobStatus (cleanupOldJobs (set_now (now w1 + Z.max 0 dt) w1)) "AAAAAAAAAAAA"
          = Some Job.failed).
  unfold getJobStatus.
  rewrite (sweep_keeps_unended _ "AAAAAAAAAAAA" 0); [|exact Hj|exact He].
  change (Some (Job.status (job_at w1 0)) = Some Job.failed). rewrite Hs. reflexivity.
Qed.





(** In that run the row ends with the fourth identifier drawn, not with
    the one the uploader was given. *)
Example upload_link_is_gone :
  Model.shortLink
    <$> models (world_after (processConversion Scenario.all_fine 0) Upload.converting)
          !! Model.id Upload.answered
  = Some (Some "DDDDDDDD").
Proof. vm_compute. reflexivity. Qed.

(** ** Further properties: what the pipeline leaves alone *)

(** X1: the pipeline of a job changes no job object but its own, and
    leaves the registry, the clock and the number of job objects as they
    are, however it ends. *)
Theorem processConversion_touches_one_job (E : Env) (job : nat) (w : World) :
  let w' := world_after (processConversion E job) w in
  jobs w' = jobs w
  /\ now w' = now w
  /\ List.length (heap w') = List.length (heap w)
  /\ forall other, other <> job -> heap w' !! other = heap w !! other.
Proof.
  destruct (keeps_run (isolated job) (processConversion E job) w []
              (processConversion_isolated E job)) as [a b c d].
  repeat split; assumption.
Qed.

(** X3: however the pipeline of a job ends, the log entries the job had
    before are still there, in their order, at the front of its logs:
    the pipeline only appends to them. *)
Theorem processConversion_only_appends_logs (E : Env) (job : nat) (w : World) :
  exists added,
    Job.logs (job_at (world_after (processConversion E job) w) job)
    = (Job.logs (job_at w job) ++ added)%list.
Proof.
  exact (keeps_run (logs_grow job) (processConversion E job) w []
           (processConversion_logs_grow E job)).
Qed.

(** ** Further properties: jobs, stages and the store *)

(** X4: [cancelJob] does nothing at all for an identifier the registry
    does not hold and for a job that is pending, complete or failed: the
    job, the model and the trace stay as they are, and nothing is
    thrown. *)
Theorem cancelJob_only_while_processing
    (E : Env) (jobId : string) (w : World) (p : list (Async unit)) :
  (forall job, jobs w !! jobId = Some job -> Job.status (job_at w job) <> Job.processing) ->
  run (cancelJob E jobId) w p = (w, p, Ok tt).
Proof.
  intros H. unfold cancelJob. cbn.
  destruct (jobs w !! jobId) as [job|] eqn:Hj; [|reflexivity].
  specialize (H job eq_refl). cbn.
  destruct (Job.status (job_at w job)); try reflexivity. contradiction.
Qed.

Lemma cancelJob_only_while_processing_witness :
  run (cancelJob Scenario.all_fine "old") Registry.three_jobs []
  = (Registry.three_jobs, [], Ok tt).
Proof.
  apply cancelJob_only_while_processing.
  intros job Hj. vm_compute in Hj. injection Hj as <-. vm_compute. discriminate.
Defined.

(** X5: [cancelJob] of a job that is processing marks the job object
    failed, with the error of a cancellation and the time as its end,
    leaves the registry and the other jobs alone, and sends one update:
    the model is to be failed, with the logs of the job and the
    cancellation as its logs; the call fails only if that update does. *)
Theorem cancelJob_marks_failed
    (E : Env) (jobId : string) (job : nat) (w : World) :
  let j := job_at w job in
  let w' := world_after (cancelJob E jobId) w in
  jobs w !! jobId = Some job ->
  (job < List.length (heap w))%nat ->
  Job.status j = Job.processing ->
  job_at w' job
  = Job.set_endTime (now w)
      (Job.set_error "Job cancelled by user" (Job.set_status Job.failed j))
  /\ jobs w' = jobs w
  /\ (forall r, r <> job -> heap w' !! r = heap w !! r)
  /\ trace w' = (trace w ++ [Db (UpdateModel (Job.modelId j) (cancelled j))])%list
  /\ match db_error E (UpdateModel (Job.modelId j) (cancelled j)) with
     | Some msg => result_of (cancelJob E jobId) w = Error msg /\ models w' = models w
     | None =>
         result_of (cancelJob E jobId) w = Ok tt
         /\ models w'
            = match models w !! Job.modelId j with
              | Some m => <[Job.modelId j := Model.apply (cancelled j) (now w) m]> (models w)
              | None => models w
              end
     end.
Proof.
  intros j w' Hj Hv Hst. unfold w', world_after, result_of, cancelJob.
  cbn. rewrite Hj. cbn. fold j. rewrite Hst. cbn.
  match goal with |- context [job_at ?W job] =>
    lazymatch W with set_heap _ _ => set (W3 := W) in * end end.
  assert (HJ : job_at W3 job
               = Job.set_endTime (now w)
                   (Job.set_error "Job cancelled by user" (Job.set_status Job.failed j))).
  { unfold W3, job_at. cbn [heap set_heap]. rewrite !list_lookup_alter_eq.
    unfold j, job_at. destruct (lookup_lt_is_Some_2 _ _ Hv) as [x ->]. reflexivity. }
  assert (HO : forall r, r <> job -> heap W3 !! r = heap w !! r).
  { intros r Hr. unfold W3. cbn [heap set_heap]. rewrite !list_lookup_alter_ne by congruence.
    reflexivity. }
  rewrite HJ. cbn [Job.modelId Job.logs Job.set_endTime Job.set_error Job.set_status].
  fold (cancelled j). unfold Storage.db_call.
  destruct (db_error E (UpdateModel (Job.modelId j) (cancelled j))) as [msg|].
  - cbn. repeat split; auto.
  - cbn [models emit].
    change (models W3) with (models w). change (now W3) with (now w).
    destruct (models w !! Job.modelId j) as [m|]; cbn; repeat split; auto.
Qed.

Lemma cancelJob_marks_failed_witness :
  Job.status (job_at (world_after (cancelJob Scenario.all_fine "running") Registry.three_jobs) 2)
  = Job.failed.
Proof.
  rewrite (proj1 (cancelJob_marks_failed Scenario.all_fine "running" 2 Registry.three_jobs
                    eq_refl ltac:(vm_compute; lia) eq_refl)).
  reflexivity.
Defined.


Lemma convertModel_refused (E : Env) (modelId path : string) (w : World) msg :
  db_error E (UpdateModel modelId started) = Some msg ->
  exists e, result_of (convertModel E modelId path) w = Error e.
Proof.
  intros Hdb. unfold result_of, convertModel, conversion_not_started.
  cbn. unfold Storage.db_call. cbn [emit]. fold started. rewrite Hdb. cbn.
  match goal with |- context [db_error E ?op] => destruct (db_error E op) end.
  - cbn. eauto.
  - match goal with |- context [models ?W !! modelId] => destruct (models W !! modelId) end;
      cbn; eauto.
Qed.

(** X6: when the first write of [convertModel] is refused, the call
    fails, and it leaves in the registry a job that is failed, with the
    message of the refusal as its error, and with no end time; no sweep
    of [cleanupOldJobs], however late, removes that job. *)
Theorem job_refused_at_start_is_never_swept
    (E : Env) (modelId path : string) (w : World) (msg : string) :
  let jobId := nanoid E 12 (draws w) in
  let job := List.length (heap w) in
  let w1 := world_after (convertModel E modelId path) w in
  db_error E (UpdateModel modelId started) = Some msg ->
  (exists e, result_of (convertModel E modelId path) w = Error e)
  /\ jobs w1 !! jobId = Some job
  /\ Job.status (job_at w1 job) = Job.failed
  /\ Job.error (job_at w1 job) = Some msg
  /\ Job.endTime (job_at w1 job) = None
  /\ forall t, jobs (cleanupOldJobs (set_now t w1)) !! jobId = Some job.
Proof.
  intros jobId job w1 Hdb.
  destruct (convertModel_refused E modelId path w msg Hdb) as [e He].
  split; [eauto|].
  destruct (convertModel_run E modelId path w)
    as [(ws & Hr & _)|(msg' & _ & Hdb' & _ & Hj & _ & _ & Hjob & _)].
  { unfold result_of in He. rewrite He in Hr. discriminate. }
  rewrite Hdb in Hdb'. injection Hdb' as <-.
  change ((run (convertModel E modelId path) w []).1.1) with w1 in Hj, Hjob.
  fold job in Hj, Hjob. fold jobId in Hj.
  assert (Hin : jobs w1 !! jobId = Some job) by (rewrite Hj; apply lookup_insert_eq).
  rewrite Hjob. repeat split; try reflexivity; try assumption.
  intros t. rewrite cleanupOldJobs_lookup.
  change (jobs (set_now t w1)) with (jobs w1). rewrite Hin.
  change (job_at (set_now t w1) job) with (job_at w1 job). rewrite Hjob. reflexivity.
Qed.


Lemma processConversion_ends E job w :
  (job < List.length (heap w))%nat ->
  spec (processConversion E job) w
    (fun w' r =>
       (Job.status (job_at w' job) = Job.complete
        \/ Job.status (job_at w' job) = Job.failed
           /\ exists e, Job.error (job_at w' job) = Some e)
       /\ Job.endTime (job_at w' job) = Some (now w)).
Proof.
  intros Hv. unfold processConversion. apply spec_try_catch.
  eapply spec_mono; [apply conversion_spec, Hv|].
  intros w1 [[]|e] (P1 & V1 & H1).
  - destruct H1 as (opt & k & ks & qr & C). split; [left; apply C | apply C].
  - eapply spec_mono; [apply (conversion_failed_spec E job no_select); auto|].
    intros w2 r (P2 & V2 & Hst & He & Hend & _).
    split; [right; eauto|]. rewrite Hend. f_equal. apply P1.
Qed.

(** X7: when the pipeline of a registered job has run to its end, the
    job is complete or failed (with its error set), and its end time is
    set; a sweep of [cleanupOldJobs] then keeps the job up to 24 hours
    after that time and removes it from the registry later than that. *)
Theorem finished_job_is_swept_after_a_day
    (E : Env) (jobId : string) (job : nat) (w : World) :
  let w' := world_after (processConversion E job) w in
  let day := 24 * 60 * 60 * 1000 in
  jobs w !! jobId = Some job ->
  (job < List.length (heap w))%nat ->
  Job.terminal (Job.status (job_at w' job)) = true
  /\ (Job.status (job_at w' job) = Job.failed -> is_Some (Job.error (job_at w' job)))
  /\ Job.endTime (job_at w' job) = Some (now w)
  /\ (forall t, t <= now w + day ->
                jobs (cleanupOldJobs (set_now t w')) !! jobId = Some job)
  /\ (forall t, now w + day < t ->
                jobs (cleanupOldJobs (set_now t w')) !! jobId = None).
Proof.
  intros w' day Hj Hv.
  destruct (spec_run _ _ _ (processConversion_ends E job w Hv)) as (Hst & Hend).
  fold w' in Hst, Hend.
  assert (Hj' : jobs w' !! jobId = Some job).
  { unfold w'. unfold world_after.
    rewrite (is_jobs _ _ _ (keeps_run (isolated job) _ w [] (processConversion_isolated E job))).
    exact Hj. }
  split; [destruct Hst as [->|[-> _]]; reflexivity|].
  split; [intros Hf; destruct Hst as [Hc|[_ [e ->]]]; [congruence | eauto]|].
  split; [exact Hend|].
  split; intros t Ht; rewrite cleanupOldJobs_lookup;
    change (jobs (set_now t w')) with (jobs w');
    change (now (set_now t w')) with t;
    rewrite Hj'; unfold expired;
    change (job_at (set_now t w') job) with (job_at w' job); rewrite Hend.
  - destruct (Z.ltb_spec (now w) (t - 24 * 60 * 60 * 1000)); [unfold day in Ht; lia | reflexivity].
  - destruct (Z.ltb_spec (now w) (t - 24 * 60 * 60 * 1000)); [reflexivity | unfold day in Ht; lia].
Qed.

Lemma job_refused_at_start_is_never_swept_witness :
  jobs (cleanupOldJobs
          (set_now (1000 * Registry.hour)
             (world_after (convertModel store_down "m1" "/tmp/uploads/burger.glb")
                (Scenario.uploaded "/tmp/uploads/burger.glb" "glTF"))))
    !! "AAAAAAAAAAAA"
  = Some 0%nat.
Proof.
  exact (proj2 (proj2 (proj2 (proj2 (proj2
           (job_refused_at_start_is_never_swept store_down "m1" "/tmp/uploads/burger.glb"
              (Scenario.uploaded "/tmp/uploads/burger.glb" "glTF")
              "connect ECONNREFUSED 127.0.0.1:5432" eq_refl)))))
           (1000 * Registry.hour)).
Defined.

Lemma finished_job_is_swept_after_a_day_witness :
  jobs (cleanupOldJobs
          (set_now (25 * Registry.hour)
             (world_after (processConversion Scenario.all_fine 0)
                (Scenario.pending "/tmp/uploads/burger.glb" "glTF"))))
    !! "V1StGXR8_Z5j"
  = None.
Proof.
  apply (finished_job_is_swept_after_a_day Scenario.all_fine "V1StGXR8_Z5j" 0
           (Scenario.pending "/tmp/uploads/burger.glb" "glTF") eq_refl).
  - vm_compute. lia.
  - vm_compute. reflexivity.
Defined.

(** X8: a second sweep of [cleanupOldJobs] at the same time changes
    nothing more, and a sweep adds no entry to the registry and changes
    none: what it leaves is what was there. *)
Theorem cleanupOldJobs_idempotent (w : World) :
  cleanupOldJobs (cleanupOldJobs w) = cleanupOldJobs w
  /\ jobs (cleanupOldJobs w) ⊆ jobs w.
Proof.
  assert (Hsub : jobs (cleanupOldJobs w) ⊆ jobs w).
  { apply map_subseteq_spec. intros k job. rewrite cleanupOldJobs_lookup.
    destruct (jobs w !! k) as [job'|]; [|discriminate].
    destruct (expired _ _); [discriminate | auto]. }
  split; [|exact Hsub].
  assert (Hj : jobs (cleanupOldJobs (cleanupOldJobs w)) = jobs (cleanupOldJobs w)).
  { apply map_eq. intros k. rewrite cleanupOldJobs_lookup.
    destruct (cleanupOldJobs_frame w) as (Hh & _ & _ & _ & Hn).
    destruct (jobs (cleanupOldJobs w) !! k) as [job|] eqn:Hk; [|reflexivity].
    rewrite cleanupOldJobs_lookup in Hk.
    destruct (jobs w !! k) as [job'|]; [|discriminate].
    destruct (expired _ (job_at w job')) eqn:Hex; [discriminate|].
    injection Hk as <-. rewrite Hn. unfold job_at. rewrite Hh. fold (job_at w job').
    rewrite Hex. reflexivity. }
  change (cleanupOldJobs (cleanupOldJobs w))
    with (set_jobs (jobs (cleanupOldJobs (cleanupOldJobs w))) (cleanupOldJobs w)).
  rewrite Hj. reflexivity.
Qed.



Lemma uploadAll_puts E a b c m w :
  spec (uploadAll E a b c m) w
    (fun w' r => forall urls, r = Ok urls ->
       after w [ Fs (ReadFile a); S3Put (processedKey E m (draws w) "glb") (contentType "glb");
                 Fs (ReadFile b);
                 S3Put (processedKey E m (S (draws w)) "usdz") (contentType "usdz");
                 Fs (ReadFile c);
                 S3Put (processedKey E m (S (S (draws w))) "jpg") (contentType "jpg") ] w').
Proof.
  unfold uploadAll.
  apply spec_bind. eapply spec_mono; [apply upload_spec|].
  intros w1 r1 (g & -> & Hd1 & Hg).
  apply spec_bind. eapply spec_mono; [apply upload_spec|].
  intros w2 r2 (u & -> & Hd2 & Hu). cbv beta.
  apply spec_bind. eapply spec_mono; [apply upload_spec|].
  intros w3 r3 (t & -> & Hd3 & Ht). cbv beta.
  destruct g as [gu|ge]; [|apply spec_throw; discriminate].
  destruct u as [uu|ue]; [|apply spec_throw; discriminate].
  destruct t as [tu|te]; [|apply spec_throw; discriminate].
  apply spec_ret. intros urls _.
  destruct (Hg gu eq_refl) as [_ (t1 & H1)]. destruct (Hu uu eq_refl) as [_ (t2 & H2)].
  destruct (Ht tu eq_refl) as [_ (t3 & H3)]. rewrite Hd1 in H2. rewrite Hd2, Hd1 in H3.
  pose proof (after_nil w) as A0.
  pose proof (after_snoc _ _ _ _ _ _ A0 H1) as A1.
  pose proof (after_snoc _ _ _ _ _ _ A1 H2) as A2.
  exact (after_snoc _ _ _ _ _ _ A2 H3).
Qed.

(** X9: when the three uploads of a conversion succeed, the GLB has
    been stored as [model/gltf-binary] and both the USDZ and the
    thumbnail as [model/vnd.usdz+zip], in whatever order the three
    uploads went: the thumbnail, a JPEG under a key that ends in [.jpg],
    gets the content type of a USDZ file.  The keys carry the three
    identifiers in the order in which the uploads were started. *)
Theorem thumbnail_is_stored_as_usdz
    (E : Env) (optimizedGlbPath usdzPath thumbnailPath modelId : string) (w : World)
    (urls : string * string * string) :
  result_of (uploadAll E optimizedGlbPath usdzPath thumbnailPath modelId) w = Ok urls ->
  exists d,
    trace (world_after (uploadAll E optimizedGlbPath usdzPath thumbnailPath modelId) w)
    = (trace w ++ d)%list
    /\ In (S3Put (processedKey E modelId (draws w) "glb") "model/gltf-binary") d
    /\ In (S3Put (processedKey E modelId (S (draws w)) "usdz") "model/vnd.usdz+zip") d
    /\ In (S3Put (processedKey E modelId (S (S (draws w))) "jpg") "model/vnd.usdz+zip") d.
Proof.
  intros Hr.
  pose proof (spec_run _ _ _ (uploadAll_puts E optimizedGlbPath usdzPath thumbnailPath
                                modelId w) urls Hr) as (d & Hd & Hsub).
  exists d. split; [exact Hd|].
  assert (Hin : forall ev,
            In ev [ Fs (ReadFile optimizedGlbPath);
                    S3Put (processedKey E modelId (draws w) "glb") (contentType "glb");
                    Fs (ReadFile usdzPath);
                    S3Put (processedKey E modelId (S (draws w)) "usdz") (contentType "usdz");
                    Fs (ReadFile thumbnailPath);
                    S3Put (processedKey E modelId (S (S (draws w))) "jpg") (contentType "jpg") ] ->
            In ev d).
  { intros ev Hev. apply list_elem_of_In. eapply sublist_subseteq; [exact Hsub|].
    apply list_elem_of_In, Hev. }
  repeat split; apply Hin; simpl; auto 10.
Qed.

Lemma thumbnail_is_stored_as_usdz_witness :
  let w := artifacts in
  exists d,
    trace (world_after
             (uploadAll Scenario.all_fine "/tmp/nexora-conversion/V1StGXR8_Z5j/optimized.glb"
                "/tmp/nexora-conversion/V1StGXR8_Z5j/model.usdz"
                "/tmp/nexora-conversion/V1StGXR8_Z5j/thumbnail.jpg" "m1") w)
    = (trace w ++ d)%list
    /\ In (S3Put "models/m1/processed/CCCCCCCC.jpg" "model/vnd.usdz+zip") d.
Proof.
  intros w.
  destruct (thumbnail_is_stored_as_usdz Scenario.all_fine
              "/tmp/nexora-conversion/V1StGXR8_Z5j/optimized.glb"
              "/tmp/nexora-conversion/V1StGXR8_Z5j/model.usdz"
              "/tmp/nexora-conversion/V1StGXR8_Z5j/thumbnail.jpg" "m1" w
              (FileUploadService.file_url Scenario.all_fine "models/m1/processed/AAAAAAAA.glb",
               FileUploadService.file_url Scenario.all_fine "models/m1/processed/BBBBBBBB.usdz",
               FileUploadService.file_url Scenario.all_fine "models/m1/processed/CCCCCCCC.jpg"))
    as (d & Hd & _ & _ & Hjpg).
  - vm_compute. reflexivity.
  - exists d. split; [exact Hd | exact Hjpg].
Defined.

(** X10: [uploadFile] either returns the URL of the key
    [models/{modelId}/{nanoid(8)}{extension of the original name}],
    after it has read the temporary file and stored it under that key
    with the MIME type multer reported, or fails with the one error
    [Failed to upload file to cloud storage], whatever went wrong.  On
    success the temporary file is gone, unless removing it failed, which
    is only warned about. *)
Theorem uploadFile_outcome (E : Env) (file : MulterFile) (modelId : string) (w : World) :
  let w' := world_after (FileUploadService.uploadFile E file modelId) w in
  let key := uploadKey E file modelId (draws w) in
  match result_of (FileUploadService.uploadFile E file modelId) w with
  | Ok url =>
      url = FileUploadService.file_url E key
      /\ (exists content, files w !! path file = Some (File content))
      /\ after w [Fs (ReadFile (path file)); S3Put key (mimetype file);
                  Fs (Unlink (path file))] w'
      /\ match fs_error E (Unlink (path file)) with
         | None => files w' = delete (path file) (files w)
         | Some _ => files w' = files w
         end
  | Error message =>
      message = "Failed to upload file to cloud storage" /\ files w' = files w
  end.
Proof.
  unfold result_of, world_after, FileUploadService.uploadFile, uploadKey.
  cbn. unfold fs_call. cbn.
  destruct (fs_error E (ReadFile (path file))); cbn; [auto|].
  destruct (files w !! path file) as [[|content]|] eqn:Hf; cbn; auto.
  destruct (s3_error E _); cbn; [auto|].
  destruct (fs_error E (Unlink (path file))); [|rewrite Hf]; cbn.
  all: split; [reflexivity|]; split; [eauto|]; split; [|reflexivity].
  all: eexists; split; [cbn; rewrite <- !app_assoc; reflexivity|]; pick_sublist.
Qed.

(** X11: when [usd_from_gltf] fails, [generateUSDZ] still returns the
    path of [model.usdz], and a file with the placeholder content is
    then at that path; it fails only if the placeholder cannot be
    written. *)
Theorem generateUSDZ_leaves_a_file (E : Env) (glbPath workDir : string) (w : World) :
  let usdzPath := Node.path_join workDir "model.usdz" in
  let w' := world_after (generateUSDZ E glbPath workDir) w in
  exit_ok (exec E (usdzCommand glbPath usdzPath) workDir) = false ->
  match result_of (generateUSDZ E glbPath workDir) w with
  | Ok p => p = usdzPath /\ files w' !! usdzPath = Some (File "placeholder usdz content")
  | Error message =>
      fs_error E (WriteFile usdzPath "placeholder usdz content") = Some message
      \/ message = "EISDIR: illegal operation on a directory, open " ++ sq usdzPath
  end.
Proof.
  intros usdzPath w' Hfail.
  unfold w', result_of, world_after, generateUSDZ, runCommand. cbn. fold usdzPath.
  rewrite Hfail. cbn. unfold fs_call. cbn.
  destruct (fs_error E (WriteFile usdzPath _)); cbn; [auto|].
  destruct (write_all _ _ !! usdzPath) as [[|c]|]; cbn; auto;
    (split; [reflexivity | apply lookup_insert_eq]).
Qed.

Lemma generateUSDZ_leaves_a_file_witness :
  let E := Scenario.tools_but true true true false true in
  let w := artifacts in
  files (world_after (generateUSDZ E "/tmp/nexora-conversion/V1StGXR8_Z5j/optimized.glb"
                        "/tmp/nexora-conversion/V1StGXR8_Z5j") w)
    !! "/tmp/nexora-conversion/V1StGXR8_Z5j/model.usdz"
  = Some (File "placeholder usdz content").
Proof.
  intros E w.
  pose proof (generateUSDZ_leaves_a_file E "/tmp/nexora-conversion/V1StGXR8_Z5j/optimized.glb"
                "/tmp/nexora-conversion/V1StGXR8_Z5j" w eq_refl) as H.
  exact (proj2 H).
Defined.

(** X12: [analyzeModel] never fails and changes no file.  For a file it
    can stat it reports the size of the file, and 12400 vertices, 24800
    triangles, 4 textures, format GLB and optimized whatever the file
    holds; for a path it cannot stat it reports nothing at all. *)
Theorem analyzeModel_outcome (E : Env) (glbPath : string) (w : World) :
  let w' := world_after (analyzeModel E glbPath) w in
  files w' = files w
  /\ result_of (analyzeModel E glbPath) w
     = Ok match fs_error E (Stat glbPath), files w !! glbPath with
          | None, Some (File content) => analysis (Z.of_nat (String.length content))
          | None, Some Dir => analysis 4096
          | _, _ => Model.empty_metadata
          end.
Proof.
  unfold result_of, world_after, analyzeModel. cbn. unfold fs_call. cbn.
  destruct (fs_error E (Stat glbPath)); cbn; [auto|].
  destruct (files w !! glbPath) as [[|c]|]; cbn; auto.
Qed.

(** X13: [generateQRCode] never fails and never stores anything in S3.
    It returns the empty string, or, when the code of
    [{BASE_URL}/ar/{shortLink}] was made and written, the URL
    [https://cdn.nexora.app/qr/{shortLink}.png]: the image is then in
    the file [qr-{shortLink}.png] of the temporary directory. *)
Theorem generateQRCode_stores_nothing (E : Env) (shortLink : string) (w : World) :
  let w' := world_after (generateQRCode E shortLink) w in
  let qrPath := Node.path_join (tempDir E) ("qr-" ++ shortLink ++ ".png") in
  (exists d, trace w' = (trace w ++ QRCode (arUrl E shortLink) :: d)%list
             /\ forallb no_put d = true)
  /\ (result_of (generateQRCode E shortLink) w = Ok EmptyString
      \/ result_of (generateQRCode E shortLink) w = Ok (qrUrl shortLink)
         /\ exists image, qrcode_toBuffer E (arUrl E shortLink) = Some image
                          /\ files w' !! qrPath = Some (File image)).
Proof.
  unfold result_of, world_after, generateQRCode. cbn.
  destruct (qrcode_toBuffer E (arUrl E shortLink)) as [image|]; cbn.
  - unfold fs_call. cbn. destruct (fs_error E _); cbn.
    + split; [eexists; split; [rewrite <- !app_assoc; reflexivity | reflexivity] | auto].
    + destruct (files w !! _) as [[|c]|]; cbn.
      * split; [eexists; split; [rewrite <- !app_assoc; reflexivity | reflexivity] | auto].
      * split; [eexists; split; [rewrite <- !app_assoc; reflexivity | reflexivity]|].
        right. split; [reflexivity|]. eexists. split; [reflexivity | apply lookup_insert_eq].
      * split; [eexists; split; [rewrite <- !app_assoc; reflexivity | reflexivity]|].
        right. split; [reflexivity|]. eexists. split; [reflexivity | apply lookup_insert_eq].
  - split; [eexists; split; [rewrite <- !app_assoc; reflexivity | reflexivity] | auto].
Qed.

Lemma missing_glb_spec E job w :
  let j0 := job_at w job in
  let input := Job.inputFile j0 in
  let wd := workDir E j0 in
  (job < List.length (heap w))%nat ->
  Node.extname input = ".glb" ->
  files w !! input = None ->
  input <> wd ->
  spec (processConversion E job) w
    (fun w' r =>
       progress no_exec w w'
       /\ Job.status (job_at w' job) = Job.failed
       /\ exists msg, Job.error (job_at w' job) = Some msg
            /\ (msg = "ENOENT: no such file or directory, copyfile "
                      ++ sq input ++ " -> " ++ sq (glbPath E j0)
                \/ fs_error E (CopyFile input (glbPath E j0)) = Some msg
                \/ fs_error E (Mkdir wd) = Some msg
                \/ msg = eexist wd)).
Proof.
  intros j0 input wd Hv Hext Hnone Hdiff.
  unfold processConversion, conversion. apply spec_try_catch.
  apply spec_bind, spec_assign.
  assert (T : track no_exec job (Job.set_status Job.processing j0) w
                (set_heap (alter (Job.set_status Job.processing) job (heap w)) w)).
  { apply (track_assign job no_exec j0 _ w w); [|apply same_job_set_status].
    split; [apply progress_refl|]. split; [exact Hv | apply same_job_refl]. }
  assert (F0 : files (set_heap (alter (Job.set_status Job.processing) job (heap w)) w)
               = files w) by reflexivity.
  set (wa := set_heap _ w) in *. clearbody wa.
  apply spec_bind.
  eapply spec_mono;
    [apply (spec_keeps same_files);
     [apply (updateJobLogs_spec E job no_exec); reflexivity
     | apply updateJobLogs_same_files]|].
  intros w1 r [[-> F1] Hfiles]. apply (track_frame _ _ _ _ _ _ T) in F1 as T1.
  unfold same_files in Hfiles. rewrite F0 in Hfiles.
  apply spec_bind, spec_read_job.
  destruct T1 as (P1 & V1 & J1).
  assert (Hid : Job.id (job_at w1 job) = Job.id j0) by apply J1.
  assert (Hin : Job.inputFile (job_at w1 job) = Job.inputFile j0) by apply J1.
  cbv zeta. rewrite Hid, Hin. fold input. fold (workDir E j0). fold wd.
  rewrite Hext. change (Node.toLowerCase ".glb") with ".glb".
  change (convert E ".glb" job wd) with (processGLTF E job wd).
  assert (Hfail : forall w2 msg,
            progress no_exec w w2 -> (job < List.length (heap w2))%nat ->
            (msg = "ENOENT: no such file or directory, copyfile "
                   ++ sq input ++ " -> " ++ sq (glbPath E j0)
             \/ fs_error E (CopyFile input (glbPath E j0)) = Some msg
             \/ fs_error E (Mkdir wd) = Some msg
             \/ msg = eexist wd) ->
            spec (conversion_failed E job msg) w2
              (fun w' r =>
                 progress no_exec w w'
                 /\ Job.status (job_at w' job) = Job.failed
                 /\ exists msg, Job.error (job_at w' job) = Some msg
                     /\ (msg = "ENOENT: no such file or directory, copyfile "
                               ++ sq input ++ " -> " ++ sq (glbPath E j0)
                         \/ fs_error E (CopyFile input (glbPath E j0)) = Some msg
                         \/ fs_error E (Mkdir wd) = Some msg
                         \/ msg = eexist wd))).
  { intros w2 msg P2 V2 Hmsg.
    eapply spec_mono; [apply (conversion_failed_spec E job no_exec); auto|].
    intros w3 r (P3 & V3 & Hst & Herr & _).
    split; [eapply progress_trans; eauto|]. split; [exact Hst|].
    exists msg. split; assumption. }
  apply spec_bind. unfold fs_mkdir. apply spec_fs.
  destruct (fs_error E (Mkdir wd)) as [msg|] eqn:Hfs.
  { apply Hfail; [|exact V1|auto].
    eapply progress_trans; [exact P1 | apply progress_emit; reflexivity]. }
  assert (Hcopy : forall w2 {B} (rest : string -> Async B) Q,
            progress no_exec w w2 -> (job < List.length (heap w2))%nat ->
            job_at w2 job = job_at w1 job ->
            files w2 !! input = None ->
            (forall w3 msg,
               progress no_exec w w3 -> (job < List.length (heap w3))%nat ->
               (msg = "ENOENT: no such file or directory, copyfile "
                      ++ sq input ++ " -> " ++ sq (glbPath E j0)
                \/ fs_error E (CopyFile input (glbPath E j0)) = Some msg) ->
               Q w3 (@Error B msg)) ->
            spec (bind (processGLTF E job wd) rest) w2 Q).
  { intros w2 B rest Q P2 V2 J2 Hf HQ.
    apply spec_bind. unfold processGLTF. apply spec_bind, spec_read_job.
    rewrite J2, Hin. fold input. rewrite Hext. cbn [String.eqb Ascii.eqb Bool.eqb].
    fold (glbPath E j0).
    apply spec_bind. unfold fs_copyFile. apply spec_fs.
    destruct (fs_error E (CopyFile input _)) as [msg|] eqn:Hce.
    - apply HQ; [|exact V2|auto].
      eapply progress_trans; [exact P2 | apply progress_emit; reflexivity].
    - rewrite Hf. apply HQ; auto.
      eapply progress_trans; [exact P2 | apply progress_emit; reflexivity]. }
  assert (Hkept : forall node, (<[wd := node]> (files w1)) !! input = None).
  { intros node. rewrite lookup_insert_ne by congruence. rewrite Hfiles. exact Hnone. }
  destruct (files w1 !! wd) as [[|c]|] eqn:Hwd.
  - apply Hcopy; [|exact V1|reflexivity|apply Hkept|].
    + eapply progress_trans; [exact P1 | apply progress_emit_files; reflexivity].
    + intros w3 msg P3 V3 Hmsg. apply Hfail; [exact P3|exact V3|tauto].
  - apply Hfail; [|exact V1|auto].
    eapply progress_trans; [exact P1 | apply progress_emit; reflexivity].
  - apply Hcopy; [|exact V1|reflexivity|apply Hkept|].
    + eapply progress_trans; [exact P1 | apply progress_emit_files; reflexivity].
    + intros w3 msg P3 V3 Hmsg. apply Hfail; [exact P3|exact V3|tauto].
Qed.

(** X14: a conversion whose input has the extension [.glb] and is not
    there when the pipeline starts (as after the removal of the
    temporary file by [uploadFile]) ends with the job failed.  Unless
    making the work directory fails or the copy is refused for another
    reason, the error of the job is the one [fs.copyFile] gives for a
    missing source, [ENOENT: no such file or directory, copyfile
    '{input}' -> '{workDir}/model.glb']; and no external tool is run. *)
Theorem missing_glb_input_fails_the_job (E : Env) (job : nat) (w : World) :
  let j := job_at w job in
  let input := Job.inputFile j in
  let wd := workDir E j in
  let w' := world_after (processConversion E job) w in
  (job < List.length (heap w))%nat ->
  Node.extname input = ".glb" ->
  files w !! input = None ->
  input <> wd ->
  Job.status (job_at w' job) = Job.failed
  /\ (exists msg, Job.error (job_at w' job) = Some msg
        /\ (msg = "ENOENT: no such file or directory, copyfile "
                  ++ sq input ++ " -> " ++ sq (glbPath E j)
            \/ fs_error E (CopyFile input (glbPath E j)) = Some msg
            \/ fs_error E (Mkdir wd) = Some msg
            \/ msg = eexist wd))
  /\ exists d, trace w' = (trace w ++ d)%list /\ forallb no_exec d = true.
Proof.
  intros j input wd w' Hv Hext Hnone Hdiff.
  destruct (spec_run _ _ _ (missing_glb_spec E job w Hv Hext Hnone Hdiff)) as (Pg & Hst & Herr).
  split; [exact Hst|]. split; [exact Herr|]. apply Pg.
Qed.

Lemma missing_glb_input_fails_the_job_witness :
  let w' := world_after (processConversion Scenario.all_fine 0) lost_upload in
  Job.status (job_at w' 0) = Job.failed
  /\ Job.error (job_at w' 0)
     = Some ("ENOENT: no such file or directory, copyfile '/tmp/uploads/burger.glb'"
             ++ " -> '/tmp/nexora-conversion/V1StGXR8_Z5j/model.glb'").
Proof.
  destruct (missing_glb_input_fails_the_job Scenario.all_fine 0 lost_upload)
    as (Hst & (msg & Hmsg & Hwhich) & _).
  - vm_compute. lia.
  - vm_compute. reflexivity.
  - vm_compute. reflexivity.
  - vm_compute. discriminate.
  - split; [exact Hst|]. cbv zeta. rewrite Hmsg. f_equal.
    destruct Hwhich as [-> | [H | [H | ->]]]; [reflexivity | discriminate H | discriminate H |].
    exfalso. assert (Hfile : Job.error (job_at (world_after
                (processConversion Scenario.all_fine 0) lost_upload) 0)
              <> Some (eexist (workDir Scenario.all_fine (job_at lost_upload 0))))
      by (vm_compute; discriminate).
    exact (Hfile Hmsg).
Defined.








(** X18: [uploadProcessedModel] either returns the URL of the key
    [models/{modelId}/processed/{nanoid(8)}.{format}], after it has read
    the file and stored it under that key, or fails with the one error
    [Failed to upload processed {FORMAT} file], the format in capitals,
    whatever went wrong; a file that cannot be read is not sent to S3.
    It changes no file, and it draws one identifier either way. *)
Theorem uploadProcessedModel_outcome
    (E : Env) (filePath modelId format : string) (w : World) :
  let w' := world_after (FileUploadService.uploadProcessedModel E filePath modelId format) w in
  let key := processedKey E modelId (draws w) format in
  files w' = files w
  /\ draws w' = S (draws w)
  /\ match result_of (FileUploadService.uploadProcessedModel E filePath modelId format) w with
     | Ok url =>
         url = FileUploadService.file_url E key
         /\ (exists content, files w !! filePath = Some (File content))
         /\ trace w' = (trace w ++ [Fs (ReadFile filePath); S3Put key (contentType format)])%list
     | Error message =>
         message = "Failed to upload processed " ++ Node.toUpperCase format ++ " file"
         /\ ((forall content, files w !! filePath <> Some (File content)) ->
             exists line,
               trace w' = (trace w ++ [Fs (ReadFile filePath); Console Err line])%list)
     end.
Proof.
  unfold result_of, world_after, FileUploadService.uploadProcessedModel, processedKey, contentType.
  cbn. unfold fs_call. cbn.
  destruct (fs_error E (ReadFile filePath)); cbn.
  { repeat split; auto. intros _. eexists. rewrite <- !app_assoc. reflexivity. }
  destruct (files w !! filePath) as [[|content]|] eqn:Hf; cbn.
  1,3: repeat split; auto; intros _; eexists; rewrite <- !app_assoc; reflexivity.
  destruct (s3_error E _); cbn.
  - repeat split; auto. intros H. exfalso. exact (H content eq_refl).
  - repeat split; eauto. rewrite <- !app_assoc. reflexivity.
Qed.

(** ** Further properties: the upload route *)

(** X19: the upload route never throws: it always answers, with
    status 200 and a model, or with status 400 and one of two messages;
    and without a file it answers [No file uploaded] and does nothing
    else. *)
Theorem upload_always_answers
    (E : Env) (file : option MulterFile) (body : Routes.UploadBody) (w : World)
    (p : list (Async unit)) :
  (exists status b,
     (run (Routes.upload E file body) w p).2 = Ok (Routes.Json status b)
     /\ (status = 200 /\ (exists m, b = Routes.ModelJson m) /\ is_Some file
         \/ status = 400 /\ (b = Routes.MessageJson "No file uploaded" /\ file = None
                             \/ b = Routes.MessageJson "Failed to upload model")))
  /\ (file = None ->
      run (Routes.upload E file body) w p
      = (w, p, Ok (Routes.Json 400 (Routes.MessageJson "No file uploaded")))).
Proof.
  split; [|intros ->; reflexivity].
  unfold Routes.upload. rewrite run_try_catch.
  destruct file as [f|]; [|cbn; eauto 10].
  destruct (run _ w p) as [[w1 p1] [resp|e]] eqn:Hb.
  2:{ unfold console. cbn. eauto 10. }
  cbn [snd]. revert Hb.
  rewrite run_bind. cbn [draw_nanoid sync run].
  rewrite run_bind. unfold Routes.parse.
  destruct (Routes.name body) as [n|]; [|discriminate].
  destruct (Routes.projectId body) as [pid|]; [|discriminate].
  cbn [run]. rewrite run_bind.
  destruct (run (Storage.createArModel E _) _ p) as [[w2 p2] [model|e]] eqn:Hc; [|discriminate].
  rewrite run_bind.
  destruct (run (FileUploadService.uploadFile E f (Model.id model)) w2 p2) as [[w3 p3] [url|e]];
    [|discriminate].
  rewrite run_bind.
  destruct (run (Storage.updateModel E _ _) w3 p3) as [[w4 p4] [om|e]]; [|discriminate].
  rewrite run_spawn_ret. intros [= _ _ <-]. eauto 10.
Qed.

(** X20: a request whose body lacks the name or the project is answered
    with status 400 and [Failed to upload model], and nothing has been
    stored by then: no row is made, no file is read, removed or sent to
    S3, no job is made; the temporary file multer wrote is left where it
    is.  The route only writes to the console. *)
Theorem upload_rejects_incomplete_body
    (E : Env) (file : MulterFile) (body : Routes.UploadBody) (w : World)
    (p : list (Async unit)) :
  let r := run (Routes.upload E (Some file) body) w p in
  Routes.name body = None \/ Routes.projectId body = None ->
  r.2 = Ok (Routes.Json 400 (Routes.MessageJson "Failed to upload model"))
  /\ r.1.2 = p
  /\ models r.1.1 = models w /\ files r.1.1 = files w
  /\ jobs r.1.1 = jobs w /\ heap r.1.1 = heap w
  /\ exists d, trace r.1.1 = (trace w ++ d)%list /\ forallb only_console d = true.
Proof.
  intros r H. subst r. unfold Routes.upload, Routes.parse. cbn.
  destruct (Routes.name body), (Routes.projectId body); destruct H; try discriminate;
    cbn; repeat split; eexists; (split; [reflexivity | reflexivity]).
Qed.

Lemma upload_rejects_incomplete_body_witness :
  let r := run (Routes.upload Scenario.all_fine (Some Upload.file)
                  {| Routes.name := Some "Burger"; Routes.projectId := None |})
               Upload.before [] in
  r.2 = Ok (Routes.Json 400 (Routes.MessageJson "Failed to upload model"))
  /\ files r.1.1 = files Upload.before.
Proof.
  destruct (upload_rejects_incomplete_body Scenario.all_fine Upload.file
              {| Routes.name := Some "Burger"; Routes.projectId := None |} Upload.before []
              (or_intror eq_refl)) as (Hr & _ & _ & Hf & _).
  split; [exact Hr | exact Hf].
Defined.

Lemma createArModel_run E ins w p w' p' model :
  run (Storage.createArModel E ins) w p = (w', p', Ok model) ->
  let key := gen_random_uuid E (draws w) in
  p' = p /\ model = Model.create key (now w) ins
  /\ models w' = <[key := model]> (models w)
  /\ heap w' = heap w /\ jobs w' = jobs w /\ files w' = files w /\ now w' = now w
  /\ draws w' = S (draws w).
Proof.
  unfold Storage.createArModel, io, Storage.db_call. cbn [bind sync run].
  destruct (db_error E _); [discriminate|].
  destruct (Storage.shortLink_taken _ _ _); [discriminate|].
  cbn [models emit next_draw].
  destruct (models w !! gen_random_uuid E (draws w)); [discriminate|].
  intros [= <- <- <-]. cbn. repeat split.
Qed.

Lemma uploadFile_run E file modelId w p w' p' url :
  run (FileUploadService.uploadFile E file modelId) w p = (w', p', Ok url) ->
  p' = p /\ url = FileUploadService.file_url E (uploadKey E file modelId (draws w))
  /\ models w' = models w /\ heap w' = heap w /\ jobs w' = jobs w /\ now w' = now w
  /\ draws w' = S (draws w)
  /\ (fs_error E (Unlink (path file)) = None -> files w' !! path file = None).
Proof.
  unfold FileUploadService.uploadFile, uploadKey. cbn. unfold fs_call. cbn.
  destruct (fs_error E (ReadFile (path file))); cbn; [discriminate|].
  destruct (files w !! path file) as [[|content]|] eqn:Hf; cbn; try discriminate.
  destruct (s3_error E _); cbn; [discriminate|].
  destruct (fs_error E (Unlink (path file))); [|rewrite Hf]; cbn.
  - intros [= <- <- <-]. cbn. repeat split. discriminate.
  - intros [= <- <- <-]. cbn. repeat split. intros _. apply lookup_delete_eq.
Qed.

Lemma convertModel_resume E modelId inputFilePath w p :
  let w' := (resume (ignore (convertModel E modelId inputFilePath)) w p).1.1 in
  let jobId := nanoid E 12 (draws w) in
  jobs w' = <[jobId := List.length (heap w)]> (jobs w)
  /\ heap w' = (heap w ++ [new_job jobId modelId inputFilePath (now w)])%list
  /\ files w' = files w
  /\ forall row, models w !! modelId = Some row -> Model.status row = Model.processing ->
       exists row', models w' !! modelId = Some row'
                    /\ Model.status row' = Model.processing
                    /\ Model.originalFileUrl row' = Model.originalFileUrl row.
Proof.
  unfold convertModel, ignore, Storage.updateModel. cbn. unfold Storage.db_call.
  cbn [emit models set_jobs set_heap next_draw now].
  destruct (db_error E _); cbn.
  - repeat split. intros row Hrow Hst. eauto.
  - destruct (models w !! modelId) as [m|] eqn:Hm; cbn.
    + repeat split. intros row [= <-] Hst. eexists. split; [apply lookup_insert_eq|].
      cbn. split; reflexivity.
    + repeat split. intros row Hrow. discriminate.
Qed.

(** X21: when the upload route answers 200, the model in the answer is
    the row as it was inserted: its status is still uploading and its
    short link is the one that was drawn first, while the stored row is
    by then processing and has the URL of the uploaded file.  A pending
    conversion job for the model is by then registered, whose input is
    the temporary file of the upload; and that file has been removed by
    [uploadFile], unless removing it failed. *)
Theorem upload_response_is_stale
    (E : Env) (file : MulterFile) (body : Routes.UploadBody) (w : World)
    (status : Z) (answered : Model.t) :
  let r := run (Routes.upload E (Some file) body) w [] in
  let w' := r.1.1 in
  let url := FileUploadService.file_url E
               (uploadKey E file (Model.id answered) (S (S (draws w)))) in
  r.2 = Ok (Routes.Json status (Routes.ModelJson answered)) ->
  status = 200
  /\ Model.status answered = Model.uploading
  /\ Model.shortLink answered = Some (nanoid E 8 (draws w))
  /\ (exists row, models w' !! Model.id answered = Some row
                  /\ Model.status row = Model.processing
                  /\ Model.originalFileUrl row = Some url)
  /\ (exists job, jobs w' !! nanoid E 12 (S (S (S (draws w)))) = Some job
                  /\ Job.modelId (job_at w' job) = Model.id answered
                  /\ Job.inputFile (job_at w' job) = path file
                  /\ Job.status (job_at w' job) = Job.pending)
  /\ (fs_error E (Unlink (path file)) = None -> files w' !! path file = None).
Proof.
  intros r w' url. subst w' url r.
  unfold Routes.upload. rewrite run_try_catch.
  destruct (run _ w []) as [[w1 p1] [resp|e]] eqn:Hb.
  2:{ unfold console. cbn [bind act run]. discriminate. }
  cbn [fst snd]. intros [= ->]. revert Hb.
  rewrite run_bind. cbn [draw_nanoid sync run].
  rewrite run_bind. unfold Routes.parse.
  destruct (Routes.name body) as [n|]; [|discriminate].
  destruct (Routes.projectId body) as [pid|]; [|discriminate].
  cbn [run]. rewrite run_bind.
  destruct (run (Storage.createArModel E _) _ []) as [[w2 p2] [model|e]] eqn:Hc;
    [|discriminate].
  apply createArModel_run in Hc as (-> & Hmodel & Hm2 & Hh2 & Hj2 & Hf2 & Hn2 & Hd2).
  cbn [draws next_draw now heap jobs files models] in Hmodel, Hm2, Hh2, Hj2, Hf2, Hn2, Hd2.
  rewrite run_bind.
  destruct (run (FileUploadService.uploadFile E file (Model.id model)) w2 [])
    as [[w3 p3] [fileUrl|e]] eqn:Hu; [|discriminate].
  apply uploadFile_run in Hu as (-> & Hurl & Hm3 & Hh3 & Hj3 & Hn3 & Hd3 & Hf3).
  rewrite run_bind.
  destruct (updateModel_spec E (Model.id model)
              {| Model.p_originalFileUrl := Some fileUrl; Model.p_glbFileUrl := None;
                 Model.p_usdzFileUrl := None; Model.p_thumbnailUrl := None;
                 Model.p_status := Some Model.processing;
                 Model.p_processingLogs := None; Model.p_shortLink := None;
                 Model.p_qrCodeUrl := None; Model.p_metadata := None |} w3 [])
    as (w4 & r4 & Hrun4 & Hh4 & Hj4 & Hn4 & Hd4 & Hf4 & _ & Hr4).
  rewrite Hrun4. destruct r4 as [om|e]; [|discriminate].
  rewrite run_spawn_ret.
  destruct (convertModel_resume E (Model.id model) (path file) w4 [])
    as (Hj5 & Hh5 & Hf5 & Hrow5).
  set (w5 := (resume _ w4 []).1.1) in *. set (p5 := keep _ _). clearbody w5 p5.
  intros Heq. injection Heq as Hw Hp Hs Ha. subst w1 p1 status answered.
  assert (Hid : Model.id model = gen_random_uuid E (S (draws w)))
    by (rewrite Hmodel; reflexivity).
  assert (Hrow3 : models w3 !! Model.id model = Some model).
  { rewrite Hm3, Hm2, <- Hid. apply lookup_insert_eq. }
  assert (Hrow4 : exists row, models w4 !! Model.id model = Some row
                    /\ Model.status row = Model.processing
                    /\ Model.originalFileUrl row = Some fileUrl).
  { destruct om as [m'|].
    - destruct Hr4 as (m & Hm & -> & Hm4 & _). rewrite Hm4.
      eexists. split; [apply lookup_insert_eq|]. cbn. split; reflexivity.
    - destruct Hr4 as [Hnone _]. congruence. }
  destruct Hrow4 as (row & Hrow & Hst & Hou).
  destruct (Hrow5 row Hrow Hst) as (row' & Hrow' & Hst' & Hou').
  split; [reflexivity|]. rewrite Hmodel at 1 2.
  split; [reflexivity|]. split; [reflexivity|].
  split.
  { exists row'. split; [exact Hrow'|]. split; [exact Hst'|].
    rewrite Hou', Hou, Hurl, Hd2. reflexivity. }
  split.
  { exists (List.length (heap w4)).
    rewrite Hj5, Hd4, Hd3, Hd2. split; [apply lookup_insert_eq|].
    unfold job_at. rewrite Hh5, lookup_app_r by lia. rewrite Nat.sub_diag. cbn.
    repeat split. }
  intros Hnone. rewrite Hf5, Hf4. apply Hf3, Hnone.
Qed.

Lemma upload_response_is_stale_witness :
  let w' := (run (Routes.upload Scenario.all_fine (Some Upload.file) burger_request)
               Upload.before []).1.1 in
  Model.status burger_answer = Model.uploading
  /\ (exists row, models w' !! Model.id burger_answer = Some row
                   /\ Model.status row = Model.processing)
  /\ files w' !! "/tmp/uploads/burger.glb" = None.
Proof.
  destruct (upload_response_is_stale Scenario.all_fine Upload.file burger_request Upload.before
              200 burger_answer) as (_ & Hst & _ & (row & Hrow & Hproc & _) & _ & Hgone).
  - vm_compute. reflexivity.
  - split; [exact Hst|]. split; [exists row; split; assumption|].
    apply Hgone. reflexivity.
Defined.

(** ** Further properties: analytics, billing and object keys *)

Lemma string_prefix_app (p b : string) : String.prefix p (p ++ b) = true.
Proof.
  induction p as [|c p IH]; simpl; [destruct b; reflexivity|].
  destruct (ascii_dec c c); [exact IH|contradiction].
Qed.

Lemma string_prefix_split (p t : string) :
  String.prefix p t = true -> exists b, t = p ++ b.
Proof.
  revert t. induction p as [|c p IH]; intros t H; simpl in *.
  - exists t. reflexivity.
  - destruct t as [|c' t]; [discriminate|]. simpl in H.
    destruct (ascii_dec c c') as [->|]; [|discriminate].
    destruct (IH _ H) as [b ->]. exists b. reflexivity.
Qed.

Lemma test_prefix (p t : string) :
  String.prefix p t = true -> AnalyticsService.test p t = true.
Proof. intros H. destruct t; cbn [AnalyticsService.test]; rewrite H; reflexivity. Qed.

Lemma test_occurs (p t : string) :
  AnalyticsService.test p t = true <-> occurs p t.
Proof.
  unfold occurs. split.
  - induction t as [|c t IH]; cbn [AnalyticsService.test]; intros H.
    + apply orb_true_iff in H as [H|H]; [|discriminate].
      apply string_prefix_split in H as [b Hb]. exists EmptyString, b. exact Hb.
    + apply orb_true_iff in H as [H|H].
      * apply string_prefix_split in H as [b Hb]. exists EmptyString, b. exact Hb.
      * destruct (IH H) as (a & b & ->). exists (String c a), b. reflexivity.
  - intros (a & b & ->). induction a as [|c a IH].
    + apply test_prefix. exact (string_prefix_app p b).
    + change (String c a ++ p ++ b) with (String c (a ++ p ++ b)).
      cbn [AnalyticsService.test]. rewrite IH. apply orb_true_r.
Qed.

Lemma test_absent (p t : string) :
  AnalyticsService.test p t = false <-> ~ occurs p t.
Proof.
  rewrite <- test_occurs. destruct (AnalyticsService.test p t); split; intros H;
    try discriminate; try reflexivity; try (intros H'; discriminate).
  exfalso. apply H. reflexivity.
Qed.

(** X22: [parseDevice] answers ios exactly when the user agent holds
    iPad, iPhone or iPod, with these capitals, whatever else it holds;
    android exactly when it holds Android and none of the three; and
    desktop exactly when it holds none of the four. *)
Theorem parseDevice_classifies (userAgent : string) :
  let apple := occurs "iPad" userAgent \/ occurs "iPhone" userAgent
               \/ occurs "iPod" userAgent in
  (AnalyticsService.parseDevice userAgent = AnalyticsService.ios <-> apple)
  /\ (AnalyticsService.parseDevice userAgent = AnalyticsService.android
      <-> occurs "Android" userAgent /\ ~ apple)
  /\ (AnalyticsService.parseDevice userAgent = AnalyticsService.desktop
      <-> ~ occurs "Android" userAgent /\ ~ apple).
Proof.
  intros apple. unfold AnalyticsService.parseDevice.
  assert (Ha : AnalyticsService.test "iPad" userAgent || AnalyticsService.test "iPhone" userAgent
               || AnalyticsService.test "iPod" userAgent = true <-> apple).
  { unfold apple. rewrite !orb_true_iff, !test_occurs. tauto. }
  pose proof (test_occurs "Android" userAgent) as Hd.
  destruct (_ || _ || _); destruct (AnalyticsService.test "Android" userAgent);
    repeat split; intros; try discriminate; try tauto;
    try (exfalso; intuition discriminate);
    intros Hx; [apply Ha in Hx | apply Hd in Hx | apply Ha in Hx]; discriminate.
Qed.

Section HourlyFacts.
Context (getHours : Z -> Z).
Import AnalyticsService.

Lemma count_event_views hourlyData event h :
  views_at (count_event getHours hourlyData event) h
  = views_at hourlyData h
    + one_if (bool_decide (h = getHours (timestamp event))
              && String.eqb (eventType event) "view").
Proof.
  unfold count_event, views_at, one_if.
  set (x := getHours (timestamp event)).
  destruct (String.eqb (eventType event) "view") eqn:Hv;
    [|destruct (String.eqb (eventType event) "ar_launch") eqn:Ha];
    destruct (hourlyData !! x) as [c|] eqn:Hx;
    destruct (decide (h = x)) as [->|Hne];
    rewrite ?lookup_alter_eq, ?lookup_alter_ne, ?lookup_insert_eq, ?lookup_insert_ne, ?Hx
      by congruence;
    case_bool_decide; try congruence; simpl; lia.
Qed.

Lemma count_event_arLaunches hourlyData event h :
  arLaunches_at (count_event getHours hourlyData event) h
  = arLaunches_at hourlyData h
    + one_if (bool_decide (h = getHours (timestamp event))
              && (negb (String.eqb (eventType event) "view")
                  && String.eqb (eventType event) "ar_launch")).
Proof.
  unfold count_event, arLaunches_at, one_if.
  set (x := getHours (timestamp event)).
  destruct (String.eqb (eventType event) "view") eqn:Hv;
    [|destruct (String.eqb (eventType event) "ar_launch") eqn:Ha];
    destruct (hourlyData !! x) as [c|] eqn:Hx;
    destruct (decide (h = x)) as [->|Hne];
    rewrite ?lookup_alter_eq, ?lookup_alter_ne, ?lookup_insert_eq, ?lookup_insert_ne, ?Hx
      by congruence;
    case_bool_decide; try congruence; simpl; lia.
Qed.

Lemma total_fmap {A B} (f : B -> Z) (g : A -> B) (l : list A) :
  total f (g <$> l) = total (fun x => f (g x)) l.
Proof.
  induction l as [|x l IH]; [reflexivity|]. rewrite fmap_cons.
  change (f (g x) + total f (g <$> l) = f (g x) + total (fun x => f (g x)) l).
  rewrite IH. reflexivity.
Qed.

Lemma total_add {A} (f g : A -> Z) (l : list A) :
  total (fun x => f x + g x) l = total f l + total g l.
Proof. induction l as [|x l IH]; simpl; [reflexivity|]. rewrite IH. lia. Qed.

Lemma total_ext {A} (f g : A -> Z) (l : list A) :
  (forall x, f x = g x) -> total f l = total g l.
Proof. intros H. induction l as [|x l IH]; simpl; [reflexivity|]. rewrite IH, H. reflexivity. Qed.

Lemma total_zero {A} (l : list A) : total (fun _ => 0) l = 0.
Proof. induction l as [|x l IH]; simpl; [reflexivity|]. rewrite IH. reflexivity. Qed.

Lemma total_absent (x : Z) (b : bool) (l : list Z) :
  x ∉ l -> total (fun h => one_if (bool_decide (h = x) && b)) l = 0.
Proof.
  induction l as [|y l IH]; simpl; intros H; [reflexivity|].
  apply not_elem_of_cons in H as [Hne Hl]. rewrite (IH Hl).
  rewrite bool_decide_eq_false_2 by congruence. reflexivity.
Qed.

Lemma total_indicator (x : Z) (b : bool) (l : list Z) :
  NoDup l -> x ∈ l -> total (fun h => one_if (bool_decide (h = x) && b)) l = one_if b.
Proof.
  induction l as [|y l IH]; simpl; intros Hnd Hin; [inversion Hin|].
  apply NoDup_cons in Hnd as [Hy Hnd].
  destruct (decide (y = x)) as [->|Hne].
  - rewrite bool_decide_eq_true_2 by reflexivity. rewrite total_absent by assumption.
    simpl. lia.
  - rewrite bool_decide_eq_false_2 by assumption.
    apply elem_of_cons in Hin as [Heq|Hin]; [congruence|].
    rewrite (IH Hnd Hin). reflexivity.
Qed.

Lemma count_type_cons type e events :
  count_type type (e :: events)
  = one_if (String.eqb (eventType e) type) + count_type type events.
Proof.
  unfold count_type, one_if. simpl. destruct (String.eqb (eventType e) type); simpl; lia.
Qed.

Lemma foldl_count_views events : forall hourlyData,
  (forall e, e ∈ events -> 0 <= getHours (timestamp e) < 24) ->
  total (views_at (foldl (count_event getHours) hourlyData events)) (seqZ 0 24)
  = total (views_at hourlyData) (seqZ 0 24) + count_type "view" events.
Proof.
  induction events as [|e events IH]; intros hourlyData Hr.
  - unfold count_type. simpl foldl. simpl List.length. lia.
  - change (foldl (count_event getHours) hourlyData (e :: events))
      with (foldl (count_event getHours) (count_event getHours hourlyData e) events).
    rewrite IH by (intros e' He'; apply Hr; right; exact He').
    rewrite (total_ext _ _ _ (count_event_views hourlyData e)), total_add.
    rewrite total_indicator;
      [|apply NoDup_seqZ|apply elem_of_seqZ; specialize (Hr e ltac:(left)); lia].
    rewrite count_type_cons. lia.
Qed.

Lemma foldl_count_arLaunches events : forall hourlyData,
  (forall e, e ∈ events -> 0 <= getHours (timestamp e) < 24) ->
  total (arLaunches_at (foldl (count_event getHours) hourlyData events)) (seqZ 0 24)
  = total (arLaunches_at hourlyData) (seqZ 0 24) + count_type "ar_launch" events.
Proof.
  induction events as [|e events IH]; intros hourlyData Hr.
  - unfold count_type. simpl foldl. simpl List.length. lia.
  - change (foldl (count_event getHours) hourlyData (e :: events))
      with (foldl (count_event getHours) (count_event getHours hourlyData e) events).
    rewrite IH by (intros e' He'; apply Hr; right; exact He').
    rewrite (total_ext _ _ _ (count_event_arLaunches hourlyData e)), total_add.
    rewrite total_indicator;
      [|apply NoDup_seqZ|apply elem_of_seqZ; specialize (Hr e ltac:(left)); lia].
    rewrite count_type_cons.
    destruct (String.eqb (eventType e) "view") eqn:Hv; [|simpl; lia].
    apply String.eqb_eq in Hv. rewrite Hv. simpl. lia.
Qed.

End HourlyFacts.

(** X23: [calculateHourlyBreakdown] returns 24 rows, for the hours 0 to
    23 in this order, whatever the events (none included); and when the
    hour of every event is one of these, as the hour of a valid date is,
    the views of the rows add up to the number of [view] events and
    their AR launches to the number of [ar_launch] events: every such
    event is counted once, and no event of another type is counted. *)
Theorem calculateHourlyBreakdown_counts
    (getHours : Z -> Z) (events : list AnalyticsService.AnalyticsEvent) :
  let rows := AnalyticsService.calculateHourlyBreakdown getHours events in
  AnalyticsService.hour <$> rows = seqZ 0 24
  /\ ((forall e, e ∈ events -> 0 <= getHours (AnalyticsService.timestamp e) < 24) ->
      AnalyticsService.total AnalyticsService.h_views rows
      = AnalyticsService.count_type "view" events
      /\ AnalyticsService.total AnalyticsService.h_arLaunches rows
         = AnalyticsService.count_type "ar_launch" events).
Proof.
  intros rows. unfold rows, AnalyticsService.calculateHourlyBreakdown. split.
  - rewrite <- list_fmap_compose. apply list_fmap_id.
  - intros Hr. rewrite !total_fmap. split.
    + transitivity (AnalyticsService.total
                      (AnalyticsService.views_at
                         (foldl (AnalyticsService.count_event getHours) ∅ events))
                      (seqZ 0 24)); [reflexivity|].
      rewrite (foldl_count_views getHours events ∅ Hr).
      rewrite (total_ext _ (fun _ => 0)) by reflexivity.
      rewrite total_zero. lia.
    + transitivity (AnalyticsService.total
                      (AnalyticsService.arLaunches_at
                         (foldl (AnalyticsService.count_event getHours) ∅ events))
                      (seqZ 0 24)); [reflexivity|].
      rewrite (foldl_count_arLaunches getHours events ∅ Hr).
      rewrite (total_ext _ (fun _ => 0)) by reflexivity.
      rewrite total_zero. lia.
Qed.

Lemma calculateHourlyBreakdown_counts_witness :
  AnalyticsService.total AnalyticsService.h_views
    (AnalyticsService.calculateHourlyBreakdown AnalyticsService.utc_hours
       AnalyticsService.sample_events) = 2
  /\ AnalyticsService.total AnalyticsService.h_arLaunches
       (AnalyticsService.calculateHourlyBreakdown AnalyticsService.utc_hours
          AnalyticsService.sample_events) = 1.
Proof.
  apply (proj2 (calculateHourlyBreakdown_counts AnalyticsService.utc_hours
                  AnalyticsService.sample_events)).
  intros e He. unfold AnalyticsService.utc_hours. apply Z.mod_pos_bound. lia.
Defined.

(** X24: when the three configured prices differ from one another,
    [getPlanTypeFromPriceId] gives back the plan of each configured
    price: the price of a plan names that plan. *)
Theorem getPlanTypeFromPriceId_round_trip (P : StripeService.Prices) (plan priceId : string) :
  NoDup (StripeService.STRIPE_PRICE_IDS P).*2 ->
  (plan, priceId) ∈ StripeService.STRIPE_PRICE_IDS P ->
  StripeService.getPlanTypeFromPriceId P priceId = plan.
Proof.
  unfold StripeService.getPlanTypeFromPriceId, StripeService.STRIPE_PRICE_IDS.
  set (a := Node.or_default _ "price_starter").
  set (b := Node.or_default _ "price_professional").
  set (c := Node.or_default _ "price_enterprise").
  intros Hnd Hin. cbn in Hnd.
  apply NoDup_cons in Hnd as [Ha Hnd]. apply NoDup_cons in Hnd as [Hb _].
  assert (Hab : a <> b) by (intros Heq; apply Ha, elem_of_cons; tauto).
  assert (Hac : a <> c) by (intros Heq; apply Ha; rewrite !elem_of_cons; tauto).
  assert (Hbc : b <> c) by (intros Heq; apply Hb, elem_of_cons; tauto).
  rewrite !elem_of_cons, elem_of_nil in Hin.
  destruct Hin as [Heq|[Heq|[Heq|[]]]]; injection Heq as -> ->; cbn [find].
  - rewrite String.eqb_refl. reflexivity.
  - rewrite (proj2 (String.eqb_neq a b) Hab), String.eqb_refl. reflexivity.
  - rewrite (proj2 (String.eqb_neq a c) Hac), (proj2 (String.eqb_neq b c) Hbc),
      String.eqb_refl. reflexivity.
Qed.

Lemma getPlanTypeFromPriceId_round_trip_witness :
  StripeService.getPlanTypeFromPriceId StripeService.no_prices "price_professional"
  = "professional".
Proof.
  apply getPlanTypeFromPriceId_round_trip.
  - cbn. repeat (apply NoDup_cons; split;
                 [rewrite ?elem_of_cons, ?elem_of_nil; intuition discriminate|]).
    apply NoDup_nil_2.
  - cbn. apply elem_of_cons. right. apply elem_of_cons. left. reflexivity.
Defined.

(** X25: [getPlanTypeFromPriceId] answers ['unknown'] exactly for the
    prices that are none of the three configured ones, and otherwise a
    plan that is configured with the price it was asked about: of two
    plans configured with the same price, the first of starter,
    professional, enterprise. *)
Theorem getPlanTypeFromPriceId_unknown (P : StripeService.Prices) (priceId : string) :
  (StripeService.getPlanTypeFromPriceId P priceId = "unknown"
   <-> priceId ∉ (StripeService.STRIPE_PRICE_IDS P).*2)
  /\ (priceId ∈ (StripeService.STRIPE_PRICE_IDS P).*2 ->
      (StripeService.getPlanTypeFromPriceId P priceId, priceId)
        ∈ StripeService.STRIPE_PRICE_IDS P)
  /\ (Node.or_default (StripeService.STRIPE_STARTER_PRICE_ID P) "price_starter" = priceId ->
      StripeService.getPlanTypeFromPriceId P priceId = "starter").
Proof.
  unfold StripeService.getPlanTypeFromPriceId, StripeService.STRIPE_PRICE_IDS.
  set (a := Node.or_default _ "price_starter").
  set (b := Node.or_default _ "price_professional").
  set (c := Node.or_default _ "price_enterprise").
  cbn [find fmap list_fmap snd]. rewrite !elem_of_cons, !elem_of_nil.
  destruct (String.eqb_spec a priceId) as [Ha|Ha];
    [|destruct (String.eqb_spec b priceId) as [Hb|Hb];
      [|destruct (String.eqb_spec c priceId) as [Hc|Hc]]];
    repeat split; intros; try discriminate; subst; try tauto;
    try (intros [?|[?|[?|[]]]]; congruence); try congruence; auto 6.
  destruct H as [?|[?|[?|[]]]]; congruence.
Qed.

(** X26: with the storage of server/storage.ts, which has no
    [getUserByStripeCustomerId], [handleWebhook] changes no user whatever
    the event: a verified event only makes its handler print one line
    ([upsertUser] is never reached, the outcome being the same for every
    [upsertUser]), and an event that fails verification is printed and
    rethrown as the one error of the function. *)
Theorem handleWebhook_never_updates_users
    (P : StripeService.Prices)
    (constructEvent : string -> string -> string -> Result StripeService.StripeEvent)
    (upsertUser : StripeService.User -> Async StripeService.User)
    (body signature endpointSecret : string) (w : World) (p : list (Async unit)) :
  run (StripeService.handleWebhook P constructEvent
         (StripeService.DatabaseStorage upsertUser) body signature endpointSecret) w p
  = match constructEvent body signature endpointSecret with
    | Ok event =>
        (emit (Console Log (StripeService.handled_line event)) w, p, Ok tt)
    | Error error =>
        (emit (Console Err ("Webhook error: " ++ error)) w, p,
         Error "Webhook processing failed")
    end.
Proof.
  unfold StripeService.handleWebhook, StripeService.handled_line.
  destruct (constructEvent body signature endpointSecret) as [event|error]; [|reflexivity].
  cbn [of_result bind].
  repeat (destruct (String.eqb (StripeService.type event) _); [reflexivity|]).
  reflexivity.
Qed.

Lemma string_app_assoc (a b c : string) : (a ++ b) ++ c = a ++ b ++ c.
Proof.
  induction a as [|x a IH]; [reflexivity|].
  change (String x ((a ++ b) ++ c) = String x (a ++ b ++ c)). rewrite IH. reflexivity.
Qed.

Lemma remove_first_eq (pattern text : string) :
  ObjectKey.remove_first pattern text
  = if String.prefix pattern text then ObjectKey.skip (String.length pattern) text
    else match text with
         | EmptyString => EmptyString
         | String c rest => String c (ObjectKey.remove_first pattern rest)
         end.
Proof. destruct text; reflexivity. Qed.

Lemma skip_app (p b : string) : ObjectKey.skip (String.length p) (p ++ b) = b.
Proof.
  induction p as [|c p IH]; [reflexivity|].
  change (ObjectKey.skip (String.length p) (p ++ b) = b). exact IH.
Qed.

Lemma remove_first_absent (pattern text : string) :
  ~ occurs pattern text -> ObjectKey.remove_first pattern text = text.
Proof.
  induction text as [|c text IH]; intros H; rewrite remove_first_eq.
  - destruct (String.prefix pattern EmptyString) eqn:Hp; [|reflexivity].
    exfalso. apply H. apply string_prefix_split in Hp as [b Hb].
    exists EmptyString, b. exact Hb.
  - destruct (String.prefix pattern (String c text)) eqn:Hp.
    + exfalso. apply H. apply string_prefix_split in Hp as [b Hb].
      exists EmptyString, b. exact Hb.
    + rewrite IH; [reflexivity|]. intros (a & b & ->). apply H.
      exists (String c a), b. reflexivity.
Qed.

(** X27: the key [deleteFile] and [getFileMetadata] compute from a URL
    made by the upload functions of the service is the key the file was
    stored under. *)
Theorem key_of_stored_url (E : Env) (fileName : string) :
  ObjectKey.key E (FileUploadService.file_url E fileName) = fileName.
Proof.
  unfold ObjectKey.key, FileUploadService.file_url.
  set (domain := FileUploadService.CDN_DOMAIN E).
  replace ("https://" ++ domain ++ "/" ++ fileName)
    with (("https://" ++ domain ++ "/") ++ fileName)
    by (rewrite !string_app_assoc; reflexivity).
  rewrite remove_first_eq, string_prefix_app. apply skip_app.
Qed.

(** X28: for a URL in which [https://{CDN_DOMAIN}/] does not occur, the
    key [deleteFile] and [getFileMetadata] compute is the whole URL: the
    command is sent for a key that is a URL, not rejected. *)
Theorem key_of_foreign_url (E : Env) (fileUrl : string) :
  ~ occurs ("https://" ++ FileUploadService.CDN_DOMAIN E ++ "/") fileUrl ->
  ObjectKey.key E fileUrl = fileUrl.
Proof. apply remove_first_absent. Qed.

Lemma key_of_foreign_url_witness :
  ObjectKey.key Scenario.all_fine "https://example.com/models/m1/a.glb"
  = "https://example.com/models/m1/a.glb".
Proof. apply key_of_foreign_url. apply test_absent. vm_compute. reflexivity. Defined.
